(** * OCR function nodes for n8n: a shallow embedding and its properties

    The repository holds three scripts that run tesseract.js inside an n8n
    function node:

    - the advanced node ([preprocessImage], [performAdvancedOCR] and the
      exported node function, here [advanced_node]),
    - [src/ocr-example.js] ([performOCR]),
    - [src/ocr-n8n-code-block.js] ([extractTextFromImage] and the exported
      node function, here [code_block_node]).

    The scripts are asynchronous JavaScript.  Every [await] in them is
    sequential, so an [async] function is embedded as a computation in a
    monad [M] that threads the trace of observable effects and may throw.
    The libraries the scripts call (tesseract.js, sharp, the n8n host, the
    clock) are not part of the repository: their answers come from an
    environment [Env], over which every theorem quantifies.

    What the embedding fixes about the outside world:
    - [retries] is an integer;
    - a logger is one of the two sinks the repository has, and does not
      throw;
    - a job or a [recognize] call that resolves carries a [data.text] that
      is a string;
    - [terminate] returns a promise (it does not throw before that), and
      the order in which the promises under [Promise.all] settle is the
      environment's.

    The file has three parts: the embedding of the scripts, the vocabulary
    in which their properties are stated, and the properties. *)

From Stdlib Require Import ZArith NArith QArith List String Ascii Bool Lia.
From Stdlib Require Import DecimalString Sorted.
Import ListNotations.

Local Open Scope string_scope.
Local Open Scope list_scope.
Local Open Scope Z_scope.

(** ** JavaScript values

    Anything can be thrown in JavaScript, and the scripts read [.message]
    and [.stack] of what they catch and test it for truthiness.  [value]
    holds the shapes these operations tell apart. *)

Inductive value : Type :=
| VUndefined
| VNull
| VBool (b : bool)
| VNum (n : Z)
| VStr (s : string)
| VError (message stack : string).

(** [if (v)] *)
Definition truthy (v : value) : bool :=
  match v with
  | VUndefined | VNull => false
  | VBool b => b
  | VNum n => negb (n =? 0)%Z
  | VStr s => negb (s =? "")%string
  | VError _ _ => true
  end.

Definition is_error_object (v : value) : bool :=
  match v with VError _ _ => true | _ => false end.

Definition nullish (v : value) : bool :=
  match v with VUndefined | VNull => true | _ => false end.

Definition string_of_Z (n : Z) : string :=
  NilZero.string_of_int (Z.to_int n).

(** The string a template literal puts in place of [${v}]. *)
Definition to_string (v : value) : string :=
  match v with
  | VUndefined => "undefined"
  | VNull => "null"
  | VBool true => "true"
  | VBool false => "false"
  | VNum n => string_of_Z n
  | VStr s => s
  | VError m _ => "Error: " ++ m
  end.

(** Recognised text is a JavaScript string: a sequence of UTF-16 code
    units.  [.length] and the regular expression class [\s] work on code
    units, so the text keeps them; messages, language codes and log lines,
    whose content no operation inspects, are plain strings. *)
Definition text := list N.

(** An image buffer, as its bytes. *)
Definition buffer := list Byte.byte.

(** ** Workers, image operations and the trace of effects *)

(** A tesseract.js worker; [wid] is the rank of the [createWorker] call
    that made it. *)
Record worker : Type := { wid : nat; wlang : string }.

Definition worker_eqb (a b : worker) : bool :=
  (wid a =? wid b)%nat && (wlang a =? wlang b)%string.

(** One step of a sharp pipeline. *)
Inductive sharp_op : Type :=
| Grayscale
| Normalize
| Threshold (thresholdValue : Z)
| Resize (width : Z) (withoutEnlargement : bool)
| Sharpen
| Modulate (brightness contrast : Q)
| Median (size : Z).

(** What the scripts do to the outside world, newest event first. *)
Inductive event : Type :=
| EConsoleLog (line : string)
| EConsoleError (label : string) (v : value)
| ENow
| EInputFirst
| ESharp (img : buffer) (ops : list sharp_op)
| ECreateScheduler
| ECreateWorker (lang : string) (made : option worker)
| EAddWorker (w : worker)
| EAddJob (img : buffer)
| ERecognize (w : worker) (img : buffer)
| EDelay (ms : Z)
| ETerminate (w : worker) (ok : bool).

Definition trace := list event.

(** ** The monad of an [async] function *)

Inductive outcome (A : Type) : Type :=
| Return (a : A)
| Throw (v : value)
| OutOfFuel.
Arguments Return {A} a.
Arguments Throw {A} v.
Arguments OutOfFuel {A}.

Definition M (A : Type) : Type := trace -> outcome A * trace.

Definition ret {A} (a : A) : M A := fun tr => (Return a, tr).
Definition throw {A} (v : value) : M A := fun tr => (Throw v, tr).
Definition out_of_fuel {A} : M A := fun tr => (OutOfFuel, tr).
Definition emit (e : event) : M unit := fun tr => (Return tt, e :: tr).
Definition get_trace : M trace := fun tr => (Return tr, tr).

Definition bind {A B} (m : M A) (k : A -> M B) : M B :=
  fun tr =>
    match m tr with
    | (Return a, tr') => k a tr'
    | (Throw v, tr') => (Throw v, tr')
    | (OutOfFuel, tr') => (OutOfFuel, tr')
    end.

Declare Scope js_scope.
Delimit Scope js_scope with js.
Notation "x <- m ;; k" := (bind m (fun x => k))
  (at level 61, m at next level, right associativity) : js_scope.
Notation "m ;; k" := (bind m (fun _ => k))
  (at level 61, right associativity) : js_scope.
Local Open Scope js_scope.

(** [try { body } catch (err) { handler }] *)
Definition try_catch {A} (body : M A) (handler : value -> M A) : M A :=
  fun tr =>
    match body tr with
    | (Throw v, tr') => handler v tr'
    | r => r
    end.

(** [try { body } finally { cleanup }]: the cleanup runs whatever the body
    did; when the cleanup throws, its exception replaces the body's
    completion. *)
Definition try_finally {A} (body : M A) (cleanup : M unit) : M A :=
  fun tr =>
    match body tr with
    | (OutOfFuel, tr') => (OutOfFuel, tr')
    | (r, tr') =>
        match cleanup tr' with
        | (Return _, tr'') => (r, tr'')
        | (Throw v, tr'') => (Throw v, tr'')
        | (OutOfFuel, tr'') => (OutOfFuel, tr'')
        end
    end.

(** What an external call answers: a value, or a rejection. *)
Inductive result (A : Type) : Type :=
| Resolved (a : A)
| Rejected (v : value).
Arguments Resolved {A} a.
Arguments Rejected {A} v.

Definition await {A} (r : result A) : M A :=
  match r with
  | Resolved a => ret a
  | Rejected v => throw v
  end.

(** ** Counting over traces *)

Definition is_add_job (e : event) : bool :=
  match e with EAddJob _ => true | _ => false end.
Definition is_delay (e : event) : bool :=
  match e with EDelay _ => true | _ => false end.
Definition is_create_worker (e : event) : bool :=
  match e with ECreateWorker _ _ => true | _ => false end.
Definition is_sharp (e : event) : bool :=
  match e with ESharp _ _ => true | _ => false end.
Definition is_now (e : event) : bool :=
  match e with ENow => true | _ => false end.
Definition is_terminate_of (w : worker) (e : event) : bool :=
  match e with ETerminate w' _ => worker_eqb w w' | _ => false end.
Definition is_terminated (w : worker) (e : event) : bool :=
  match e with ETerminate w' true => worker_eqb w w' | _ => false end.

Definition count (p : event -> bool) (tr : trace) : nat :=
  List.length (List.filter p tr).

(** The workers [createWorker] has handed out so far, newest first. *)
Fixpoint created_workers (tr : trace) : list worker :=
  match tr with
  | [] => []
  | ECreateWorker _ (Some w) :: tr' => w :: created_workers tr'
  | _ :: tr' => created_workers tr'
  end.

(** A worker is live from its creation until a [terminate] call on it
    succeeds. *)
Definition live_workers (tr : trace) : list worker :=
  List.filter (fun w => negb (existsb (is_terminated w) tr)) (created_workers tr).

(** ** The environment

    The answers of everything the scripts call but do not define.  Calls
    that happen several times are told apart by their rank (counted from
    0) and their arguments. *)

(** The item [$input.first()] hands to a node: [binary] is optional, and so
    are its [data] (base64) and [mimeType]. *)
Module Binary.
Record t : Type := { data : option string; mimeType : option string }.
End Binary.

Module Item.
Record t : Type := { binary : option Binary.t }.
End Item.

Record Env : Type := {
  (** [$input.first()]; [None] is [undefined] *)
  input_first : result (option Item.t);
  (** [Buffer.from(data, 'base64')] *)
  buffer_from_base64 : string -> buffer;
  (** [sharp(img). ... .toBuffer()] *)
  sharp_toBuffer : buffer -> list sharp_op -> result buffer;
  (** [createWorker(lang)], by rank; [None] when the worker starts *)
  createWorker_answer : nat -> string -> option value;
  (** [scheduler.addJob('recognize', img)], by rank: [data.text] *)
  addJob_answer : nat -> buffer -> result text;
  (** [worker.recognize(img)]: [data.text] *)
  recognize_answer : worker -> buffer -> result text;
  (** [worker.terminate()]; [None] when it resolves *)
  terminate_answer : worker -> option value;
  (** the instant at which the promise of [worker.terminate()] settles *)
  terminate_settles : worker -> nat;
  (** [new Date().toISOString()], by rank *)
  clock : nat -> string;
  (** the [stack] an error made by the script or the runtime carries *)
  capture_stack : string -> string
}.

(** The logging sinks of the repository: [console.log], the default of
    [performAdvancedOCR], and the timestamping logger of the advanced
    node. *)
Inductive logger_t : Type :=
| console_log
| timestamp_logger.

(** [preprocessImage]'s [options]; an absent field is [None]. *)
Module PreprocessOptions.
Record t : Type := {
  grayscale : option bool;
  normalize : option bool;
  threshold : option bool;
  thresholdValue : option Z;
  resize : option bool;
  width : option Z;
  sharpen : option bool;
  removeNoise : option bool;
  contrast : option Q;
  brightness : option Q
}.
(** [{}] *)
Definition empty : t :=
  {| grayscale := None; normalize := None; threshold := None;
     thresholdValue := None; resize := None; width := None;
     sharpen := None; removeNoise := None; contrast := None;
     brightness := None |}.
End PreprocessOptions.

(** [performAdvancedOCR]'s [options]. *)
Module Options.
Record t : Type := {
  languages : option (list string);
  preprocessing : option bool;
  preprocessingOptions : option PreprocessOptions.t;
  logger : option logger_t;
  retries : option Z
}.
End Options.

(** A destructuring default: [{ field = d } = options]. *)
Definition default {A} (d : A) (o : option A) : A :=
  match o with Some a => a | None => d end.

(** The local variables of the retry loop. *)
Record loop_vars : Type := {
  attempts : Z;
  error : value;
  text_ : text
}.

Section Scripts.

Variable env : Env.

(** *** Primitive calls *)

Definition new_error (message : string) : value :=
  VError message (capture_stack env message).

(** [new Date().toISOString()] *)
Definition now : M string :=
  tr <- get_trace ;;
  emit ENow ;;
  ret (clock env (count is_now tr)).

(** [logger(line)] *)
Definition log (lg : logger_t) (line : string) : M unit :=
  match lg with
  | console_log => emit (EConsoleLog line)
  | timestamp_logger =>
      timestamp <- now ;;
      emit (EConsoleLog ("[" ++ timestamp ++ "] " ++ line))
  end.

(** [v.message]: reading a property of [undefined] or [null] throws a
    TypeError; a primitive has no such property. *)
Definition get_message (v : value) : M value :=
  match v with
  | VUndefined =>
      throw (new_error "Cannot read properties of undefined (reading 'message')")
  | VNull =>
      throw (new_error "Cannot read properties of null (reading 'message')")
  | VError m _ => ret (VStr m)
  | _ => ret VUndefined
  end.

(** [v.stack] *)
Definition get_stack (v : value) : M value :=
  match v with
  | VUndefined =>
      throw (new_error "Cannot read properties of undefined (reading 'stack')")
  | VNull =>
      throw (new_error "Cannot read properties of null (reading 'stack')")
  | VError _ s => ret (VStr s)
  | _ => ret VUndefined
  end.

(** [await createWorker(lang, ...)].  The progress lines the engine sends
    to the logger while it works are the engine's, and are left out of
    the trace. *)
Definition createWorker (lang : string) : M worker :=
  tr <- get_trace ;;
  let k := count is_create_worker tr in
  match createWorker_answer env k lang with
  | None =>
      let w := {| wid := k; wlang := lang |} in
      emit (ECreateWorker lang (Some w)) ;;
      ret w
  | Some v =>
      emit (ECreateWorker lang None) ;;
      throw v
  end.

(** [(await scheduler.addJob('recognize', img)).data.text] *)
Definition addJob (img : buffer) : M text :=
  tr <- get_trace ;;
  emit (EAddJob img) ;;
  await (addJob_answer env (count is_add_job tr) img).

(** [(await worker.recognize(img)).data.text] *)
Definition recognize (w : worker) (img : buffer) : M text :=
  emit (ERecognize w img) ;;
  await (recognize_answer env w img).

(** [await new Promise((resolve) => setTimeout(resolve, ms))] *)
Definition delay (ms : Z) : M unit := emit (EDelay ms).

(** [worker.terminate()], the call: it starts the termination and hands
    back a promise. *)
Definition terminate_call (w : worker) : M unit :=
  emit (ETerminate w (match terminate_answer env w with
                      | None => true
                      | Some _ => false
                      end)).

(** [await worker.terminate()] *)
Definition terminate (w : worker) : M unit :=
  terminate_call w ;;
  match terminate_answer env w with
  | None => ret tt
  | Some v => throw v
  end.

(** [workers.map((worker) => worker.terminate())]: every call is made, in
    order, before anything is awaited. *)
Fixpoint terminate_each (ws : list worker) : M unit :=
  match ws with
  | [] => ret tt
  | w :: ws' => terminate_call w ;; terminate_each ws'
  end.

(** The rejection [Promise.all] settles with: that of the promise that
    rejects first in time (the earlier worker on a tie); [None] when
    every promise resolves. *)
Fixpoint first_rejection (ws : list worker) : option (nat * value) :=
  match ws with
  | [] => None
  | w :: ws' =>
      match terminate_answer env w, first_rejection ws' with
      | None, later => later
      | Some v, None => Some (terminate_settles env w, v)
      | Some v, Some (t', v') =>
          if (t' <? terminate_settles env w)%nat
          then Some (t', v')
          else Some (terminate_settles env w, v)
      end
  end.

(** [await Promise.all(workers.map((worker) => worker.terminate()))] *)
Definition terminate_all (ws : list worker) : M unit :=
  terminate_each ws ;;
  match first_rejection ws with
  | None => ret tt
  | Some (_, v) => throw v
  end.

(** *** [preprocessImage] *)

Definition when_ (b : bool) (op : sharp_op) : list sharp_op :=
  if b then [op] else [].

Definition preprocess_ops (options : PreprocessOptions.t) : list sharp_op :=
  let grayscale := default true (PreprocessOptions.grayscale options) in
  let normalize := default true (PreprocessOptions.normalize options) in
  let threshold := default false (PreprocessOptions.threshold options) in
  let thresholdValue := default 128 (PreprocessOptions.thresholdValue options) in
  let resize := default false (PreprocessOptions.resize options) in
  let width := default 1800 (PreprocessOptions.width options) in
  let sharpen := default true (PreprocessOptions.sharpen options) in
  let removeNoise := default true (PreprocessOptions.removeNoise options) in
  let contrast := default 1%Q (PreprocessOptions.contrast options) in
  let brightness := default 1%Q (PreprocessOptions.brightness options) in
  when_ grayscale Grayscale
  ++ when_ normalize Normalize
  ++ when_ threshold (Threshold thresholdValue)
  ++ when_ resize (Resize width true)
  ++ when_ sharpen Sharpen
  ++ when_ (negb (Qeq_bool contrast 1) || negb (Qeq_bool brightness 1))
       (Modulate brightness contrast)
  ++ when_ removeNoise (Median 3).

Definition preprocessImage (imageBuffer : buffer)
    (options : PreprocessOptions.t) : M buffer :=
  let ops := preprocess_ops options in
  emit (ESharp imageBuffer ops) ;;
  await (sharp_toBuffer env imageBuffer ops).

(** *** [performAdvancedOCR] *)

(** [for (const lang of languages) { ... }] *)
Fixpoint init_workers (lg : logger_t) (languages : list string)
    (workers : list worker) : M (list worker) :=
  match languages with
  | [] => ret workers
  | lang :: rest =>
      log lg ("Initializing worker for language: " ++ lang) ;;
      w <- createWorker lang ;;
      emit (EAddWorker w) ;;
      init_workers lg rest (workers ++ [w])
  end.

(** One turn of the [while] body; [true] stands for [break]. *)
Definition attempt (lg : logger_t) (retries : Z) (processedImage : buffer)
    (vars : loop_vars) : M (bool * loop_vars) :=
  try_catch
    (t <- addJob processedImage ;;
     ret (true, {| attempts := attempts vars; error := VNull; text_ := t |}))
    (fun err =>
       let attempts' := attempts vars + 1 in
       message <- get_message err ;;
       log lg ("OCR attempt " ++ string_of_Z attempts' ++ " failed: "
                 ++ to_string message) ;;
       (if attempts' <? retries then delay 1000 else ret tt) ;;
       ret (false, {| attempts := attempts'; error := err;
                      text_ := text_ vars |})).

(** [while (attempts < retries) { ... }] *)
Fixpoint retry_loop (fuel : nat) (lg : logger_t) (retries : Z)
    (processedImage : buffer) (vars : loop_vars) : M loop_vars :=
  if attempts vars <? retries then
    match fuel with
    | O => out_of_fuel
    | S fuel' =>
        r <- attempt lg retries processedImage vars ;;
        let '(stop, vars') := r in
        if (stop : bool) then ret vars'
        else retry_loop fuel' lg retries processedImage vars'
    end
  else ret vars.

(** The [try] block of [performAdvancedOCR]. *)
Definition recognize_with_retries (fuel : nat) (lg : logger_t) (retries : Z)
    (processedImage : buffer) : M text :=
  log lg "Starting OCR process..." ;;
  vars <- retry_loop fuel lg retries processedImage
            {| attempts := 0; error := VNull; text_ := [] |} ;;
  (if truthy (error vars) then throw (error vars) else ret tt) ;;
  log lg "OCR process completed successfully" ;;
  ret (text_ vars).

(** The [finally] block of [performAdvancedOCR]. *)
Definition terminate_workers (lg : logger_t) (workers : list worker) : M unit :=
  log lg "Terminating workers..." ;;
  terminate_all workers ;;
  log lg "All workers terminated".

Definition performAdvancedOCR (fuel : nat) (imageBuffer : buffer)
    (options : Options.t) : M text :=
  let languages := default ["eng"] (Options.languages options) in
  let preprocessing := default true (Options.preprocessing options) in
  let preprocessingOptions :=
    default PreprocessOptions.empty (Options.preprocessingOptions options) in
  let logger := default console_log (Options.logger options) in
  let retries := default 1 (Options.retries options) in
  processedImage <-
    (if preprocessing then
       log logger "Preprocessing image for better OCR results..." ;;
       p <- preprocessImage imageBuffer preprocessingOptions ;;
       log logger "Preprocessing complete." ;;
       ret p
     else ret imageBuffer) ;;
  emit ECreateScheduler ;;
  workers <- init_workers logger languages [] ;;
  try_finally
    (recognize_with_retries fuel logger retries processedImage)
    (terminate_workers logger workers).

(** *** [performOCR] (src/ocr-example.js) *)

Definition performOCR (image : buffer) (lang : option string) : M text :=
  let lang := default "eng" lang in
  emit (EConsoleLog "Initializing Tesseract worker...") ;;
  worker <- createWorker lang ;;
  try_finally
    (try_catch
       (emit (EConsoleLog "Processing image...") ;;
        t <- recognize worker image ;;
        emit (EConsoleLog "OCR completed successfully") ;;
        ret t)
       (fun error =>
          emit (EConsoleError "OCR Error:" error) ;;
          throw error))
    (terminate worker ;;
     emit (EConsoleLog "Tesseract worker terminated")).

(** *** [extractTextFromImage] (src/ocr-n8n-code-block.js) *)

Definition extractTextFromImage (imageBuffer : buffer)
    (language : option string) : M text :=
  let language := default "eng" language in
  worker <- createWorker language ;;
  try_finally
    (recognize worker imageBuffer)
    (terminate worker).

(** *** Reading the node's input *)

(** [$input.first()] *)
Definition input_first_call : M (option Item.t) :=
  emit EInputFirst ;;
  await (input_first env).

(** [item.binary]: throws a TypeError when [item] is [undefined]. *)
Definition get_binary (item : option Item.t) : M (option Binary.t) :=
  match item with
  | None =>
      throw (new_error "Cannot read properties of undefined (reading 'binary')")
  | Some i => ret (Item.binary i)
  end.

(** [binary?.data] and [binary?.mimeType] *)
Definition opt_data (binary : option Binary.t) : option string :=
  match binary with Some b => Binary.data b | None => None end.
Definition opt_mimeType (binary : option Binary.t) : option string :=
  match binary with Some b => Binary.mimeType b | None => None end.

End Scripts.

(** [!binaryData]: [undefined] and the empty string are falsy. *)
Definition no_data (binaryData : option string) : bool :=
  match binaryData with
  | None => true
  | Some s => (s =? "")%string
  end.

(** [s.includes(needle)] *)
Fixpoint includes (needle s : string) : bool :=
  prefix needle s
  || match s with
     | EmptyString => false
     | String _ s' => includes needle s'
     end.

(** [mimeType?.includes(needle)], as a condition. *)
Definition opt_includes (mimeType : option string) (needle : string) : bool :=
  match mimeType with
  | Some m => includes needle m
  | None => false
  end.

(** ** Text statistics *)

(** The code units [\s] matches: the WhiteSpace and LineTerminator code
    points of ECMAScript. *)
Definition is_space (c : N) : bool :=
  ((9 <=? c) && (c <=? 13)
   || (c =? 32) || (c =? 160) || (c =? 5760)
   || (8192 <=? c) && (c <=? 8202)
   || (c =? 8232) || (c =? 8233) || (c =? 8239) || (c =? 8287)
   || (c =? 12288) || (c =? 65279))%N.

Definition newline : N := 10%N.

(** [s.split(sep)] for a separator of one code unit; [cur] holds the piece
    being read, last unit first. *)
Fixpoint split_unit (sep : N) (cur s : text) : list text :=
  match s with
  | [] => [rev cur]
  | c :: s' =>
      if (c =? sep)%N then rev cur :: split_unit sep [] s'
      else split_unit sep (c :: cur) s'
  end.

(** [s.split(/\s+/)]: a separator is a maximal run of [\s]; [in_sep] tells
    that the unit before was part of one. *)
Fixpoint split_spaces (in_sep : bool) (cur s : text) : list text :=
  match s with
  | [] => [rev cur]
  | c :: s' =>
      if is_space c then
        if in_sep then split_spaces true [] s'
        else rev cur :: split_spaces true [] s'
      else split_spaces false (c :: cur) s'
  end.

Module Stats.
Record t : Type := {
  textLength : nat;
  lineCount : nat;
  wordCount : nat;
  timestamp : string
}.
End Stats.

Definition textLength_of (extractedText : text) : nat :=
  List.length extractedText.

Definition lineCount_of (extractedText : text) : nat :=
  List.length (split_unit newline [] extractedText).

Definition wordCount_of (extractedText : text) : nat :=
  List.length
    (List.filter (fun w => (0 <? List.length w)%nat)
       (split_spaces false [] extractedText)).

(** ** The exported node functions *)

(** The object under [json] in what a node returns; a field the object
    literal does not have is [None]. *)
Module Json.
Record t : Type := {
  success : bool;
  text : option (list N);
  statistics : option Stats.t;
  languages : option (list string);
  mimeType : option (option string);
  error : option value;
  stack : option value;
  timestamp : option string
}.
End Json.

Record node_output : Type := { json : Json.t }.

Section Nodes.

Variable env : Env.

(** [module.exports] of the advanced node. *)
Definition advanced_node (fuel : nat) : M node_output :=
  let logger := timestamp_logger in
  try_catch
    (inputItem <- input_first_call env ;;
     binary <- get_binary env inputItem ;;
     let binaryData := opt_data binary in
     let mimeType := opt_mimeType binary in
     (if no_data binaryData then
        throw (new_error env
          "No binary data found in input. Connect a node that provides image data.")
      else ret tt) ;;
     let buffer := buffer_from_base64 env (default "" binaryData) in
     let languages := ["eng"] in
     let preprocessingOptions :=
       if opt_includes mimeType "image/jpeg" || opt_includes mimeType "image/jpg"
       then {| PreprocessOptions.grayscale := Some true;
               PreprocessOptions.normalize := Some true;
               PreprocessOptions.threshold := None;
               PreprocessOptions.thresholdValue := None;
               PreprocessOptions.resize := None;
               PreprocessOptions.width := None;
               PreprocessOptions.sharpen := Some true;
               PreprocessOptions.removeNoise := None;
               PreprocessOptions.contrast := Some (12 # 10)%Q;
               PreprocessOptions.brightness := None |}
       else if opt_includes mimeType "image/png"
       then {| PreprocessOptions.grayscale := Some true;
               PreprocessOptions.normalize := None;
               PreprocessOptions.threshold := None;
               PreprocessOptions.thresholdValue := None;
               PreprocessOptions.resize := None;
               PreprocessOptions.width := None;
               PreprocessOptions.sharpen := Some false;
               PreprocessOptions.removeNoise := Some true;
               PreprocessOptions.contrast := None;
               PreprocessOptions.brightness := None |}
       else {| PreprocessOptions.grayscale := Some true;
               PreprocessOptions.normalize := Some true;
               PreprocessOptions.threshold := None;
               PreprocessOptions.thresholdValue := None;
               PreprocessOptions.resize := None;
               PreprocessOptions.width := None;
               PreprocessOptions.sharpen := None;
               PreprocessOptions.removeNoise := None;
               PreprocessOptions.contrast := None;
               PreprocessOptions.brightness := None |} in
     let ocrOptions :=
       {| Options.languages := Some languages;
          Options.preprocessing := Some true;
          Options.preprocessingOptions := Some preprocessingOptions;
          Options.logger := Some logger;
          Options.retries := Some 2 |} in
     log env logger "Starting advanced OCR process..." ;;
     extractedText <- performAdvancedOCR env fuel buffer ocrOptions ;;
     stamp <- now env ;;
     let stats :=
       {| Stats.textLength := textLength_of extractedText;
          Stats.lineCount := lineCount_of extractedText;
          Stats.wordCount := wordCount_of extractedText;
          Stats.timestamp := stamp |} in
     ret {| json :=
              {| Json.success := true;
                 Json.text := Some extractedText;
                 Json.statistics := Some stats;
                 Json.languages := Some languages;
                 Json.mimeType := Some mimeType;
                 Json.error := None;
                 Json.stack := None;
                 Json.timestamp := None |} |})
    (fun error =>
       message <- get_message env error ;;
       log env logger ("Error in OCR node: " ++ to_string message) ;;
       message <- get_message env error ;;
       stack <- get_stack env error ;;
       stamp <- now env ;;
       ret {| json :=
                {| Json.success := false;
                   Json.text := None;
                   Json.statistics := None;
                   Json.languages := None;
                   Json.mimeType := None;
                   Json.error := Some message;
                   Json.stack := Some stack;
                   Json.timestamp := Some stamp |} |}).

(** [module.exports] of src/ocr-n8n-code-block.js. *)
Definition code_block_node : M node_output :=
  try_catch
    (inputItem <- input_first_call env ;;
     binary <- get_binary env inputItem ;;
     let binaryData := opt_data binary in
     (if no_data binaryData then
        throw (new_error env
          "No binary data found in input. Please connect a node that provides image data.")
      else ret tt) ;;
     let imageBuffer := buffer_from_base64 env (default "" binaryData) in
     let language := "eng" in
     extractedText <- extractTextFromImage env imageBuffer (Some language) ;;
     ret {| json :=
              {| Json.success := true;
                 Json.text := Some extractedText;
                 Json.statistics := None;
                 Json.languages := None;
                 Json.mimeType := None;
                 Json.error := None;
                 Json.stack := None;
                 Json.timestamp := None |} |})
    (fun error =>
       message <- get_message env error ;;
       ret {| json :=
                {| Json.success := false;
                   Json.text := None;
                   Json.statistics := None;
                   Json.languages := None;
                   Json.mimeType := None;
                   Json.error := Some message;
                   Json.stack := None;
                   Json.timestamp := None |} |}).

End Nodes.

(** * The vocabulary of the properties *)

(** ** Traces *)

(** Events of the logging sinks: console lines and clock reads. *)
Definition silent (e : event) : bool :=
  match e with
  | EConsoleLog _ | ENow => true
  | _ => false
  end.

(** A predicate on events that no logging event satisfies. *)
Definition ignores_logging (p : event -> bool) : Prop :=
  forall e, silent e = true -> p e = false.

(** A class of events that holds the logging events. *)
Definition admits_logging (Q : event -> bool) : Prop :=
  forall e, silent e = true -> Q e = true.

(** No delay has been taken since the newest job submission. *)
Fixpoint no_trailing_delay (tr : trace) : bool :=
  match tr with
  | [] => true
  | EAddJob _ :: _ => true
  | EDelay _ :: _ => false
  | _ :: tr' => no_trailing_delay tr'
  end.

(** The image of the newest job submission. *)
Fixpoint last_job (tr : trace) : option buffer :=
  match tr with
  | [] => None
  | EAddJob img :: _ => Some img
  | _ :: tr' => last_job tr'
  end.

(** The events of [performAdvancedOCR] before its [try] statement:
    preprocessing, the scheduler, the workers, and log lines. *)
Definition setup_event (e : event) : bool :=
  match e with
  | EConsoleLog _ | ENow | ESharp _ _ | ECreateScheduler
  | ECreateWorker _ _ | EAddWorker _ => true
  | _ => false
  end.

(** The events of the [try] block: submissions, delays and log lines. *)
Definition job_event (e : event) : bool :=
  match e with
  | EConsoleLog _ | ENow | EAddJob _ | EDelay _ => true
  | _ => false
  end.

(** The events of the [finally] block: [terminate] calls and log lines. *)
Definition cleanup_event (e : event) : bool :=
  match e with
  | EConsoleLog _ | ENow | ETerminate _ _ => true
  | _ => false
  end.

(** Events that are neither a job submission nor a delay. *)
Definition not_job (e : event) : bool := negb (is_add_job e || is_delay e).

(** The event a [terminate] call on [w] leaves. *)
Definition terminate_event (env : Env) (w : worker) : event :=
  ETerminate w (match terminate_answer env w with
                | None => true
                | Some _ => false
                end).

(** ** Answers of the environment *)

(** How an awaited answer completes. *)
Definition outcome_of {A} (r : result A) : outcome A :=
  match r with
  | Resolved a => Return a
  | Rejected v => Throw v
  end.

(** The answer is a rejection whose value satisfies [P]. *)
Definition rejects_with {A} (P : value -> bool) (r : result A) : bool :=
  match r with
  | Rejected v => P v
  | Resolved _ => false
  end.

(** Neither [undefined] nor [null]. *)
Definition not_nullish (v : value) : bool := negb (nullish v).

(** The class of all values. *)
Definition any_value (v : value) : bool := true.

(** The postcondition that asks nothing. *)
Definition anything {A} (a : A) : Prop := True.

(** Every rejection the environment answers with is of the class [P]. *)
Record answers_within (P : value -> bool) (env : Env) : Prop := {
  within_input : forall v, input_first env = Rejected v -> P v = true;
  within_sharp : forall b ops v,
    sharp_toBuffer env b ops = Rejected v -> P v = true;
  within_createWorker : forall k lang v,
    createWorker_answer env k lang = Some v -> P v = true;
  within_addJob : forall k b v,
    addJob_answer env k b = Rejected v -> P v = true;
  within_recognize : forall w b v,
    recognize_answer env w b = Rejected v -> P v = true;
  within_terminate : forall w v,
    terminate_answer env w = Some v -> P v = true
}.

(** Every [createWorker] call starts its worker. *)
Definition starts_every_worker (env : Env) : Prop :=
  forall k lang, createWorker_answer env k lang = None.

(** Every [terminate] call resolves. *)
Definition terminates_every_worker (env : Env) : Prop :=
  forall w, terminate_answer env w = None.

(** The workers that [createWorker] calls of rank [k], [k+1], ... make for
    the languages, in order. *)
Fixpoint workers_from (k : nat) (languages : list string) : list worker :=
  match languages with
  | [] => []
  | lang :: rest => {| wid := k; wlang := lang |} :: workers_from (S k) rest
  end.

(** What the preprocessing step of [performAdvancedOCR] hands on. *)
Definition processedImage_of (env : Env) (imageBuffer : buffer)
    (options : Options.t) : result buffer :=
  if default true (Options.preprocessing options)
  then sharp_toBuffer env imageBuffer
         (preprocess_ops
            (default PreprocessOptions.empty
               (Options.preprocessingOptions options)))
  else Resolved imageBuffer.

(** ** Behaviour of a computation *)

(** [emits Q m]: whatever [m] does, it only adds events of the class [Q]
    to the trace. *)
Definition emits (Q : event -> bool) {A} (m : M A) : Prop :=
  forall tr, exists evs, snd (m tr) = evs ++ tr /\ forallb Q evs = true.

(** [completes P R m]: [m] returns a result in [R], or throws a value of
    the class [P]; it does not run out of fuel. *)
Definition completes (P : value -> bool) {A} (R : A -> Prop) (m : M A) : Prop :=
  forall tr,
    match fst (m tr) with
    | Return a => R a
    | Throw v => P v = true
    | OutOfFuel => False
    end.

(** [returns R m]: whenever [m] returns, its result is in [R]. *)
Definition returns {A} (R : A -> Prop) (m : M A) : Prop :=
  forall tr a tr', m tr = (Return a, tr') -> R a.

(** The error variable of the retry loop holds [null] or a value of the
    class [P]. *)
Definition error_within (P : value -> bool) (vars : loop_vars) : Prop :=
  truthy (error vars) = true -> P (error vars) = true.

(** ** Records and statistics *)


(** The number of newline code units of a text. *)
Definition newline_count (t : text) : nat := count_occ N.eq_dec t newline.

(** The number of tokens of a text: the maximal runs of code units that
    are not white space.  A token starts at each such unit that stands
    first or follows white space; [after_space] tells which. *)
Fixpoint token_count_from (after_space : bool) (t : text) : nat :=
  match t with
  | [] => 0
  | c :: t' =>
      if is_space c then token_count_from true t'
      else ((if after_space then 1 else 0) + token_count_from false t')%nat
  end.

Definition token_count (t : text) : nat := token_count_from true t.

(** [l] is empty. *)
Definition is_nil {A} (l : list A) : bool :=
  match l with [] => true | _ => false end.

(** The statistics of a record are those of its text. *)
Definition exact_statistics (j : Json.t) : Prop :=
  exists t s,
    Json.text j = Some t
    /\ Json.statistics j = Some s
    /\ Stats.textLength s = List.length t
    /\ Stats.lineCount s = S (newline_count t)
    /\ Stats.wordCount s = token_count t.

(** ** Sample environments *)

Module Samples.

(** The text "HELLO". *)
Definition hello : text := [72; 69; 76; 76; 79]%N.

Definition png_item : Item.t :=
  {| Item.binary :=
       Some {| Binary.data := Some "aGVsbG8=";
               Binary.mimeType := Some "image/png" |} |}.

(** An environment, from the answers of the engine and of sharp. *)
Definition make (sharp : buffer -> list sharp_op -> result buffer)
    (create : nat -> string -> option value)
    (job : nat -> buffer -> result text)
    (recog : worker -> buffer -> result text)
    (term : worker -> option value) : Env :=
  {| input_first := Resolved (Some png_item);
     buffer_from_base64 := fun _ => [];
     sharp_toBuffer := sharp;
     createWorker_answer := create;
     addJob_answer := job;
     recognize_answer := recog;
     terminate_answer := term;
     terminate_settles := fun w => wid w;
     clock := fun _ => "2024-01-01T00:00:00.000Z";
     capture_stack := fun _ => "" |}.

(** Everything succeeds; the engine reads "HELLO". *)
Definition calm : Env :=
  make (fun b _ => Resolved b) (fun _ _ => None)
    (fun _ _ => Resolved hello) (fun _ _ => Resolved hello) (fun _ => None).

(** Every job is rejected with the error "timeout". *)
Definition always_timeout : Env :=
  make (fun b _ => Resolved b) (fun _ _ => None)
    (fun _ _ => Rejected (VError "timeout" ""))
    (fun _ _ => Rejected (VError "timeout" "")) (fun _ => None).

(** The first job is rejected, the second reads "HELLO". *)
Definition fails_once : Env :=
  make (fun b _ => Resolved b) (fun _ _ => None)
    (fun k _ => if (k =? 0)%nat then Rejected (VError "busy" "")
                else Resolved hello)
    (fun _ _ => Resolved hello) (fun _ => None).

(** The second worker does not start. *)
Definition second_worker_fails : Env :=
  make (fun b _ => Resolved b)
    (fun k _ => if (k =? 1)%nat then Some (VError "no language data" "")
                else None)
    (fun _ _ => Resolved hello) (fun _ _ => Resolved hello) (fun _ => None).

(** sharp rejects the image. *)
Definition bad_image : Env :=
  make (fun _ _ => Rejected (VError "unsupported image format" ""))
    (fun _ _ => None)
    (fun _ _ => Resolved hello) (fun _ _ => Resolved hello) (fun _ => None).

(** No worker terminates. *)
Definition stuck_workers : Env :=
  make (fun b _ => Resolved b) (fun _ _ => None)
    (fun _ _ => Resolved hello) (fun _ _ => Resolved hello)
    (fun _ => Some (VError "worker is busy" "")).

(** The text of two lines, "HI YOU" and "OK". *)
Definition two_lines : text := [72; 73; 32; 89; 79; 85; 10; 79; 75]%N.

(** Everything succeeds; the engine reads [two_lines]. *)
Definition reads_two_lines : Env :=
  make (fun b _ => Resolved b) (fun _ _ => None)
    (fun _ _ => Resolved two_lines) (fun _ _ => Resolved two_lines)
    (fun _ => None).

(** What the advanced node returns in [reads_two_lines]. *)
Definition two_lines_output : node_output :=
  {| json :=
       {| Json.success := true;
          Json.text := Some two_lines;
          Json.statistics :=
            Some {| Stats.textLength := 9;
                    Stats.lineCount := 2;
                    Stats.wordCount := 3;
                    Stats.timestamp := "2024-01-01T00:00:00.000Z" |};
          Json.languages := Some ["eng"];
          Json.mimeType := Some (Some "image/png");
          Json.error := None;
          Json.stack := None;
          Json.timestamp := None |} |}.

(** Options with the given languages and retry bound, the rest left to
    their defaults. *)
Definition options (languages : list string) (retries : Z) : Options.t :=
  {| Options.languages := Some languages;
     Options.preprocessing := None;
     Options.preprocessingOptions := None;
     Options.logger := None;
     Options.retries := Some retries |}.

End Samples.

(** ** Further vocabulary: texts and pipelines *)

(** [pieces.join(sep)] for a separator of one code unit. *)
Fixpoint join_unit (sep : N) (pieces : list text) : text :=
  match pieces with
  | [] => []
  | p :: rest =>
      match rest with
      | [] => p
      | _ :: _ => p ++ sep :: join_unit sep rest
      end
  end.

(** No code unit of the text is white space. *)
Definition spaceless (t : text) : bool := forallb (fun c => negb (is_space c)) t.

(** Every code unit of the text is white space. *)
Definition blank (t : text) : bool := forallb is_space t.

(** The words of a text, as the advanced node counts them:
    [text.split(/\s+/).filter((w) => w.length > 0)]. *)
Definition words_of (extractedText : text) : list text :=
  List.filter (fun w => (0 <? List.length w)%nat)
    (split_spaces false [] extractedText).

(** The place of an operation in a sharp pipeline built by
    [preprocessImage]. *)
Definition stage (op : sharp_op) : nat :=
  match op with
  | Grayscale => 0
  | Normalize => 1
  | Threshold _ => 2
  | Resize _ _ => 3
  | Sharpen => 4
  | Modulate _ _ => 5
  | Median _ => 6
  end.

(** ** Further vocabulary: the phases of a run *)

(** The events of the preprocessing step: the sharp call and log lines. *)
Definition pre_event (e : event) : bool :=
  match e with
  | EConsoleLog _ | ENow | ESharp _ _ => true
  | _ => false
  end.

(** The events of the start of the pool: the scheduler, the workers and
    log lines. *)
Definition pool_event (e : event) : bool :=
  match e with
  | EConsoleLog _ | ENow | ECreateScheduler | ECreateWorker _ _
  | EAddWorker _ => true
  | _ => false
  end.

(** An event of the retry loop over the image [p]: a submission of [p], a
    delay of one second, or a log line. *)
Definition job_of (p : buffer) (e : event) : Prop :=
  match e with
  | EAddJob img => img = p
  | EDelay ms => ms = 1000
  | EConsoleLog _ | ENow => True
  | _ => False
  end.

(** [leaves Q m]: whatever [m] does, every event it adds to the trace is
    in [Q]. *)
Definition leaves (Q : event -> Prop) {A} (m : M A) : Prop :=
  forall tr, exists evs, snd (m tr) = evs ++ tr /\ Forall Q evs.

(** ** Further vocabulary: the advanced node *)

(** The pipeline the advanced node asks of sharp, by MIME type: JPEG
    images are sharpened and get more contrast, PNG images are not
    sharpened, and every image is made gray, normalized and freed of
    noise. *)
Definition node_pipeline (mimeType : option string) : list sharp_op :=
  if opt_includes mimeType "image/jpeg" || opt_includes mimeType "image/jpg"
  then [Grayscale; Normalize; Sharpen; Modulate 1 (12 # 10); Median 3]
  else if opt_includes mimeType "image/png"
  then [Grayscale; Normalize; Median 3]
  else [Grayscale; Normalize; Sharpen; Median 3].

(** Events of a node around its OCR call: reading the input, the clock
    and the console. *)
Definition node_event (e : event) : bool :=
  match e with
  | EConsoleLog _ | ENow | EInputFirst => true
  | _ => false
  end.

(** ** Further sample environments *)

Module MoreSamples.

(** No worker starts. *)
Definition no_worker : Env :=
  Samples.make (fun b _ => Resolved b)
    (fun _ _ => Some (VError "no language data" ""))
    (fun _ _ => Resolved Samples.hello) (fun _ _ => Resolved Samples.hello)
    (fun _ => None).

(** An input item whose binary part has an empty [data]. *)
Definition empty_item : Item.t :=
  {| Item.binary :=
       Some {| Binary.data := Some ""; Binary.mimeType := Some "image/png" |} |}.

(** Everything succeeds, but the input item carries no data. *)
Definition no_input : Env :=
  {| input_first := Resolved (Some empty_item);
     buffer_from_base64 := fun _ => [];
     sharp_toBuffer := fun b _ => Resolved b;
     createWorker_answer := fun _ _ => None;
     addJob_answer := fun _ _ => Resolved Samples.hello;
     recognize_answer := fun _ _ => Resolved Samples.hello;
     terminate_answer := fun _ => None;
     terminate_settles := fun w => wid w;
     clock := fun _ => "2024-01-01T00:00:00.000Z";
     capture_stack := fun _ => "" |}.

End MoreSamples.

(** ** Further vocabulary: log lines *)

(** The line the retry loop logs for a failed attempt:
    [`OCR attempt ${attempts} failed: ${err.message}`]. *)
Definition failure_line (attempt : Z) (message : string) : string :=
  "OCR attempt " ++ string_of_Z attempt ++ " failed: " ++ message.

(** The event is a console line that ends with [line]: the line as a
    logger prints it, after the logger's own prefix. *)
Definition shows (line : string) (e : event) : Prop :=
  exists prefix, e = EConsoleLog (prefix ++ line).

(** ** Further vocabulary: jobs that fail *)

(** Among the answers of rank [rank], [rank + 1], ... to a job on [img],
    the number of leading ones, [n] at most, that reject with an error
    value.  An answer that resolves, or that rejects with [undefined] or
    [null], ends the count. *)
Fixpoint leading_errors (env : Env) (img : buffer) (rank n : nat) : nat :=
  match n with
  | O => O
  | S n' =>
      if rejects_with not_nullish (addJob_answer env rank img)
      then S (leading_errors env img (S rank) n')
      else O
  end.

(** The workers of the pool of [performAdvancedOCR], when it is the first
    to create workers. *)
Definition pool_of (options : Options.t) : list worker :=
  workers_from 0 (default ["eng"] (Options.languages options)).

(** ** Further vocabulary: what a node reports *)










(** ** Further sample environments: rejections *)

Module Rejections.

(** The first job is rejected with "busy", the later ones with
    "timeout". *)
Definition busy_then_timeout : Env :=
  Samples.make (fun b _ => Resolved b) (fun _ _ => None)
    (fun k _ => if (k =? 0)%nat then Rejected (VError "busy" "")
                else Rejected (VError "timeout" ""))
    (fun _ _ => Resolved Samples.hello) (fun _ => None).

(** Every job is rejected with [undefined]. *)
Definition rejects_undefined : Env :=
  Samples.make (fun b _ => Resolved b) (fun _ _ => None)
    (fun _ _ => Rejected VUndefined)
    (fun _ _ => Resolved Samples.hello) (fun _ => None).

(** Every job is rejected with the empty string. *)
Definition rejects_empty_string : Env :=
  Samples.make (fun b _ => Resolved b) (fun _ _ => None)
    (fun _ _ => Rejected (VStr ""))
    (fun _ _ => Resolved Samples.hello) (fun _ => None).

(** Every job is rejected with "timeout", and no worker terminates. *)
Definition timeout_and_stuck : Env :=
  Samples.make (fun b _ => Resolved b) (fun _ _ => None)
    (fun _ _ => Rejected (VError "timeout" ""))
    (fun _ _ => Resolved Samples.hello)
    (fun _ => Some (VError "worker is busy" "")).



(** The scheduler reads "HELLO", but [recognize] on a worker is rejected
    with the error "timeout". *)
Definition blind_worker : Env :=
  Samples.make (fun b _ => Resolved b) (fun _ _ => None)
    (fun _ _ => Resolved Samples.hello)
    (fun _ _ => Rejected (VError "timeout" "")) (fun _ => None).

End Rejections.

(** * Lemmas on the embedding *)

(** ** Traces *)

Lemma count_cons (p : event -> bool) (e : event) (tr : trace) :
  count p (e :: tr) = ((if p e then 1 else 0) + count p tr)%nat.
Proof. unfold count; simpl; destruct (p e); reflexivity. Qed.

Lemma count_app (p : event -> bool) (evs tr : trace) :
  count p (evs ++ tr) = (count p evs + count p tr)%nat.
Proof. unfold count; rewrite filter_app, length_app; reflexivity. Qed.

Lemma count_silent (p : event -> bool) (evs : trace) :
  ignores_logging p -> forallb silent evs = true -> count p evs = 0%nat.
Proof.
  intros Hp; induction evs as [|e evs IH]; simpl; intros H; [reflexivity|].
  apply andb_prop in H as [He Hevs].
  rewrite count_cons, (Hp e He), IH by assumption; reflexivity.
Qed.

Lemma count_silent_app (p : event -> bool) (evs tr : trace) :
  ignores_logging p -> forallb silent evs = true ->
  count p (evs ++ tr) = count p tr.
Proof.
  intros Hp Hs; rewrite count_app, (count_silent p evs Hp Hs); reflexivity.
Qed.

Lemma ignores_add_job : ignores_logging is_add_job.
Proof. intros [] H; simpl in *; congruence. Qed.
Lemma ignores_delay : ignores_logging is_delay.
Proof. intros [] H; simpl in *; congruence. Qed.
Lemma ignores_create_worker : ignores_logging is_create_worker.
Proof. intros [] H; simpl in *; congruence. Qed.
Lemma ignores_sharp : ignores_logging is_sharp.
Proof. intros [] H; simpl in *; congruence. Qed.
Lemma ignores_terminated (w : worker) : ignores_logging (is_terminated w).
Proof. intros [] H; simpl in *; congruence. Qed.
Lemma ignores_terminate_of (w : worker) : ignores_logging (is_terminate_of w).
Proof. intros [] H; simpl in *; congruence. Qed.

Create HintDb traces.
#[local] Hint Resolve ignores_add_job ignores_delay ignores_create_worker
  ignores_sharp ignores_terminated ignores_terminate_of : traces.

Lemma created_workers_silent_app (evs tr : trace) :
  forallb silent evs = true ->
  created_workers (evs ++ tr) = created_workers tr.
Proof.
  induction evs as [|e evs IH]; simpl; intros H; [reflexivity|].
  apply andb_prop in H as [He Hevs].
  destruct e; simpl in He; try discriminate; auto.
Qed.

Lemma no_trailing_delay_silent_app (evs tr : trace) :
  forallb silent evs = true ->
  no_trailing_delay (evs ++ tr) = no_trailing_delay tr.
Proof.
  induction evs as [|e evs IH]; simpl; intros H; [reflexivity|].
  apply andb_prop in H as [He Hevs].
  destruct e; simpl in He; try discriminate; auto.
Qed.

Lemma last_job_silent_app (evs tr : trace) :
  forallb silent evs = true ->
  last_job (evs ++ tr) = last_job tr.
Proof.
  induction evs as [|e evs IH]; simpl; intros H; [reflexivity|].
  apply andb_prop in H as [He Hevs].
  destruct e; simpl in He; try discriminate; auto.
Qed.

Lemma worker_eqb_refl (w : worker) : worker_eqb w w = true.
Proof.
  unfold worker_eqb; rewrite Nat.eqb_refl, String.eqb_refl; reflexivity.
Qed.

(** ** The monad *)

Lemma bind_return {A B} (m : M A) (k : A -> M B) (tr tr' : trace) (a : A) :
  m tr = (Return a, tr') -> bind m k tr = k a tr'.
Proof. unfold bind; intros ->; reflexivity. Qed.

Lemma bind_throw {A B} (m : M A) (k : A -> M B) (tr tr' : trace) (v : value) :
  m tr = (Throw v, tr') -> bind m k tr = (Throw v, tr').
Proof. unfold bind; intros ->; reflexivity. Qed.

Lemma try_catch_return {A} (body : M A) (h : value -> M A) (tr tr' : trace)
    (a : A) :
  body tr = (Return a, tr') -> try_catch body h tr = (Return a, tr').
Proof. unfold try_catch; intros ->; reflexivity. Qed.

Lemma try_catch_throw {A} (body : M A) (h : value -> M A) (tr tr' : trace)
    (v : value) :
  body tr = (Throw v, tr') -> try_catch body h tr = h v tr'.
Proof. unfold try_catch; intros ->; reflexivity. Qed.

Lemma await_run {A} (r : result A) (tr : trace) :
  await r tr = (outcome_of r, tr).
Proof. destruct r; reflexivity. Qed.

Section Logging.

Variable env : Env.

(** A logger returns, and leaves nothing but logging events. *)
Lemma log_run (lg : logger_t) (line : string) (tr : trace) :
  exists evs,
    log env lg line tr = (Return tt, evs ++ tr) /\ forallb silent evs = true.
Proof.
  destruct lg.
  - exists [EConsoleLog line]; split; reflexivity.
  - eexists [EConsoleLog _; ENow]; split; reflexivity.
Qed.

Lemma bind_log {A} (lg : logger_t) (line : string) (k : unit -> M A)
    (tr : trace) :
  exists evs,
    bind (log env lg line) k tr = k tt (evs ++ tr)
    /\ forallb silent evs = true.
Proof.
  destruct (log_run lg line tr) as (evs & E & Hs).
  exists evs; split; [|exact Hs].
  apply bind_return; exact E.
Qed.

End Logging.

(** ** The retry loop *)

Section RetryLoop.

Variable env : Env.
Variable lg : logger_t.
Variable retries : Z.
Variable img : buffer.

(** A submission that resolves ends the loop's turn with [break]. *)
Lemma addJob_run (tr : trace) :
  addJob env img tr
  = (outcome_of (addJob_answer env (count is_add_job tr) img),
     EAddJob img :: tr).
Proof.
  unfold addJob, bind, get_trace, emit; rewrite await_run; reflexivity.
Qed.

(** A submission that resolves ends the loop's turn with [break]. *)
Lemma attempt_resolved (vars : loop_vars) (tr : trace) (t : text) :
  addJob_answer env (count is_add_job tr) img = Resolved t ->
  attempt env lg retries img vars tr
  = (Return (true, {| attempts := attempts vars; error := VNull; text_ := t |}),
     EAddJob img :: tr).
Proof.
  intros H; unfold attempt.
  apply try_catch_return.
  erewrite bind_return by (rewrite addJob_run, H; reflexivity).
  reflexivity.
Qed.

(** A submission that rejects is counted, logged and, unless it was the
    last one allowed, followed by the delay. *)
Lemma attempt_rejected (vars : loop_vars) (tr : trace) (v : value) :
  addJob_answer env (count is_add_job tr) img = Rejected v ->
  not_nullish v = true ->
  exists evs,
    attempt env lg retries img vars tr
    = (Return (false, {| attempts := attempts vars + 1; error := v;
                         text_ := text_ vars |}),
       (if attempts vars + 1 <? retries then [EDelay 1000] else [])
       ++ evs ++ EAddJob img :: tr)
    /\ forallb silent evs = true.
Proof.
  intros H Hv.
  assert (Hm : exists m, forall tr0, get_message env v tr0 = (Return m, tr0)).
  { destruct v; simpl in Hv; try discriminate; eexists; intros; reflexivity. }
  destruct Hm as [m Hm].
  destruct (log_run env lg
              ("OCR attempt " ++ string_of_Z (attempts vars + 1)
                 ++ " failed: " ++ to_string m)
              (EAddJob img :: tr)) as (evs & E & Hs).
  exists evs; split; [|exact Hs].
  unfold attempt.
  erewrite try_catch_throw
    by (apply bind_throw; rewrite addJob_run, H; reflexivity).
  erewrite bind_return by apply Hm.
  erewrite bind_return by exact E.
  destruct (attempts vars + 1 <? retries); reflexivity.
Qed.

(** A submission that rejects with [undefined] or [null] makes the
    [catch] block itself throw, on reading [err.message]. *)
Lemma attempt_rejected_nullish (vars : loop_vars) (tr : trace) (v : value) :
  addJob_answer env (count is_add_job tr) img = Rejected v ->
  not_nullish v = false ->
  exists e,
    attempt env lg retries img vars tr = (Throw e, EAddJob img :: tr)
    /\ is_error_object e = true.
Proof.
  intros H Hv; unfold attempt.
  erewrite try_catch_throw
    by (apply bind_throw; rewrite addJob_run, H; reflexivity).
  destruct v; simpl in Hv; try discriminate;
    eexists; (split; [apply bind_throw; reflexivity | reflexivity]).
Qed.

(** With enough fuel the loop never runs dry, whatever the engine
    answers. *)
Lemma retry_loop_fuel (fuel : nat) :
  forall (vars : loop_vars) (tr : trace),
    (Z.to_nat (retries - attempts vars) <= fuel)%nat ->
    fst (retry_loop env fuel lg retries img vars tr) <> OutOfFuel.
Proof.
  induction fuel as [|fuel IH]; intros vars tr Hfuel; simpl.
  - destruct (Z.ltb_spec (attempts vars) retries); [lia|]; discriminate.
  - destruct (Z.ltb_spec (attempts vars) retries); [|discriminate].
    unfold bind at 1.
    destruct (addJob_answer env (count is_add_job tr) img) as [t|v] eqn:Ea.
    + rewrite (attempt_resolved vars tr t Ea); discriminate.
    + destruct (not_nullish v) eqn:Hv.
      * destruct (attempt_rejected vars tr v Ea Hv) as (evs & E & _).
        rewrite E; apply IH; simpl; lia.
      * destruct (attempt_rejected_nullish vars tr v Ea Hv) as (e & E & _).
        rewrite E; discriminate.
Qed.

(** When every submission rejects, the loop stops at the bound. *)
Lemma retry_loop_exhausts (n : nat) :
  forall (fuel : nat) (vars : loop_vars) (tr : trace),
    (forall k, (count is_add_job tr <= k < count is_add_job tr + n)%nat ->
               rejects_with not_nullish (addJob_answer env k img) = true) ->
    (0 < n)%nat ->
    n = Z.to_nat (retries - attempts vars) ->
    (n <= fuel)%nat ->
    exists v tr',
      retry_loop env fuel lg retries img vars tr
      = (Return {| attempts := retries; error := v; text_ := text_ vars |}, tr')
      /\ addJob_answer env (count is_add_job tr + n - 1) img = Rejected v
      /\ count is_add_job tr' = (count is_add_job tr + n)%nat
      /\ count is_delay tr' = (count is_delay tr + (n - 1))%nat
      /\ no_trailing_delay tr' = true
      /\ last_job tr' = Some img.
Proof.
  induction n as [|n IH]; intros fuel vars tr Hrej Hpos Hn Hfuel; [lia|].
  destruct fuel as [|fuel]; [lia|].
  simpl.
  destruct (Z.ltb_spec (attempts vars) retries) as [Hlt|Hge]; [|lia].
  assert (Hk : rejects_with not_nullish
                 (addJob_answer env (count is_add_job tr) img) = true)
    by (apply Hrej; lia).
  destruct (addJob_answer env (count is_add_job tr) img) as [t|v] eqn:Ea;
    simpl in Hk; [discriminate|].
  destruct (attempt_rejected vars tr v Ea Hk) as (evs & E & Hs).
  unfold bind at 1; rewrite E.
  destruct n as [|n].
  - (* the last attempt allowed *)
    assert (Hlast : attempts vars + 1 = retries) by lia.
    destruct (Z.ltb_spec (attempts vars + 1) retries) as [?|_]; [lia|].
    destruct fuel; simpl;
      (destruct (Z.ltb_spec (attempts vars + 1) retries) as [?|_]; [lia|]);
      rewrite Hlast;
      exists v, (evs ++ EAddJob img :: tr);
      (repeat split;
       [ rewrite <- Ea; f_equal; lia
       | rewrite count_silent_app, count_cons by auto with traces; simpl; lia
       | rewrite count_silent_app, count_cons by auto with traces; simpl; lia
       | rewrite no_trailing_delay_silent_app by assumption; reflexivity
       | rewrite last_job_silent_app by assumption; reflexivity ]).
  - destruct (Z.ltb_spec (attempts vars + 1) retries) as [_|?]; [|lia].
    set (vars' := {| attempts := attempts vars + 1; error := v;
                     text_ := text_ vars |}).
    assert (Hc : count is_add_job ([EDelay 1000] ++ evs ++ EAddJob img :: tr)
                 = S (count is_add_job tr)).
    { simpl; rewrite count_cons, count_silent_app, count_cons
        by auto with traces; reflexivity. }
    destruct (IH fuel vars' ([EDelay 1000] ++ evs ++ EAddJob img :: tr))
      as (v' & tr' & Eloop & Hans & Hjobs & Hdelays & Htrail & Hlast);
      [ intros k Hk'; apply Hrej; lia | lia | subst vars'; simpl; lia | lia | ].
    exists v', tr'.
    assert (Hd : count is_delay ([EDelay 1000] ++ evs ++ EAddJob img :: tr)
                 = S (count is_delay tr)).
    { simpl; rewrite count_cons, count_silent_app, count_cons
        by auto with traces; reflexivity. }
    repeat split.
    + exact Eloop.
    + rewrite <- Hans; f_equal; lia.
    + lia.
    + lia.
    + exact Htrail.
    + exact Hlast.
Qed.

End RetryLoop.

(** ** What a computation may emit *)

Section Emits.

Variable Q : event -> bool.

Lemma emits_ret {A} (a : A) : emits Q (ret a).
Proof. intros tr; exists []; split; reflexivity. Qed.

Lemma emits_throw {A} (v : value) : emits Q (@throw A v).
Proof. intros tr; exists []; split; reflexivity. Qed.

Lemma emits_out_of_fuel {A} : emits Q (@out_of_fuel A).
Proof. intros tr; exists []; split; reflexivity. Qed.

Lemma emits_get_trace : emits Q get_trace.
Proof. intros tr; exists []; split; reflexivity. Qed.

Lemma emits_await {A} (r : result A) : emits Q (await r).
Proof. intros tr; exists []; rewrite await_run; split; reflexivity. Qed.

Lemma emits_emit (e : event) : Q e = true -> emits Q (emit e).
Proof.
  intros He tr; exists [e]; split; [reflexivity|].
  simpl; rewrite He; reflexivity.
Qed.

Lemma emits_bind {A B} (m : M A) (k : A -> M B) :
  emits Q m -> (forall a, emits Q (k a)) -> emits Q (bind m k).
Proof.
  intros Hm Hk tr; unfold bind.
  destruct (Hm tr) as (evs & E & Hq).
  destruct (m tr) as [[a|v|] tr1]; simpl in E; subst tr1.
  - destruct (Hk a (evs ++ tr)) as (evs' & E' & Hq').
    exists (evs' ++ evs); rewrite E', app_assoc, forallb_app, Hq, Hq'.
    split; reflexivity.
  - exists evs; split; [reflexivity | exact Hq].
  - exists evs; split; [reflexivity | exact Hq].
Qed.

Lemma emits_try_catch {A} (body : M A) (h : value -> M A) :
  emits Q body -> (forall v, emits Q (h v)) -> emits Q (try_catch body h).
Proof.
  intros Hm Hk tr; unfold try_catch.
  destruct (Hm tr) as (evs & E & Hq).
  destruct (body tr) as [[a|v|] tr1]; simpl in E; subst tr1.
  - exists evs; split; [reflexivity | exact Hq].
  - destruct (Hk v (evs ++ tr)) as (evs' & E' & Hq').
    exists (evs' ++ evs); rewrite E', app_assoc, forallb_app, Hq, Hq'.
    split; reflexivity.
  - exists evs; split; [reflexivity | exact Hq].
Qed.

Lemma emits_try_finally {A} (body : M A) (cleanup : M unit) :
  emits Q body -> emits Q cleanup -> emits Q (try_finally body cleanup).
Proof.
  intros Hm Hc tr; unfold try_finally.
  destruct (Hm tr) as (evs & E & Hq).
  destruct (body tr) as [[a|v|] tr1]; simpl in E; subst tr1;
    try (exists evs; split; [reflexivity | exact Hq]);
    destruct (Hc (evs ++ tr)) as (evs' & E' & Hq');
    exists (evs' ++ evs); rewrite <- app_assoc, <- E', forallb_app, Hq, Hq';
    (split; [|reflexivity]);
    destruct (cleanup (evs ++ tr)) as [[[]|w|] tr2]; reflexivity.
Qed.

Lemma emits_weaken {A} (Q' : event -> bool) (m : M A) :
  (forall e, Q' e = true -> Q e = true) -> emits Q' m -> emits Q m.
Proof.
  intros Hsub Hm tr; destruct (Hm tr) as (evs & E & Hq).
  exists evs; split; [exact E|].
  rewrite forallb_forall in *; auto.
Qed.

End Emits.

Lemma setup_admits_logging : admits_logging setup_event.
Proof. intros [] H; simpl in *; congruence. Qed.
Lemma job_admits_logging : admits_logging job_event.
Proof. intros [] H; simpl in *; congruence. Qed.
Lemma cleanup_admits_logging : admits_logging cleanup_event.
Proof. intros [] H; simpl in *; congruence. Qed.

#[local] Hint Resolve setup_admits_logging job_admits_logging
  cleanup_admits_logging : traces.

(** Events of a class [Q] that [p] never holds of do not change the count
    of [p]. *)
Lemma count_outside (p Q : event -> bool) (evs tr : trace) :
  (forall e, Q e = true -> p e = false) ->
  forallb Q evs = true ->
  count p (evs ++ tr) = count p tr.
Proof.
  intros Hpq Hq; rewrite count_app.
  replace (count p evs) with 0%nat; [reflexivity|].
  induction evs as [|e evs IH]; [reflexivity|].
  simpl in Hq; apply andb_prop in Hq as [He Hevs].
  rewrite count_cons, (Hpq e He), <- IH by assumption; reflexivity.
Qed.

Lemma created_workers_outside (Q : event -> bool) (evs tr : trace) :
  (forall e, Q e = true -> is_create_worker e = false) ->
  forallb Q evs = true ->
  created_workers (evs ++ tr) = created_workers tr.
Proof.
  intros Hq; induction evs as [|e evs IH]; simpl; intros H; [reflexivity|].
  apply andb_prop in H as [He Hevs].
  specialize (Hq e He).
  destruct e; simpl in Hq; try discriminate; auto.
Qed.

Section Phases.

Variable env : Env.

Lemma emits_log (Q : event -> bool) (lg : logger_t) (line : string) :
  admits_logging Q -> emits Q (log env lg line).
Proof.
  intros HQ tr; destruct (log_run env lg line tr) as (evs & E & Hs).
  exists evs; rewrite E; split; [reflexivity|].
  rewrite forallb_forall in *; auto.
Qed.

Lemma emits_get_message (Q : event -> bool) (v : value) :
  emits Q (get_message env v).
Proof. destruct v; first [apply emits_throw | apply emits_ret]. Qed.

Lemma emits_get_stack (Q : event -> bool) (v : value) :
  emits Q (get_stack env v).
Proof. destruct v; first [apply emits_throw | apply emits_ret]. Qed.

(** Applies the rules of [emits] along the structure of a script. *)
Ltac emits_step :=
  first
    [ apply emits_ret | apply emits_throw | apply emits_out_of_fuel
    | apply emits_get_trace | apply emits_await
    | apply emits_get_message | apply emits_get_stack
    | apply emits_log; solve [auto with traces]
    | apply emits_emit; reflexivity
    | apply emits_bind; [|intros]
    | apply emits_try_catch; [|intros]
    | apply emits_try_finally
    | match goal with
      | |- emits _ (if ?b then _ else _) => destruct b
      | |- emits _ (match ?x with _ => _ end) => destruct x
      | |- emits _ (let '(_, _) := ?x in _) => destruct x
      end ].

Lemma emits_preprocessImage (img : buffer) (o : PreprocessOptions.t) :
  emits setup_event (preprocessImage env img o).
Proof. unfold preprocessImage; repeat emits_step. Qed.

Lemma emits_createWorker (lang : string) :
  emits setup_event (createWorker env lang).
Proof. unfold createWorker; repeat emits_step. Qed.

Lemma emits_init_workers (lg : logger_t) (languages : list string) :
  forall workers, emits setup_event (init_workers env lg languages workers).
Proof.
  induction languages as [|lang rest IH]; intros workers; simpl.
  - apply emits_ret.
  - repeat first [apply emits_createWorker | apply IH | emits_step].
Qed.

Lemma emits_attempt (lg : logger_t) (retries : Z) (img : buffer)
    (vars : loop_vars) :
  emits job_event (attempt env lg retries img vars).
Proof. unfold attempt, addJob, delay; repeat emits_step. Qed.

Lemma emits_retry_loop (fuel : nat) (lg : logger_t) (retries : Z)
    (img : buffer) :
  forall vars, emits job_event (retry_loop env fuel lg retries img vars).
Proof.
  induction fuel as [|fuel IH]; intros vars; simpl.
  - repeat emits_step.
  - destruct (attempts vars <? retries); [|apply emits_ret].
    apply emits_bind; [apply emits_attempt|].
    intros [[] vars']; [apply emits_ret | apply IH].
Qed.

Lemma emits_recognize_with_retries (fuel : nat) (lg : logger_t) (retries : Z)
    (img : buffer) :
  emits job_event (recognize_with_retries env fuel lg retries img).
Proof.
  unfold recognize_with_retries;
    repeat first [apply emits_retry_loop | emits_step].
Qed.

Lemma emits_terminate_each (ws : list worker) :
  emits cleanup_event (terminate_each env ws).
Proof.
  induction ws as [|w ws IH]; simpl.
  - apply emits_ret.
  - unfold terminate_call; repeat first [apply IH | emits_step].
Qed.

Lemma emits_terminate_workers (lg : logger_t) (ws : list worker) :
  emits cleanup_event (terminate_workers env lg ws).
Proof.
  unfold terminate_workers, terminate_all;
    repeat first [apply emits_terminate_each | emits_step].
Qed.

End Phases.

(** ** How a computation may complete *)

Section Completes.

Variable P : value -> bool.

Lemma completes_ret {A} (R : A -> Prop) (a : A) : R a -> completes P R (ret a).
Proof. intros H tr; exact H. Qed.

Lemma completes_throw {A} (R : A -> Prop) (v : value) :
  P v = true -> completes P R (throw v).
Proof. intros H tr; exact H. Qed.

Lemma completes_emit (e : event) : completes P anything (emit e).
Proof. intros tr; exact I. Qed.

Lemma completes_bind {A B} (R : A -> Prop) (R' : B -> Prop) (m : M A)
    (k : A -> M B) :
  completes P R m -> (forall a, R a -> completes P R' (k a)) ->
  completes P R' (bind m k).
Proof.
  intros Hm Hk tr; unfold bind; specialize (Hm tr).
  destruct (m tr) as [[a|v|] tr1]; simpl in *; auto.
  apply Hk; exact Hm.
Qed.

Lemma completes_try_finally {A} (R : A -> Prop) (R' : unit -> Prop)
    (body : M A) (cleanup : M unit) :
  completes P R body -> completes P R' cleanup ->
  completes P R (try_finally body cleanup).
Proof.
  intros Hm Hc tr; unfold try_finally; specialize (Hm tr).
  destruct (body tr) as [[a|v|] tr1]; simpl in *; auto;
    specialize (Hc tr1);
    destruct (cleanup tr1) as [[[]|w|] tr2]; simpl in *; auto.
Qed.

End Completes.

(** ** The phases of [performAdvancedOCR], run *)

Section Run.

Variable env : Env.

Lemma createWorker_started (lang : string) (tr : trace) :
  createWorker_answer env (count is_create_worker tr) lang = None ->
  createWorker env lang tr
  = (Return {| wid := count is_create_worker tr; wlang := lang |},
     ECreateWorker lang
       (Some {| wid := count is_create_worker tr; wlang := lang |}) :: tr).
Proof.
  intros H; unfold createWorker.
  erewrite bind_return by reflexivity.
  rewrite H; reflexivity.
Qed.

Lemma init_workers_run (lg : logger_t) (languages : list string) :
  starts_every_worker env ->
  forall (workers : list worker) (tr : trace),
  exists evs,
    init_workers env lg languages workers tr
    = (Return (workers ++ workers_from (count is_create_worker tr) languages),
       evs ++ tr)
    /\ forallb setup_event evs = true
    /\ created_workers (evs ++ tr)
       = rev (workers_from (count is_create_worker tr) languages)
         ++ created_workers tr.
Proof.
  intros Hstart.
  induction languages as [|lang rest IH]; intros workers tr;
    cbn [init_workers workers_from].
  - exists []; rewrite app_nil_r; repeat split; reflexivity.
  - destruct (bind_log env lg ("Initializing worker for language: " ++ lang)
                (fun _ => w <- createWorker env lang ;;
                          emit (EAddWorker w) ;;
                          init_workers env lg rest (workers ++ [w]))
                tr) as (evs1 & E1 & Hs1).
    rewrite E1; clear E1.
    assert (Hk : count is_create_worker (evs1 ++ tr)
                 = count is_create_worker tr)
      by (apply count_silent_app; auto with traces).
    erewrite bind_return
      by (apply createWorker_started; apply Hstart).
    rewrite Hk.
    set (w := {| wid := count is_create_worker tr; wlang := lang |}).
    erewrite bind_return by reflexivity.
    destruct (IH (workers ++ [w])
                (EAddWorker w :: ECreateWorker lang (Some w) :: evs1 ++ tr))
      as (evs & E & Hs & Hc).
    assert (Hk' : count is_create_worker
                    (EAddWorker w :: ECreateWorker lang (Some w) :: evs1 ++ tr)
                  = S (count is_create_worker tr))
      by (rewrite !count_cons, Hk; reflexivity).
    rewrite Hk' in E, Hc.
    exists (evs ++ EAddWorker w :: ECreateWorker lang (Some w) :: evs1).
    rewrite <- !app_assoc in *; simpl.
    repeat split.
    + rewrite E; reflexivity.
    + rewrite forallb_app, Hs; simpl.
      rewrite forallb_forall in *; intros e He.
      apply setup_admits_logging; auto.
    + simpl in Hc; rewrite Hc; simpl.
      rewrite created_workers_silent_app by assumption.
      rewrite <- app_assoc; reflexivity.
Qed.

Lemma terminate_each_run (ws : list worker) :
  forall tr,
    terminate_each env ws tr
    = (Return tt, rev (map (terminate_event env) ws) ++ tr).
Proof.
  induction ws as [|w ws IH]; intros tr; simpl; [reflexivity|].
  erewrite bind_return by reflexivity.
  rewrite IH, <- app_assoc; reflexivity.
Qed.

Lemma first_rejection_none (ws : list worker) :
  terminates_every_worker env -> first_rejection env ws = None.
Proof.
  intros H; induction ws as [|w ws IH]; simpl; [reflexivity|].
  rewrite (H w); exact IH.
Qed.

(** The rejection [Promise.all] settles with is that of one of the
    [terminate] calls. *)
Lemma first_rejection_in (ws : list worker) (t : nat) (v : value) :
  first_rejection env ws = Some (t, v) ->
  exists w, In w ws /\ terminate_answer env w = Some v.
Proof.
  revert t v; induction ws as [|w ws IH]; simpl; intros t v H; [discriminate|].
  destruct (terminate_answer env w) as [v0|] eqn:Ew.
  - destruct (first_rejection env ws) as [[t' v']|] eqn:Er.
    + destruct (t' <? terminate_settles env w)%nat; inversion H; subst.
      * destruct (IH _ _ eq_refl) as (w' & Hin & Hw'); eauto.
      * eauto.
    + inversion H; subst; eauto.
  - destruct (IH _ _ H) as (w' & Hin & Hw'); eauto.
Qed.

Lemma first_rejection_some (ws : list worker) (w : worker) (v : value) :
  In w ws -> terminate_answer env w = Some v ->
  exists t v', first_rejection env ws = Some (t, v').
Proof.
  induction ws as [|w0 ws IH]; simpl; intros Hin Hw; [contradiction|].
  destruct Hin as [->|Hin].
  - rewrite Hw.
    destruct (first_rejection env ws) as [[t' v']|]; [|eauto].
    destruct (t' <? terminate_settles env w)%nat; eauto.
  - destruct (IH Hin Hw) as (t & v' & E); rewrite E.
    destruct (terminate_answer env w0); [|eauto].
    destruct (t <? terminate_settles env w0)%nat; eauto.
Qed.

(** The [finally] block when every termination resolves. *)
Lemma terminate_workers_resolved (lg : logger_t) (ws : list worker)
    (tr : trace) :
  first_rejection env ws = None ->
  exists evs1 evs2,
    terminate_workers env lg ws tr
    = (Return tt,
       evs2 ++ rev (map (terminate_event env) ws) ++ evs1 ++ tr)
    /\ forallb silent evs1 = true /\ forallb silent evs2 = true.
Proof.
  intros Hnone; unfold terminate_workers, terminate_all.
  destruct (bind_log env lg "Terminating workers..."
              (fun _ =>
                 (terminate_each env ws ;;
                  match first_rejection env ws with
                  | Some (_, v) => throw v
                  | None => ret tt
                  end) ;;
                 log env lg "All workers terminated") tr)
    as (evs1 & E1 & Hs1).
  rewrite E1, Hnone; clear E1.
  erewrite bind_return
    by (erewrite bind_return by apply terminate_each_run; reflexivity).
  destruct (log_run env lg "All workers terminated"
              (rev (map (terminate_event env) ws) ++ evs1 ++ tr))
    as (evs2 & E2 & Hs2).
  exists evs1, evs2; rewrite E2; auto.
Qed.

(** The [finally] block when a termination rejects: the rejection leaves
    the block, after the last [terminate] call and before any further
    log line. *)
Lemma terminate_workers_rejected (lg : logger_t) (ws : list worker)
    (tr : trace) (t : nat) (v : value) :
  first_rejection env ws = Some (t, v) ->
  exists evs1,
    terminate_workers env lg ws tr
    = (Throw v, rev (map (terminate_event env) ws) ++ evs1 ++ tr)
    /\ forallb silent evs1 = true.
Proof.
  intros Hsome; unfold terminate_workers, terminate_all.
  destruct (bind_log env lg "Terminating workers..."
              (fun _ =>
                 (terminate_each env ws ;;
                  match first_rejection env ws with
                  | Some (_, v) => throw v
                  | None => ret tt
                  end) ;;
                 log env lg "All workers terminated") tr)
    as (evs1 & E1 & Hs1).
  rewrite E1, Hsome; clear E1.
  exists evs1; split; [|exact Hs1].
  apply bind_throw.
  erewrite bind_return by apply terminate_each_run; reflexivity.
Qed.

(** [performAdvancedOCR] up to its [try] statement, when preprocessing
    resolves and every worker starts. *)
Lemma performAdvancedOCR_started (fuel : nat) (imageBuffer : buffer)
    (options : Options.t) (tr : trace) (processedImage : buffer) :
  starts_every_worker env ->
  processedImage_of env imageBuffer options = Resolved processedImage ->
  let languages := default ["eng"] (Options.languages options) in
  let logger := default console_log (Options.logger options) in
  let retries := default 1 (Options.retries options) in
  let workers := workers_from (count is_create_worker tr) languages in
  exists evs,
    performAdvancedOCR env fuel imageBuffer options tr
    = try_finally
        (recognize_with_retries env fuel logger retries processedImage)
        (terminate_workers env logger workers)
        (evs ++ tr)
    /\ forallb setup_event evs = true
    /\ created_workers (evs ++ tr) = rev workers ++ created_workers tr.
Proof.
  intros Hstart Hpre languages logger retries workers.
  unfold performAdvancedOCR, processedImage_of in *.
  fold languages logger retries.
  set (ppo := default PreprocessOptions.empty
                (Options.preprocessingOptions options)) in *.
  assert (Hfirst : exists evs0,
    (if default true (Options.preprocessing options)
     then log env logger "Preprocessing image for better OCR results..." ;;
          p <- preprocessImage env imageBuffer ppo ;;
          log env logger "Preprocessing complete." ;;
          ret p
     else ret imageBuffer) tr = (Return processedImage, evs0 ++ tr)
    /\ forallb setup_event evs0 = true
    /\ count is_create_worker (evs0 ++ tr) = count is_create_worker tr
    /\ created_workers (evs0 ++ tr) = created_workers tr).
  { destruct (default true (Options.preprocessing options)).
    - destruct (bind_log env logger
                  "Preprocessing image for better OCR results..."
                  (fun _ => p <- preprocessImage env imageBuffer ppo ;;
                            log env logger "Preprocessing complete." ;;
                            ret p) tr) as (e1 & E1 & H1).
      rewrite E1; clear E1.
      erewrite bind_return
        by (unfold preprocessImage;
            erewrite bind_return by reflexivity;
            rewrite await_run, Hpre; reflexivity).
      destruct (bind_log env logger "Preprocessing complete."
                  (fun _ => ret processedImage)
                  (ESharp imageBuffer (preprocess_ops ppo) :: e1 ++ tr))
        as (e2 & E2 & H2).
      rewrite E2; clear E2.
      exists (e2 ++ ESharp imageBuffer (preprocess_ops ppo) :: e1).
      rewrite <- app_assoc; simpl.
      repeat split.
      + rewrite forallb_app; simpl.
        rewrite forallb_forall in *.
        apply andb_true_intro; split;
          apply forallb_forall; intros e He;
          apply setup_admits_logging; auto.
      + rewrite count_silent_app, count_cons, count_silent_app
          by auto with traces; reflexivity.
      + rewrite created_workers_silent_app by assumption; simpl.
        apply created_workers_silent_app; assumption.
    - inversion Hpre; subst.
      exists []; repeat split; reflexivity. }
  destruct Hfirst as (evs0 & E0 & Hs0 & Hk0 & Hc0).
  erewrite bind_return by exact E0.
  erewrite bind_return by reflexivity.
  destruct (init_workers_run logger languages Hstart []
              (ECreateScheduler :: evs0 ++ tr)) as (evs1 & E1 & Hs1 & Hc1).
  assert (Hk : count is_create_worker (ECreateScheduler :: evs0 ++ tr)
               = count is_create_worker tr)
    by (rewrite count_cons, Hk0; reflexivity).
  rewrite Hk in E1, Hc1; simpl app in E1.
  erewrite bind_return by exact E1.
  exists (evs1 ++ ECreateScheduler :: evs0).
  rewrite <- app_assoc; simpl.
  repeat split.
  - rewrite forallb_app, Hs1; simpl; exact Hs0.
  - simpl in Hc1; rewrite Hc1; simpl; rewrite Hc0; reflexivity.
Qed.

End Run.

(** ** Completion of the scripts *)

Lemma answers_within_any (env : Env) : answers_within any_value env.
Proof. split; intros; reflexivity. Qed.

Section Completion.

Variable env : Env.
Variable P : value -> bool.
Hypothesis Hruntime : forall message stack, P (VError message stack) = true.
Hypothesis Henv : answers_within P env.

Lemma completes_log (lg : logger_t) (line : string) :
  completes P anything (log env lg line).
Proof.
  intros tr; destruct (log_run env lg line tr) as (evs & E & _).
  rewrite E; exact I.
Qed.

Lemma completes_createWorker (lang : string) :
  completes P anything (createWorker env lang).
Proof.
  intros tr; unfold createWorker.
  erewrite bind_return by reflexivity.
  destruct (createWorker_answer env (count is_create_worker tr) lang)
    as [v|] eqn:E; simpl; [|exact I].
  eapply within_createWorker; eauto.
Qed.

Lemma completes_terminate_workers (lg : logger_t) (ws : list worker) :
  completes P anything (terminate_workers env lg ws).
Proof.
  intros tr.
  destruct (first_rejection env ws) as [[t v]|] eqn:E.
  - destruct (terminate_workers_rejected env lg ws tr t v E) as (evs & R & _).
    rewrite R; simpl.
    destruct (first_rejection_in env ws t v E) as (w & _ & Hw).
    eapply within_terminate; eauto.
  - destruct (terminate_workers_resolved env lg ws tr E) as (e1 & e2 & R & _).
    rewrite R; exact I.
Qed.

Lemma completes_preprocessImage (img : buffer) (o : PreprocessOptions.t) :
  completes P anything (preprocessImage env img o).
Proof.
  intros tr; unfold preprocessImage.
  erewrite bind_return by reflexivity.
  rewrite await_run; simpl.
  destruct (sharp_toBuffer env img (preprocess_ops o)) as [b|v] eqn:E;
    simpl; [exact I|].
  eapply within_sharp; eauto.
Qed.

Lemma completes_init_workers (lg : logger_t) (languages : list string) :
  forall workers,
    completes P anything (init_workers env lg languages workers).
Proof.
  induction languages as [|lang rest IH]; intros workers;
    cbn [init_workers].
  - apply completes_ret; exact I.
  - eapply completes_bind; [apply completes_log|]; intros _ _.
    eapply completes_bind; [apply completes_createWorker|]; intros w _.
    eapply completes_bind; [apply completes_emit|]; intros _ _.
    apply IH.
Qed.

Lemma completes_retry_loop (lg : logger_t) (retries : Z) (img : buffer)
    (fuel : nat) :
  forall vars,
    (Z.to_nat (retries - attempts vars) <= fuel)%nat ->
    error_within P vars ->
    completes P (error_within P) (retry_loop env fuel lg retries img vars).
Proof.
  induction fuel as [|fuel IH]; intros vars Hfuel Hvars tr; simpl.
  - destruct (Z.ltb_spec (attempts vars) retries); [lia | exact Hvars].
  - destruct (Z.ltb_spec (attempts vars) retries); [|exact Hvars].
    unfold bind at 1.
    destruct (addJob_answer env (count is_add_job tr) img) as [t|v] eqn:Ea.
    + rewrite (attempt_resolved env lg retries img vars tr t Ea); simpl.
      unfold error_within; simpl; discriminate.
    + destruct (not_nullish v) eqn:Hv.
      * destruct (attempt_rejected env lg retries img vars tr v Ea Hv)
          as (evs & E & _).
        rewrite E; apply IH; [simpl; lia|].
        intros _; simpl; eapply within_addJob; eauto.
      * destruct (attempt_rejected_nullish env lg retries img vars tr v Ea Hv)
          as (e & E & He).
        rewrite E; simpl.
        destruct e; simpl in He; try discriminate; apply Hruntime.
Qed.

Lemma completes_recognize_with_retries (fuel : nat) (lg : logger_t)
    (retries : Z) (img : buffer) :
  (Z.to_nat retries <= fuel)%nat ->
  completes P anything (recognize_with_retries env fuel lg retries img).
Proof.
  intros Hfuel; unfold recognize_with_retries.
  eapply completes_bind; [apply completes_log|]; intros _ _.
  eapply completes_bind.
  - apply completes_retry_loop; [simpl; lia|].
    unfold error_within; simpl; discriminate.
  - intros vars Hvars; simpl.
    eapply completes_bind with (R := anything).
    + destruct (truthy (error vars)) eqn:Ht.
      * apply completes_throw; apply Hvars; exact Ht.
      * apply completes_ret; exact I.
    + intros _ _.
      eapply completes_bind; [apply completes_log|]; intros _ _.
      apply completes_ret; exact I.
Qed.

Lemma completes_performAdvancedOCR (fuel : nat) (imageBuffer : buffer)
    (options : Options.t) :
  (Z.to_nat (default 1%Z (Options.retries options)) <= fuel)%nat ->
  completes P anything (performAdvancedOCR env fuel imageBuffer options).
Proof.
  intros Hfuel; unfold performAdvancedOCR.
  eapply completes_bind with (R := anything).
  - destruct (default true (Options.preprocessing options)).
    + eapply completes_bind; [apply completes_log|]; intros _ _.
      eapply completes_bind; [apply completes_preprocessImage|]; intros p _.
      eapply completes_bind; [apply completes_log|]; intros _ _.
      apply completes_ret; exact I.
    + apply completes_ret; exact I.
  - intros processedImage _.
    eapply completes_bind; [apply completes_emit|]; intros _ _.
    eapply completes_bind; [apply completes_init_workers|]; intros workers _.
    eapply completes_try_finally.
    + apply completes_recognize_with_retries; exact Hfuel.
    + apply completes_terminate_workers.
Qed.

End Completion.

(** ** The [try] block, run *)

Lemma no_trailing_delay_outside (Q : event -> bool) (evs tr : trace) :
  (forall e, Q e = true -> is_add_job e = false /\ is_delay e = false) ->
  forallb Q evs = true ->
  no_trailing_delay (evs ++ tr) = no_trailing_delay tr.
Proof.
  intros HQ; induction evs as [|e evs IH]; simpl; intros H; [reflexivity|].
  apply andb_prop in H as [He Hevs].
  destruct (HQ e He) as [Hj Hd].
  destruct e; simpl in Hj, Hd; try discriminate; auto.
Qed.

Lemma last_job_outside (Q : event -> bool) (evs tr : trace) :
  (forall e, Q e = true -> is_add_job e = false) ->
  forallb Q evs = true ->
  last_job (evs ++ tr) = last_job tr.
Proof.
  intros HQ; induction evs as [|e evs IH]; simpl; intros H; [reflexivity|].
  apply andb_prop in H as [He Hevs].
  specialize (HQ e He).
  destruct e; simpl in HQ; try discriminate; auto.
Qed.

Lemma setup_not_job (e : event) :
  setup_event e = true -> is_add_job e = false /\ is_delay e = false.
Proof. destruct e; simpl; intros H; try discriminate; split; reflexivity. Qed.

Lemma cleanup_not_job (e : event) :
  cleanup_event e = true -> is_add_job e = false /\ is_delay e = false.
Proof. destruct e; simpl; intros H; try discriminate; split; reflexivity. Qed.

Lemma cleanup_not_create (e : event) :
  cleanup_event e = true -> is_create_worker e = false.
Proof. destruct e; simpl; intros H; try discriminate; reflexivity. Qed.

Lemma job_not_create (e : event) :
  job_event e = true -> is_create_worker e = false.
Proof. destruct e; simpl; intros H; try discriminate; reflexivity. Qed.

Section TryBlock.

Variable env : Env.
Variable lg : logger_t.
Variable retries : Z.
Variable img : buffer.

(** The first submission resolves: one job, no delay, its text. *)
Lemma recognize_with_retries_first (fuel : nat) (tr : trace) (t : text) :
  1 <= retries ->
  (1 <= fuel)%nat ->
  addJob_answer env (count is_add_job tr) img = Resolved t ->
  exists evs1 evs2,
    recognize_with_retries env fuel lg retries img tr
    = (Return t, evs2 ++ EAddJob img :: evs1 ++ tr)
    /\ forallb silent evs1 = true /\ forallb silent evs2 = true.
Proof.
  intros Hretries Hfuel Hans; unfold recognize_with_retries.
  destruct (bind_log env lg "Starting OCR process..."
              (fun _ =>
                 vars <- retry_loop env fuel lg retries img
                           {| attempts := 0; error := VNull; text_ := [] |} ;;
                 (if truthy (error vars) then throw (error vars) else ret tt) ;;
                 log env lg "OCR process completed successfully" ;;
                 ret (text_ vars)) tr) as (evs1 & E1 & Hs1).
  rewrite E1; clear E1.
  destruct fuel as [|fuel]; [lia|].
  assert (Eloop : retry_loop env (S fuel) lg retries img
                    {| attempts := 0; error := VNull; text_ := [] |}
                    (evs1 ++ tr)
                  = (Return {| attempts := 0; error := VNull; text_ := t |},
                     EAddJob img :: evs1 ++ tr)).
  { cbn [retry_loop attempts].
    destruct (Z.ltb_spec 0 retries); [|lia].
    erewrite bind_return
      by (apply attempt_resolved;
          rewrite count_silent_app by auto with traces; exact Hans).
    reflexivity. }
  erewrite bind_return by exact Eloop.
  cbn [error truthy text_].
  erewrite bind_return by reflexivity.
  destruct (bind_log env lg "OCR process completed successfully"
              (fun _ => ret t) (EAddJob img :: evs1 ++ tr))
    as (evs2 & E2 & Hs2).
  rewrite E2.
  exists evs1, evs2; auto.
Qed.

(** Every submission rejects: the bound is reached, and the error of the
    last submission is thrown when it is truthy. *)
Lemma recognize_with_retries_exhausted (fuel : nat) (tr : trace) :
  1 <= retries ->
  (Z.to_nat retries <= fuel)%nat ->
  (forall k, (count is_add_job tr <= k
              < count is_add_job tr + Z.to_nat retries)%nat ->
             rejects_with not_nullish (addJob_answer env k img) = true) ->
  exists v tr',
    recognize_with_retries env fuel lg retries img tr
    = ((if truthy v then Throw v else Return []), tr')
    /\ addJob_answer env (count is_add_job tr + Z.to_nat retries - 1) img
       = Rejected v
    /\ count is_add_job tr' = (count is_add_job tr + Z.to_nat retries)%nat
    /\ count is_delay tr' = (count is_delay tr + (Z.to_nat retries - 1))%nat
    /\ no_trailing_delay tr' = true
    /\ last_job tr' = Some img.
Proof.
  intros Hretries Hfuel Hrej; unfold recognize_with_retries.
  destruct (bind_log env lg "Starting OCR process..."
              (fun _ =>
                 vars <- retry_loop env fuel lg retries img
                           {| attempts := 0; error := VNull; text_ := [] |} ;;
                 (if truthy (error vars) then throw (error vars) else ret tt) ;;
                 log env lg "OCR process completed successfully" ;;
                 ret (text_ vars)) tr) as (evs1 & E1 & Hs1).
  rewrite E1; clear E1.
  destruct (retry_loop_exhausts env lg retries img (Z.to_nat retries) fuel
              {| attempts := 0; error := VNull; text_ := [] |}
              (evs1 ++ tr))
    as (v & tr' & Eloop & Hans & Hjobs & Hdelays & Htrail & Hlast);
    [ rewrite count_silent_app by auto with traces; exact Hrej
    | lia | simpl; f_equal; lia | exact Hfuel |].
  rewrite count_silent_app in Hans, Hjobs by auto with traces.
  rewrite count_silent_app in Hdelays by auto with traces.
  erewrite bind_return by exact Eloop.
  cbn [error text_].
  destruct (truthy v) eqn:Ht.
  - exists v, tr'; rewrite Ht.
    split; [apply bind_throw; reflexivity | auto].
  - erewrite bind_return by reflexivity.
    destruct (bind_log env lg "OCR process completed successfully"
                (fun _ => ret (@nil N)) tr') as (evs2 & E2 & Hs2).
    exists v, (evs2 ++ tr'); rewrite Ht.
    split; [exact E2|].
    rewrite !count_silent_app by auto with traces.
    rewrite no_trailing_delay_silent_app, last_job_silent_app by assumption.
    auto.
Qed.

(** A bound of zero or less: the loop body never runs. *)
Lemma recognize_with_retries_no_attempt (fuel : nat) (tr : trace) :
  retries <= 0 ->
  exists evs,
    recognize_with_retries env fuel lg retries img tr = (Return [], evs ++ tr)
    /\ forallb silent evs = true.
Proof.
  intros Hretries; unfold recognize_with_retries.
  destruct (bind_log env lg "Starting OCR process..."
              (fun _ =>
                 vars <- retry_loop env fuel lg retries img
                           {| attempts := 0; error := VNull; text_ := [] |} ;;
                 (if truthy (error vars) then throw (error vars) else ret tt) ;;
                 log env lg "OCR process completed successfully" ;;
                 ret (text_ vars)) tr) as (evs1 & E1 & Hs1).
  rewrite E1; clear E1.
  assert (Eloop : retry_loop env fuel lg retries img
                    {| attempts := 0; error := VNull; text_ := [] |}
                    (evs1 ++ tr)
                  = (Return {| attempts := 0; error := VNull; text_ := [] |},
                     evs1 ++ tr)).
  { destruct fuel; cbn [retry_loop attempts];
      (destruct (Z.ltb_spec 0 retries); [lia | reflexivity]). }
  erewrite bind_return by exact Eloop.
  cbn [error truthy text_].
  erewrite bind_return by reflexivity.
  destruct (bind_log env lg "OCR process completed successfully"
              (fun _ => @ret text []) (evs1 ++ tr)) as (evs2 & E2 & Hs2).
  exists (evs2 ++ evs1); rewrite E2, <- app_assoc.
  split; [reflexivity|].
  rewrite forallb_app, Hs1, Hs2; reflexivity.
Qed.

End TryBlock.

(** ** [try ... finally], composed *)

Lemma try_finally_resolved {A} (body : M A) (cleanup : M unit)
    (tr tr1 tr2 : trace) (r : outcome A) :
  body tr = (r, tr1) -> r <> OutOfFuel -> cleanup tr1 = (Return tt, tr2) ->
  try_finally body cleanup tr = (r, tr2).
Proof.
  intros Hb Hr Hc; unfold try_finally; rewrite Hb.
  destruct r; try congruence; rewrite Hc; reflexivity.
Qed.

Lemma try_finally_rejected {A} (body : M A) (cleanup : M unit)
    (tr tr1 tr2 : trace) (r : outcome A) (v : value) :
  body tr = (r, tr1) -> r <> OutOfFuel -> cleanup tr1 = (Throw v, tr2) ->
  try_finally body cleanup tr = (Throw v, tr2).
Proof.
  intros Hb Hr Hc; unfold try_finally; rewrite Hb.
  destruct r; try congruence; rewrite Hc; reflexivity.
Qed.

(** The [try] statement of [performAdvancedOCR]: once the [try] block has
    completed, the outcome is its own unless the [finally] block throws,
    and the [finally] block adds cleanup events only. *)
Lemma try_statement_run (env : Env) (lg : logger_t) (ws : list worker)
    {A} (body : M A) (tr tr1 : trace) (r : outcome A) :
  body tr = (r, tr1) -> r <> OutOfFuel ->
  exists out evs,
    try_finally body (terminate_workers env lg ws) tr = (out, evs ++ tr1)
    /\ forallb cleanup_event evs = true
    /\ out <> OutOfFuel
    /\ (first_rejection env ws = None -> out = r).
Proof.
  intros Hb Hr.
  destruct (emits_terminate_workers env lg ws tr1) as (evs & E & Hq).
  pose proof (completes_terminate_workers env any_value
                (answers_within_any env) lg ws tr1) as Hc.
  destruct (terminate_workers env lg ws tr1) as [[[]|v|] tr2] eqn:Ec;
    simpl in E, Hc; subst tr2; try contradiction.
  - exists r, evs.
    rewrite (try_finally_resolved _ _ _ _ _ _ Hb Hr Ec); auto.
  - exists (Throw v), evs.
    rewrite (try_finally_rejected _ _ _ _ _ _ _ Hb Hr Ec).
    repeat split; [exact Hq | discriminate |].
    intros Hnone.
    destruct (terminate_workers_resolved env lg ws tr1 Hnone)
      as (e1 & e2 & R & _).
    congruence.
Qed.

(** ** Jobs that fail *)

Lemma leading_errors_spec (env : Env) (img : buffer) (n : nat) :
  forall rank,
    (leading_errors env img rank n <= n)%nat
    /\ (forall i, (i < leading_errors env img rank n)%nat ->
                  rejects_with not_nullish (addJob_answer env (rank + i) img)
                  = true)
    /\ ((leading_errors env img rank n < n)%nat ->
        rejects_with not_nullish
          (addJob_answer env (rank + leading_errors env img rank n) img)
        = false).
Proof.
  induction n as [|n IH]; intros rank; cbn [leading_errors].
  - split; [lia|]; split; [intros i Hi; lia | lia].
  - destruct (rejects_with not_nullish (addJob_answer env rank img)) eqn:E.
    + destruct (IH (S rank)) as (Hle & Hlt & Hstop).
      split; [|split].
      * lia.
      * intros [|i] Hi; [rewrite Nat.add_0_r; exact E|].
        replace (rank + S i)%nat with (S rank + i)%nat by lia.
        apply Hlt; lia.
      * intros Hj.
        replace (rank + S (leading_errors env img (S rank) n))%nat
          with (S rank + leading_errors env img (S rank) n)%nat by lia.
        apply Hstop; lia.
    + split; [lia|]; split;
        [intros i Hi; lia | intros _; rewrite Nat.add_0_r; exact E].
Qed.

Lemma leading_errors_all (env : Env) (img : buffer) (n : nat) :
  forall rank,
    (forall i, (i < n)%nat ->
               rejects_with not_nullish (addJob_answer env (rank + i) img)
               = true) ->
    leading_errors env img rank n = n.
Proof.
  induction n as [|n IH]; intros rank H; cbn [leading_errors]; [reflexivity|].
  pose proof (H 0%nat ltac:(lia)) as H0; rewrite Nat.add_0_r in H0.
  rewrite H0, IH; [reflexivity|].
  intros i Hi.
  replace (S rank + i)%nat with (rank + S i)%nat by lia.
  apply H; lia.
Qed.

(** After [k] rejections with error values, a rejection with [undefined]
    or [null] ends the loop: the [catch] block throws. *)
Lemma retry_loop_stops_on_nullish (env : Env) (lg : logger_t) (retries : Z)
    (p : buffer) (k : nat) :
  forall (fuel : nat) (vars : loop_vars) (tr : trace) (v : value),
    attempts vars + Z.of_nat k < retries ->
    (S k <= fuel)%nat ->
    (forall i, (i < k)%nat ->
               rejects_with not_nullish
                 (addJob_answer env (count is_add_job tr + i) p) = true) ->
    addJob_answer env (count is_add_job tr + k) p = Rejected v ->
    not_nullish v = false ->
    exists e tr',
      retry_loop env fuel lg retries p vars tr = (Throw e, tr')
      /\ is_error_object e = true
      /\ count is_add_job tr' = (count is_add_job tr + S k)%nat
      /\ count is_delay tr' = (count is_delay tr + k)%nat
      /\ no_trailing_delay tr' = true.
Proof.
  induction k as [|k IH]; intros fuel vars tr v Hlt Hfuel Hrej Hbad Hv;
    (destruct fuel as [|fuel]; [lia|]); cbn [retry_loop];
    (destruct (Z.ltb_spec (attempts vars) retries); [|lia]).
  - rewrite Nat.add_0_r in Hbad.
    destruct (attempt_rejected_nullish env lg retries p vars tr v Hbad Hv)
      as (e & E & He).
    erewrite bind_throw by exact E.
    exists e, (EAddJob p :: tr); rewrite !count_cons; simpl.
    repeat split; [exact He | lia | lia].
  - assert (H0 : rejects_with not_nullish
                   (addJob_answer env (count is_add_job tr) p) = true)
      by (rewrite <- (Nat.add_0_r (count is_add_job tr)); apply Hrej; lia).
    destruct (addJob_answer env (count is_add_job tr) p) as [t0|v0] eqn:Ea;
      simpl in H0; [discriminate|].
    destruct (attempt_rejected env lg retries p vars tr v0 Ea H0)
      as (evs & E & Hs).
    erewrite bind_return by exact E.
    destruct (Z.ltb_spec (attempts vars + 1) retries); [|lia].
    cbv beta iota.
    set (tr1 := [EDelay 1000] ++ evs ++ EAddJob p :: tr).
    assert (Hc : count is_add_job tr1 = S (count is_add_job tr)).
    { unfold tr1; simpl; rewrite count_cons, count_silent_app, count_cons
        by auto with traces; reflexivity. }
    assert (Hd : count is_delay tr1 = S (count is_delay tr)).
    { unfold tr1; simpl; rewrite count_cons, count_silent_app, count_cons
        by auto with traces; reflexivity. }
    destruct (IH fuel {| attempts := attempts vars + 1; error := v0;
                         text_ := text_ vars |} tr1 v)
      as (e & tr' & E' & He & Hj' & Hd' & Htrail).
    + simpl; lia.
    + lia.
    + intros i Hi; rewrite Hc.
      replace (S (count is_add_job tr) + i)%nat
        with (count is_add_job tr + S i)%nat by lia.
      apply Hrej; lia.
    + rewrite Hc.
      replace (S (count is_add_job tr) + k)%nat
        with (count is_add_job tr + S k)%nat by lia.
      exact Hbad.
    + exact Hv.
    + exists e, tr'; rewrite E'.
      repeat split; [exact He | lia | lia | exact Htrail].
Qed.

(** The [try] block when a job rejects with [undefined] or [null] after
    [k] rejections with error values. *)
Lemma recognize_with_retries_nullish (env : Env) (lg : logger_t) (retries : Z)
    (p : buffer) (fuel : nat) (tr : trace) (k : nat) (v : value) :
  Z.of_nat k < retries ->
  (S k <= fuel)%nat ->
  (forall i, (i < k)%nat ->
             rejects_with not_nullish
               (addJob_answer env (count is_add_job tr + i) p) = true) ->
  addJob_answer env (count is_add_job tr + k) p = Rejected v ->
  not_nullish v = false ->
  exists e tr',
    recognize_with_retries env fuel lg retries p tr = (Throw e, tr')
    /\ is_error_object e = true
    /\ count is_add_job tr' = (count is_add_job tr + S k)%nat
    /\ count is_delay tr' = (count is_delay tr + k)%nat
    /\ no_trailing_delay tr' = true.
Proof.
  intros Hlt Hfuel Hrej Hbad Hv; unfold recognize_with_retries.
  destruct (bind_log env lg "Starting OCR process..."
              (fun _ =>
                 vars <- retry_loop env fuel lg retries p
                           {| attempts := 0; error := VNull; text_ := [] |} ;;
                 (if truthy (error vars) then throw (error vars) else ret tt) ;;
                 log env lg "OCR process completed successfully" ;;
                 ret (text_ vars)) tr) as (evs1 & E1 & Hs1).
  rewrite E1; clear E1.
  assert (Hc : count is_add_job (evs1 ++ tr) = count is_add_job tr)
    by (apply count_silent_app; auto with traces).
  assert (Hd : count is_delay (evs1 ++ tr) = count is_delay tr)
    by (apply count_silent_app; auto with traces).
  destruct (retry_loop_stops_on_nullish env lg retries p k fuel
              {| attempts := 0; error := VNull; text_ := [] |}
              (evs1 ++ tr) v)
    as (e & tr' & El & He & Hj & Hdl & Htrail);
    [ simpl; lia | exact Hfuel
    | intros i Hi; rewrite Hc; apply Hrej; exact Hi
    | rewrite Hc; exact Hbad | exact Hv |].
  exists e, tr'.
  split; [apply bind_throw; exact El|].
  rewrite Hc in Hj; rewrite Hd in Hdl; auto.
Qed.

(** The [try] statement of [performAdvancedOCR], with what the [finally]
    block does to the outcome: it keeps it when every [terminate] call of
    the pool resolves, and replaces it by the rejection of a [terminate]
    call when one rejects. *)
Lemma try_statement_outcome (env : Env) (lg : logger_t) (ws : list worker)
    {A} (body : M A) (tr tr1 : trace) (r : outcome A) :
  body tr = (r, tr1) -> r <> OutOfFuel ->
  exists out evs,
    try_finally body (terminate_workers env lg ws) tr = (out, evs ++ tr1)
    /\ forallb cleanup_event evs = true
    /\ out <> OutOfFuel
    /\ (first_rejection env ws = None -> out = r)
    /\ (forall w e,
          In w ws -> terminate_answer env w = Some e ->
          exists w' e',
            In w' ws /\ terminate_answer env w' = Some e' /\ out = Throw e').
Proof.
  intros Hb Hr.
  destruct (emits_terminate_workers env lg ws tr1) as (evs & E & Hq).
  destruct (first_rejection env ws) as [[t v]|] eqn:Ef.
  - destruct (terminate_workers_rejected env lg ws tr1 t v Ef)
      as (e1 & Ec & _).
    rewrite Ec in E; simpl in E.
    exists (Throw v), evs.
    rewrite (try_finally_rejected _ _ _ _ _ _ _ Hb Hr Ec), E.
    repeat split; [exact Hq | discriminate | discriminate |].
    intros w e _ _.
    destruct (first_rejection_in env ws t v Ef) as (w' & Hin & Hw').
    exists w', v; auto.
  - destruct (terminate_workers_resolved env lg ws tr1 Ef)
      as (e1 & e2 & Ec & _).
    rewrite Ec in E; simpl in E.
    exists r, evs.
    rewrite (try_finally_resolved _ _ _ _ _ _ Hb Hr Ec), E.
    repeat split; [exact Hq | exact Hr |].
    intros w e Hin Hw.
    destruct (first_rejection_some env ws w e Hin Hw) as (t & v' & Ef').
    rewrite Ef in Ef'; discriminate.
Qed.

Lemma setup_counts (evs : trace) :
  forallb setup_event evs = true ->
  count is_add_job (evs ++ []) = 0%nat /\ count is_delay (evs ++ []) = 0%nat.
Proof.
  intros Hs; split;
    (rewrite (count_outside _ setup_event); [reflexivity | | exact Hs];
     intros e He; apply setup_not_job; exact He).
Qed.

(** * Properties of the scripts *)

(** ** Preprocessing and the retry loop *)

(** C8.  When preprocessing is enabled and the preprocessing step fails,
    [performAdvancedOCR] throws that very failure; sharp has been called
    once (no retry), no worker has been created and no job has been
    submitted. *)
Theorem preprocessing_failure_propagates (env : Env) (fuel : nat)
    (imageBuffer : buffer) (options : Options.t) (v : value) :
  default true (Options.preprocessing options) = true ->
  sharp_toBuffer env imageBuffer
    (preprocess_ops
       (default PreprocessOptions.empty (Options.preprocessingOptions options)))
  = Rejected v ->
  exists tr',
    performAdvancedOCR env fuel imageBuffer options [] = (Throw v, tr')
    /\ count is_sharp tr' = 1%nat
    /\ count is_create_worker tr' = 0%nat
    /\ created_workers tr' = []
    /\ count is_add_job tr' = 0%nat.
Proof.
  intros Hon Hfail; unfold performAdvancedOCR; rewrite Hon.
  set (lg := default console_log (Options.logger options)).
  set (ppo := default PreprocessOptions.empty
                (Options.preprocessingOptions options)) in *.
  destruct (bind_log env lg "Preprocessing image for better OCR results..."
              (fun _ => p <- preprocessImage env imageBuffer ppo ;;
                        log env lg "Preprocessing complete." ;;
                        ret p) []) as (evs & E & Hs).
  exists (ESharp imageBuffer (preprocess_ops ppo) :: evs ++ []).
  split.
  - apply bind_throw; rewrite E.
    apply bind_throw; unfold preprocessImage.
    erewrite bind_return by reflexivity.
    rewrite await_run, Hfail; reflexivity.
  - rewrite !count_cons, !count_silent_app by auto with traces.
    simpl; rewrite created_workers_silent_app by assumption.
    repeat split; reflexivity.
Qed.

Lemma preprocessing_failure_propagates_witness :
  exists tr',
    performAdvancedOCR Samples.bad_image 1 [] (Samples.options ["eng"] 2) []
    = (Throw (VError "unsupported image format" ""), tr')
    /\ count is_sharp tr' = 1%nat
    /\ count is_create_worker tr' = 0%nat
    /\ created_workers tr' = []
    /\ count is_add_job tr' = 0%nat.
Proof.
  apply (preprocessing_failure_propagates Samples.bad_image 1 []
           (Samples.options ["eng"] 2)); reflexivity.
Defined.

(** C4, as the code has it.  With a bound N >= 1 and a job that fails on
    every submission, a run of [performAdvancedOCR] that reaches the retry
    loop submits the job exactly N times and takes the delay exactly N-1
    times (none when N = 1) provided every rejection is an error value,
    neither [undefined] nor [null].  A rejection with [undefined] or
    [null] makes the [catch] block throw on reading [err.message], which
    ends the loop: with [j] rejections with error values before it, the
    run makes j+1 submissions and j delays, and throws.  In every case the
    delays are one fewer than the submissions, and none follows the last
    submission. *)
Theorem exhausted_retries_count (env : Env) (fuel : nat)
    (imageBuffer : buffer) (options : Options.t) (processedImage : buffer)
    (retries : Z) :
  default 1 (Options.retries options) = retries ->
  1 <= retries ->
  (Z.to_nat retries <= fuel)%nat ->
  starts_every_worker env ->
  processedImage_of env imageBuffer options = Resolved processedImage ->
  (forall k, (k < Z.to_nat retries)%nat ->
             rejects_with any_value (addJob_answer env k processedImage)
             = true) ->
  exists out tr',
    performAdvancedOCR env fuel imageBuffer options [] = (out, tr')
    /\ out <> OutOfFuel
    /\ count is_add_job tr'
       = Nat.min (S (leading_errors env processedImage 0 (Z.to_nat retries)))
           (Z.to_nat retries)
    /\ count is_delay tr' = (count is_add_job tr' - 1)%nat
    /\ ((forall k, (k < Z.to_nat retries)%nat ->
                   rejects_with not_nullish
                     (addJob_answer env k processedImage) = true) ->
        count is_add_job tr' = Z.to_nat retries
        /\ count is_delay tr' = (Z.to_nat retries - 1)%nat)
    /\ ((leading_errors env processedImage 0 (Z.to_nat retries)
         < Z.to_nat retries)%nat ->
        exists e, out = Throw e)
    /\ (retries = 1 -> count is_delay tr' = 0%nat)
    /\ no_trailing_delay tr' = true.
Proof.
  intros Hdef Hretries Hfuel Hstart Hpre Hfail.
  destruct (performAdvancedOCR_started env fuel imageBuffer options []
              processedImage Hstart Hpre) as (evs & E & Hs & _).
  rewrite E, Hdef; clear E.
  set (lg := default console_log (Options.logger options)).
  destruct (setup_counts evs Hs) as [Hj0 Hd0].
  set (N := Z.to_nat retries) in *.
  destruct (leading_errors_spec env processedImage N 0)
    as (Hle & Hlt & Hstop).
  set (j := leading_errors env processedImage 0 N) in *.
  simpl in Hlt, Hstop.
  assert (Hbody : exists r tr1,
             recognize_with_retries env fuel lg retries processedImage
               (evs ++ []) = (r, tr1)
             /\ r <> OutOfFuel
             /\ count is_add_job tr1 = Nat.min (S j) N
             /\ count is_delay tr1 = (Nat.min (S j) N - 1)%nat
             /\ no_trailing_delay tr1 = true
             /\ ((j < N)%nat -> exists e, r = Throw e)).
  { destruct (Nat.eq_dec j N) as [Hjn|Hjn].
    - destruct (recognize_with_retries_exhausted env lg retries
                  processedImage fuel (evs ++ []) Hretries Hfuel)
        as (v & tr1 & Ebody & _ & Hjobs & Hdelays & Htrail & _).
      { intros k Hk; rewrite Hj0 in Hk; apply Hlt; fold N in Hk; lia. }
      exists (if truthy v then Throw v else Return []), tr1.
      split; [exact Ebody|].
      split; [destruct (truthy v); discriminate|].
      fold N in Hjobs, Hdelays.
      rewrite Hjobs, Hdelays, Hj0, Hd0.
      split; [lia|]; split; [lia|]; split; [exact Htrail | lia].
    - assert (Hjlt : (j < N)%nat) by lia.
      specialize (Hstop Hjlt).
      pose proof (Hfail j Hjlt) as Hrej.
      destruct (addJob_answer env j processedImage) as [t|v] eqn:Ea;
        simpl in Hrej, Hstop; [discriminate|].
      destruct (recognize_with_retries_nullish env lg retries processedImage
                  fuel (evs ++ []) j v)
        as (e & tr1 & Ebody & _ & Hjobs & Hdelays & Htrail).
      + unfold N in Hjlt; lia.
      + lia.
      + intros i Hi; rewrite Hj0; apply Hlt; exact Hi.
      + rewrite Hj0; exact Ea.
      + exact Hstop.
      + exists (Throw e), tr1.
        split; [exact Ebody|].
        split; [discriminate|].
        rewrite Hjobs, Hdelays, Hj0, Hd0.
        split; [lia|]; split; [lia|]; split; [exact Htrail | eauto]. }
  destruct Hbody as (r & tr1 & Ebody & Hr & Hjobs & Hdelays & Htrail & Hthrow).
  destruct (try_statement_outcome env lg
              (workers_from (count is_create_worker [])
                 (default ["eng"] (Options.languages options)))
              _ _ _ _ Ebody Hr)
    as (out & evs' & Etry & Hq & Hout & Hkeep & Hrepl).
  exists out, (evs' ++ tr1).
  split; [exact Etry|].
  split; [exact Hout|].
  rewrite !(count_outside _ cleanup_event evs' tr1) by
    (try exact Hq; intros e He; apply cleanup_not_job; exact He).
  rewrite (no_trailing_delay_outside cleanup_event) by
    (try exact Hq; apply cleanup_not_job).
  rewrite Hjobs, Hdelays.
  split; [reflexivity|].
  split; [reflexivity|].
  split.
  { intros Hall.
    assert (Hjn : j = N)
      by (apply leading_errors_all; intros i Hi; simpl; apply Hall; exact Hi).
    rewrite Hjn; split; lia. }
  split.
  { intros Hjlt.
    destruct (Hthrow Hjlt) as (e & ->).
    destruct (first_rejection env
                (workers_from (count is_create_worker [])
                   (default ["eng"] (Options.languages options))))
      as [[t v]|] eqn:Ef.
    - destruct (first_rejection_in env _ t v Ef) as (w & Hin & Hw).
      destruct (Hrepl w v Hin Hw) as (w' & e' & _ & _ & ->); eauto.
    - rewrite (Hkeep eq_refl); eauto. }
  split; [|exact Htrail].
  intros H1.
  assert (HN : N = 1%nat) by (unfold N; rewrite H1; reflexivity).
  lia.
Qed.

Lemma exhausted_retries_count_witness :
  exists out tr',
    performAdvancedOCR Samples.always_timeout 3 []
      (Samples.options ["eng"; "fra"] 3) [] = (out, tr')
    /\ out <> OutOfFuel
    /\ count is_add_job tr'
       = Nat.min (S (leading_errors Samples.always_timeout [] 0 (Z.to_nat 3)))
           (Z.to_nat 3)
    /\ count is_delay tr' = (count is_add_job tr' - 1)%nat
    /\ ((forall k, (k < Z.to_nat 3)%nat ->
                   rejects_with not_nullish
                     (addJob_answer Samples.always_timeout k []) = true) ->
        count is_add_job tr' = Z.to_nat 3
        /\ count is_delay tr' = (Z.to_nat 3 - 1)%nat)
    /\ ((leading_errors Samples.always_timeout [] 0 (Z.to_nat 3)
         < Z.to_nat 3)%nat ->
        exists e, out = Throw e)
    /\ (3 = 1 -> count is_delay tr' = 0%nat)
    /\ no_trailing_delay tr' = true.
Proof.
  apply (exhausted_retries_count Samples.always_timeout 3 []
           (Samples.options ["eng"; "fra"] 3) [] 3).
  - reflexivity.
  - lia.
  - simpl; lia.
  - intros k lang; reflexivity.
  - reflexivity.
  - intros k _; reflexivity.
Defined.

(** C4, as the spec states it, fails: with a bound of 3 and a job that
    rejects with [undefined] on every submission, the first failure makes
    the [catch] block throw a TypeError; [performAdvancedOCR] submits the
    job once, not three times, and takes no delay. *)
Lemma undefined_rejection_stops_retries :
  (forall k img,
      addJob_answer Rejections.rejects_undefined k img = Rejected VUndefined)
  /\ exists tr',
       performAdvancedOCR Rejections.rejects_undefined 3 []
         (Samples.options ["eng"] 3) []
       = (Throw
            (VError "Cannot read properties of undefined (reading 'message')"
               ""), tr')
       /\ count is_add_job tr' = 1%nat
       /\ count is_delay tr' = 0%nat.
Proof.
  split; [intros k img; reflexivity|].
  eexists; split; [vm_compute; reflexivity|].
  split; vm_compute; reflexivity.
Qed.

(** C5, as the code has it.  When each of the N allowed attempts fails
    with an error value (neither [undefined] nor [null]),
    [performAdvancedOCR] makes the N submissions and, the workers
    terminating, throws exactly the rejection of the last attempt (the
    submission of rank N-1) when that value is truthy, as every Error
    object is; it then returns no text.  A last rejection that is falsy
    passes the test [if (error)], and the run returns the empty text as a
    success.  When a [terminate] call of the pool rejects, that rejection
    is thrown in place of the last error. *)
Theorem exhausted_retries_throw_last_error (env : Env) (fuel : nat)
    (imageBuffer : buffer) (options : Options.t) (processedImage : buffer)
    (retries : Z) (v : value) :
  default 1 (Options.retries options) = retries ->
  1 <= retries ->
  (Z.to_nat retries <= fuel)%nat ->
  starts_every_worker env ->
  processedImage_of env imageBuffer options = Resolved processedImage ->
  (forall k, (k < Z.to_nat retries)%nat ->
             rejects_with not_nullish (addJob_answer env k processedImage)
             = true) ->
  addJob_answer env (Z.to_nat retries - 1) processedImage = Rejected v ->
  exists out tr',
    performAdvancedOCR env fuel imageBuffer options [] = (out, tr')
    /\ count is_add_job tr' = Z.to_nat retries
    /\ last_job tr' = Some processedImage
    /\ (terminates_every_worker env -> truthy v = true -> out = Throw v)
    /\ (terminates_every_worker env -> truthy v = false -> out = Return [])
    /\ (forall w e,
          In w (pool_of options) -> terminate_answer env w = Some e ->
          exists w' e',
            In w' (pool_of options)
            /\ terminate_answer env w' = Some e'
            /\ out = Throw e').
Proof.
  intros Hdef Hretries Hfuel Hstart Hpre Hrej Hlast.
  destruct (performAdvancedOCR_started env fuel imageBuffer options []
              processedImage Hstart Hpre) as (evs & E & Hs & _).
  rewrite E, Hdef; clear E.
  set (lg := default console_log (Options.logger options)).
  change (workers_from (count is_create_worker [])
            (default ["eng"] (Options.languages options)))
    with (pool_of options).
  destruct (setup_counts evs Hs) as [Hj0 _].
  destruct (recognize_with_retries_exhausted env lg retries processedImage
              fuel (evs ++ []) Hretries Hfuel)
    as (v' & tr1 & Ebody & Hans & Hjobs & _ & _ & Hjob).
  { intros k Hk; apply Hrej; lia. }
  rewrite Hj0 in Hans, Hjobs; simpl in Hans, Hjobs.
  rewrite Hlast in Hans; inversion Hans; subst v'; clear Hans.
  destruct (try_statement_outcome env lg (pool_of options) _ _ _ _ Ebody)
    as (out & evs' & Etry & Hq & _ & Hkeep & Hrepl).
  { destruct (truthy v); discriminate. }
  exists out, (evs' ++ tr1).
  split; [exact Etry|].
  rewrite (count_outside is_add_job cleanup_event evs') by
    (try exact Hq; intros e He; apply cleanup_not_job; exact He).
  rewrite (last_job_outside cleanup_event) by
    (try exact Hq; intros e He; apply cleanup_not_job; exact He).
  split; [exact Hjobs|].
  split; [exact Hjob|].
  split; [|split; [|exact Hrepl]].
  - intros Hterm Ht.
    rewrite (Hkeep (first_rejection_none env _ Hterm)), Ht; reflexivity.
  - intros Hterm Ht.
    rewrite (Hkeep (first_rejection_none env _ Hterm)), Ht; reflexivity.
Qed.

Lemma exhausted_retries_throw_last_error_witness :
  exists out tr',
    performAdvancedOCR Rejections.busy_then_timeout 2 []
      (Samples.options ["eng"; "fra"] 2) [] = (out, tr')
    /\ count is_add_job tr' = Z.to_nat 2
    /\ last_job tr' = Some []
    /\ (terminates_every_worker Rejections.busy_then_timeout ->
        truthy (VError "timeout" "") = true ->
        out = Throw (VError "timeout" ""))
    /\ (terminates_every_worker Rejections.busy_then_timeout ->
        truthy (VError "timeout" "") = false -> out = Return [])
    /\ (forall w e,
          In w (pool_of (Samples.options ["eng"; "fra"] 2)) ->
          terminate_answer Rejections.busy_then_timeout w = Some e ->
          exists w' e',
            In w' (pool_of (Samples.options ["eng"; "fra"] 2))
            /\ terminate_answer Rejections.busy_then_timeout w' = Some e'
            /\ out = Throw e').
Proof.
  apply (exhausted_retries_throw_last_error Rejections.busy_then_timeout 2 []
           (Samples.options ["eng"; "fra"] 2) [] 2 (VError "timeout" "")).
  - reflexivity.
  - lia.
  - simpl; lia.
  - intros k lang; reflexivity.
  - reflexivity.
  - intros k _; simpl; destruct (k =? 0)%nat; reflexivity.
  - reflexivity.
Defined.

(** C5, as the spec states it, fails.  Two attempts that both reject with
    the empty string end in a success with the empty text; and with two
    attempts that both reject with "timeout" and a worker that does not
    terminate, the error thrown is that of [terminate], not that of the
    last attempt. *)
Lemma exhausted_retries_without_last_error :
  (forall k img,
      addJob_answer Rejections.rejects_empty_string k img
      = Rejected (VStr ""))
  /\ (exists tr',
         performAdvancedOCR Rejections.rejects_empty_string 2 []
           (Samples.options ["eng"] 2) [] = (Return [], tr')
         /\ count is_add_job tr' = 2%nat)
  /\ (forall k img,
         addJob_answer Rejections.timeout_and_stuck k img
         = Rejected (VError "timeout" ""))
  /\ (exists tr',
         performAdvancedOCR Rejections.timeout_and_stuck 2 []
           (Samples.options ["eng"] 2) []
         = (Throw (VError "worker is busy" ""), tr')
         /\ count is_add_job tr' = 2%nat).
Proof.
  split; [intros k img; reflexivity|].
  split; [eexists; split; vm_compute; reflexivity|].
  split; [intros k img; reflexivity|].
  eexists; split; vm_compute; reflexivity.
Qed.

(** C6, as the code has it.  When the first recognition attempt succeeds,
    exactly one job is submitted and no delay is taken;
    [performAdvancedOCR] returns the text of that attempt when the workers
    terminate, and throws the rejection of a [terminate] call of the pool,
    in place of the text, when one rejects. *)
Theorem first_attempt_success (env : Env) (fuel : nat)
    (imageBuffer : buffer) (options : Options.t) (processedImage : buffer)
    (t : text) :
  1 <= default 1 (Options.retries options) ->
  (1 <= fuel)%nat ->
  starts_every_worker env ->
  processedImage_of env imageBuffer options = Resolved processedImage ->
  addJob_answer env 0 processedImage = Resolved t ->
  exists out tr',
    performAdvancedOCR env fuel imageBuffer options [] = (out, tr')
    /\ count is_add_job tr' = 1%nat
    /\ count is_delay tr' = 0%nat
    /\ (terminates_every_worker env -> out = Return t)
    /\ (forall w e,
          In w (pool_of options) -> terminate_answer env w = Some e ->
          exists w' e',
            In w' (pool_of options)
            /\ terminate_answer env w' = Some e'
            /\ out = Throw e').
Proof.
  intros Hretries Hfuel Hstart Hpre Hans.
  destruct (performAdvancedOCR_started env fuel imageBuffer options []
              processedImage Hstart Hpre) as (evs & E & Hs & _).
  rewrite E; clear E.
  set (lg := default console_log (Options.logger options)).
  change (workers_from (count is_create_worker [])
            (default ["eng"] (Options.languages options)))
    with (pool_of options).
  destruct (setup_counts evs Hs) as [Hj0 Hd0].
  destruct (recognize_with_retries_first env lg
              (default 1 (Options.retries options)) processedImage
              fuel (evs ++ []) t Hretries Hfuel)
    as (e1 & e2 & Ebody & Hs1 & Hs2).
  { rewrite Hj0; exact Hans. }
  destruct (try_statement_outcome env lg (pool_of options) _ _ _ _ Ebody)
    as (out & evs' & Etry & Hq & _ & Hkeep & Hrepl); [discriminate|].
  exists out, (evs' ++ e2 ++ EAddJob processedImage :: e1 ++ evs ++ []).
  split; [exact Etry|].
  rewrite (count_outside is_add_job cleanup_event evs'),
    (count_outside is_delay cleanup_event evs') by
    (try exact Hq; intros e He; apply cleanup_not_job; exact He).
  rewrite (count_silent_app is_add_job e2), (count_silent_app is_delay e2)
    by auto with traces.
  rewrite !count_cons.
  rewrite (count_silent_app is_add_job e1), (count_silent_app is_delay e1)
    by auto with traces.
  rewrite Hj0, Hd0.
  split; [reflexivity|].
  split; [reflexivity|].
  split; [|exact Hrepl].
  intros Hterm; apply Hkeep, first_rejection_none; exact Hterm.
Qed.

Lemma first_attempt_success_witness :
  exists out tr',
    performAdvancedOCR Samples.calm 1 [] (Samples.options ["eng"] 2) []
    = (out, tr')
    /\ count is_add_job tr' = 1%nat
    /\ count is_delay tr' = 0%nat
    /\ (terminates_every_worker Samples.calm -> out = Return Samples.hello)
    /\ (forall w e,
          In w (pool_of (Samples.options ["eng"] 2)) ->
          terminate_answer Samples.calm w = Some e ->
          exists w' e',
            In w' (pool_of (Samples.options ["eng"] 2))
            /\ terminate_answer Samples.calm w' = Some e'
            /\ out = Throw e').
Proof.
  apply (first_attempt_success Samples.calm 1 []
           (Samples.options ["eng"] 2) [] Samples.hello).
  - simpl; lia.
  - lia.
  - intros k lang; reflexivity.
  - reflexivity.
  - reflexivity.
Defined.

(** C6, as the spec states it, fails: the first attempt reads "HELLO", one
    job is submitted and no delay is taken, but the workers do not
    terminate and [performAdvancedOCR] throws the rejection of [terminate]
    instead of returning the text. *)
Lemma first_success_lost_to_cleanup :
  (forall img, addJob_answer Samples.stuck_workers 0 img
               = Resolved Samples.hello)
  /\ exists tr',
       performAdvancedOCR Samples.stuck_workers 2 []
         (Samples.options ["eng"; "fra"] 2) []
       = (Throw (VError "worker is busy" ""), tr')
       /\ count is_add_job tr' = 1%nat
       /\ count is_delay tr' = 0%nat.
Proof.
  split; [intros img; reflexivity|].
  eexists; split; [vm_compute; reflexivity|].
  split; vm_compute; reflexivity.
Qed.

Lemma emits_no_job_below_one (env : Env) (fuel : nat) (imageBuffer : buffer)
    (options : Options.t) :
  default 1 (Options.retries options) <= 0 ->
  emits not_job (performAdvancedOCR env fuel imageBuffer options).
Proof.
  intros Hretries; unfold performAdvancedOCR.
  assert (Hsetup : forall e, setup_event e = true -> not_job e = true)
    by (intros [] H; try discriminate H; reflexivity).
  assert (Hcleanup : forall e, cleanup_event e = true -> not_job e = true)
    by (intros [] H; try discriminate H; reflexivity).
  assert (Hlog : admits_logging not_job)
    by (intros [] H; try discriminate H; reflexivity).
  apply emits_bind.
  - destruct (default true (Options.preprocessing options)).
    + apply emits_bind; [apply emits_log; exact Hlog | intros _].
      apply emits_bind;
        [eapply emits_weaken; [exact Hsetup | apply emits_preprocessImage]
        | intros p].
      apply emits_bind; [apply emits_log; exact Hlog | intros _].
      apply emits_ret.
    + apply emits_ret.
  - intros processedImage.
    apply emits_bind; [apply emits_emit; reflexivity | intros _].
    apply emits_bind;
      [eapply emits_weaken; [exact Hsetup | apply emits_init_workers]
      | intros workers].
    apply emits_try_finally.
    + intros tr.
      destruct (recognize_with_retries_no_attempt env
                  (default console_log (Options.logger options))
                  (default 1 (Options.retries options)) processedImage
                  fuel tr Hretries) as (evs & E & Hs).
      exists evs; rewrite E; split; [reflexivity|].
      rewrite forallb_forall in *; intros e He; apply Hlog; auto.
    + eapply emits_weaken; [exact Hcleanup | apply emits_terminate_workers].
Qed.

(** C2, as the code has it.  With a bound of zero or less
    [performAdvancedOCR] submits no job and takes no delay, and it ends
    whatever the fuel; it raises no configuration error: when
    preprocessing, the workers' start and their termination succeed, it
    returns the empty text. *)
Theorem nonpositive_retries_submit_nothing (env : Env) (fuel : nat)
    (imageBuffer : buffer) (options : Options.t) :
  default 1 (Options.retries options) <= 0 ->
  exists out tr',
    performAdvancedOCR env fuel imageBuffer options [] = (out, tr')
    /\ count is_add_job tr' = 0%nat
    /\ count is_delay tr' = 0%nat
    /\ out <> OutOfFuel
    /\ (starts_every_worker env ->
        terminates_every_worker env ->
        (exists p, processedImage_of env imageBuffer options = Resolved p) ->
        out = Return []).
Proof.
  intros Hretries.
  destruct (emits_no_job_below_one env fuel imageBuffer options Hretries [])
    as (evs & E & Hq).
  pose proof (completes_performAdvancedOCR env any_value
                (fun _ _ => eq_refl) (answers_within_any env)
                fuel imageBuffer options) as Hc.
  specialize (Hc ltac:(lia) []).
  destruct (performAdvancedOCR env fuel imageBuffer options [])
    as [out tr'] eqn:Erun.
  simpl in E, Hc; subst tr'.
  exists out, (evs ++ []).
  split; [reflexivity|].
  assert (Hnj : forall e, not_job e = true
                          -> is_add_job e = false /\ is_delay e = false).
  { intros e He; unfold not_job in He.
    apply negb_true_iff, orb_false_iff in He; exact He. }
  rewrite !(count_outside _ not_job) by (try exact Hq; intros e He; apply Hnj; exact He).
  repeat split; try reflexivity.
  - intros ->; exact Hc.
  - intros Hstart Hterm [p Hpre].
    destruct (performAdvancedOCR_started env fuel imageBuffer options []
                p Hstart Hpre) as (evs0 & E0 & _).
    rewrite E0 in Erun; clear E0.
    destruct (recognize_with_retries_no_attempt env
                (default console_log (Options.logger options))
                (default 1 (Options.retries options)) p fuel (evs0 ++ [])
                Hretries) as (evs1 & Ebody & _).
    destruct (try_statement_run env
                (default console_log (Options.logger options))
                (workers_from (count is_create_worker [])
                   (default ["eng"] (Options.languages options)))
                _ _ _ _ Ebody) as (out' & evs' & Etry & _ & _ & Hout);
      [discriminate|].
    rewrite Etry in Erun; inversion Erun; subst.
    apply Hout, first_rejection_none; exact Hterm.
Qed.

Lemma nonpositive_retries_submit_nothing_witness :
  exists out tr',
    performAdvancedOCR Samples.calm 0 [] (Samples.options ["eng"] 0) []
    = (out, tr')
    /\ count is_add_job tr' = 0%nat
    /\ count is_delay tr' = 0%nat
    /\ out <> OutOfFuel
    /\ (starts_every_worker Samples.calm ->
        terminates_every_worker Samples.calm ->
        (exists p, processedImage_of Samples.calm []
                     (Samples.options ["eng"] 0) = Resolved p) ->
        out = Return []).
Proof.
  apply (nonpositive_retries_submit_nothing Samples.calm 0 []
           (Samples.options ["eng"] 0)).
  simpl; lia.
Defined.

(** C2, as the spec states it, fails: with a bound of zero
    [performAdvancedOCR] does not throw; it returns the empty text as a
    success. *)
Lemma zero_retries_return_empty_text :
  (exists tr',
      performAdvancedOCR Samples.calm 1 [] (Samples.options ["eng"] 0) []
      = (Return [], tr'))
  /\ ~ (exists v tr',
           performAdvancedOCR Samples.calm 1 [] (Samples.options ["eng"] 0) []
           = (Throw v, tr')).
Proof.
  split.
  - eexists; vm_compute; reflexivity.
  - intros (v & tr' & H); vm_compute in H; discriminate.
Qed.

(** ** Release of the worker pool *)

Lemma terminate_events_cleanup (env : Env) (ws : list worker) :
  forallb cleanup_event (rev (map (terminate_event env) ws)) = true.
Proof.
  apply forallb_forall; intros e He.
  apply in_rev, in_map_iff in He as (w & <- & _); reflexivity.
Qed.

Lemma filter_none {A} (f : A -> bool) (l : list A) :
  (forall x, In x l -> f x = false) -> List.filter f l = [].
Proof.
  induction l as [|x l IH]; simpl; intros H; [reflexivity|].
  rewrite (H x (or_introl eq_refl)); apply IH; auto.
Qed.

(** X15.  When every worker starts and every worker terminates, none is live
    after [performAdvancedOCR], whether it returns the text or throws the
    error of the last attempt. *)
Lemma started_pool_is_released (env : Env) (fuel : nat)
    (imageBuffer : buffer) (options : Options.t) (processedImage : buffer) :
  (Z.to_nat (default 1%Z (Options.retries options)) <= fuel)%nat ->
  starts_every_worker env ->
  terminates_every_worker env ->
  processedImage_of env imageBuffer options = Resolved processedImage ->
  exists out tr',
    performAdvancedOCR env fuel imageBuffer options [] = (out, tr')
    /\ out <> OutOfFuel
    /\ created_workers tr'
       = rev (workers_from 0 (default ["eng"] (Options.languages options)))
    /\ live_workers tr' = [].
Proof.
  intros Hfuel Hstart Hterm Hpre.
  destruct (performAdvancedOCR_started env fuel imageBuffer options []
              processedImage Hstart Hpre) as (evs & E & Hs & Hcreated).
  rewrite E; clear E.
  set (lg := default console_log (Options.logger options)) in *.
  set (retries := default 1 (Options.retries options)) in *.
  set (ws := workers_from (count is_create_worker [])
               (default ["eng"] (Options.languages options))) in *.
  destruct (emits_recognize_with_retries env fuel lg retries processedImage
              (evs ++ [])) as (evs1 & E1 & Hq1).
  pose proof (completes_recognize_with_retries env any_value
                (fun _ _ => eq_refl) (answers_within_any env)
                fuel lg retries processedImage Hfuel (evs ++ [])) as Hc.
  destruct (recognize_with_retries env fuel lg retries processedImage
              (evs ++ [])) as [r tr1] eqn:Ebody.
  simpl in E1, Hc; subst tr1.
  assert (Hr : r <> OutOfFuel) by (intros ->; exact Hc).
  destruct (terminate_workers_resolved env lg ws (evs1 ++ evs ++ [])
              (first_rejection_none env ws Hterm))
    as (e1 & e2 & Ec & Hs1 & Hs2).
  exists r, (e2 ++ rev (map (terminate_event env) ws)
               ++ e1 ++ evs1 ++ evs ++ []).
  split; [eapply try_finally_resolved; eauto|].
  split; [exact Hr|].
  assert (Hcw : created_workers
                  (e2 ++ rev (map (terminate_event env) ws)
                      ++ e1 ++ evs1 ++ evs ++ []) = rev ws).
  { rewrite created_workers_silent_app by assumption.
    rewrite (created_workers_outside cleanup_event)
      by (try apply terminate_events_cleanup; apply cleanup_not_create).
    rewrite created_workers_silent_app by assumption.
    rewrite (created_workers_outside job_event)
      by (try exact Hq1; apply job_not_create).
    rewrite Hcreated, app_nil_r; reflexivity. }
  split; [exact Hcw|].
  unfold live_workers; rewrite Hcw.
  apply filter_none; intros w Hw.
  apply negb_false_iff.
  rewrite existsb_app; apply orb_true_iff; right.
  rewrite existsb_app; apply orb_true_iff; left.
  apply existsb_exists; exists (terminate_event env w); split.
  - apply -> in_rev; apply in_map; apply in_rev; exact Hw.
  - unfold terminate_event; rewrite (Hterm w); simpl; apply worker_eqb_refl.
Qed.

(** C1 fails on the code: the loop that creates the workers stands before
    the [try] statement, so when the second [createWorker] call fails the
    [finally] block never runs and the first worker stays live. *)
Theorem failed_start_leaks_earlier_workers :
  exists tr',
    performAdvancedOCR Samples.second_worker_fails 1 []
      (Samples.options ["eng"; "fra"] 1) []
    = (Throw (VError "no language data" ""), tr')
    /\ created_workers tr' = [{| wid := 0; wlang := "eng" |}]
    /\ live_workers tr' = [{| wid := 0; wlang := "eng" |}]
    /\ count (is_terminate_of {| wid := 0; wlang := "eng" |}) tr' = 0%nat.
Proof.
  eexists; split; [vm_compute; reflexivity|].
  repeat split; vm_compute; reflexivity.
Qed.

(** C3, as the code has it.  When the [terminate] call of a worker fails
    during the cleanup of a run that reached the [try] statement,
    [terminate] has been called on every worker, but the failure is
    neither caught nor logged: [performAdvancedOCR] throws the rejection of
    a failed [terminate] call in place of its result or error, and the
    [terminate] calls are the last thing it does. *)
Theorem termination_failure_replaces_outcome (env : Env) (fuel : nat)
    (imageBuffer : buffer) (options : Options.t) (processedImage : buffer)
    (w : worker) (v : value) :
  (Z.to_nat (default 1%Z (Options.retries options)) <= fuel)%nat ->
  starts_every_worker env ->
  processedImage_of env imageBuffer options = Resolved processedImage ->
  In w (workers_from 0 (default ["eng"] (Options.languages options))) ->
  terminate_answer env w = Some v ->
  exists v' w' tr',
    performAdvancedOCR env fuel imageBuffer options [] = (Throw v', tr')
    /\ In w' (workers_from 0 (default ["eng"] (Options.languages options)))
    /\ terminate_answer env w' = Some v'
    /\ (forall w0,
          In w0 (workers_from 0 (default ["eng"] (Options.languages options)))
          -> In (terminate_event env w0) tr')
    /\ exists tr1,
         tr' = rev (map (terminate_event env)
                      (workers_from 0
                         (default ["eng"] (Options.languages options))))
               ++ tr1.
Proof.
  intros Hfuel Hstart Hpre Hin Hfail.
  destruct (performAdvancedOCR_started env fuel imageBuffer options []
              processedImage Hstart Hpre) as (evs & E & _ & _).
  rewrite E; clear E.
  set (lg := default console_log (Options.logger options)) in *.
  set (retries := default 1 (Options.retries options)) in *.
  change (count is_create_worker []) with 0%nat.
  set (ws := workers_from 0 (default ["eng"] (Options.languages options))) in *.
  pose proof (completes_recognize_with_retries env any_value
                (fun _ _ => eq_refl) (answers_within_any env)
                fuel lg retries processedImage Hfuel (evs ++ [])) as Hc.
  destruct (recognize_with_retries env fuel lg retries processedImage
              (evs ++ [])) as [r tr1] eqn:Ebody.
  simpl in Hc.
  assert (Hr : r <> OutOfFuel) by (intros ->; exact Hc).
  destruct (first_rejection_some env ws w v Hin Hfail) as (t & v' & Hfirst).
  destruct (terminate_workers_rejected env lg ws tr1 t v' Hfirst)
    as (e1 & Ec & _).
  destruct (first_rejection_in env ws t v' Hfirst) as (w' & Hin' & Hw').
  exists v', w', (rev (map (terminate_event env) ws) ++ e1 ++ tr1).
  split; [eapply try_finally_rejected; eauto|].
  split; [exact Hin'|].
  split; [exact Hw'|].
  split; [|exists (e1 ++ tr1); reflexivity].
  intros w0 Hw0; apply in_or_app; left.
  apply -> in_rev; apply in_map; exact Hw0.
Qed.

Lemma termination_failure_replaces_outcome_witness :
  exists v' w' tr',
    performAdvancedOCR Samples.stuck_workers 1 []
      (Samples.options ["eng"] 1) [] = (Throw v', tr')
    /\ In w' (workers_from 0
                (default ["eng"]
                   (Options.languages (Samples.options ["eng"] 1))))
    /\ terminate_answer Samples.stuck_workers w' = Some v'
    /\ (forall w0,
          In w0 (workers_from 0
                   (default ["eng"]
                      (Options.languages (Samples.options ["eng"] 1))))
          -> In (terminate_event Samples.stuck_workers w0) tr')
    /\ exists tr1,
         tr' = rev (map (terminate_event Samples.stuck_workers)
                      (workers_from 0
                         (default ["eng"]
                            (Options.languages (Samples.options ["eng"] 1)))))
               ++ tr1.
Proof.
  apply (termination_failure_replaces_outcome Samples.stuck_workers 1 []
           (Samples.options ["eng"] 1) []
           {| wid := 0; wlang := "eng" |} (VError "worker is busy" "")).
  - simpl; lia.
  - intros k lang; reflexivity.
  - reflexivity.
  - simpl; left; reflexivity.
  - reflexivity.
Defined.

(** C3, as the spec states it, fails: the job reads "HELLO", the worker's
    [terminate] call is rejected, and [performAdvancedOCR] throws that
    rejection instead of returning the text; the console shows no line
    about it. *)
Lemma termination_failure_masks_text :
  fst (recognize_with_retries Samples.stuck_workers 1 console_log 1 [] [])
  = Return Samples.hello
  /\ exists tr',
       performAdvancedOCR Samples.stuck_workers 1 []
         (Samples.options ["eng"] 1) []
       = (Throw (VError "worker is busy" ""), tr')
       /\ hd_error tr' = Some (ETerminate {| wid := 0; wlang := "eng" |} false)
       /\ List.filter (fun e => match e with
                                | EConsoleLog _ => true
                                | _ => false
                                end) tr'
          = [EConsoleLog "Terminating workers...";
             EConsoleLog "OCR process completed successfully";
             EConsoleLog "Starting OCR process...";
             EConsoleLog "Initializing worker for language: eng";
             EConsoleLog "Preprocessing complete.";
             EConsoleLog "Preprocessing image for better OCR results..."].
Proof.
  split; [vm_compute; reflexivity|].
  eexists; split; [vm_compute; reflexivity|].
  split; vm_compute; reflexivity.
Qed.

(** ** The single-worker scripts *)

Section SingleWorker.

Variable env : Env.
Variable image : buffer.
Variable lang : option string.

Let w : worker := {| wid := 0; wlang := default "eng" lang |}.

Lemma performOCR_run :
  createWorker_answer env 0 (default "eng" lang) = None ->
  performOCR env image lang []
  = match terminate_answer env w with
    | None =>
        (outcome_of (recognize_answer env w image),
         EConsoleLog "Tesseract worker terminated"
         :: ETerminate w true
         :: match recognize_answer env w image with
            | Resolved _ => [EConsoleLog "OCR completed successfully"]
            | Rejected v => [EConsoleError "OCR Error:" v]
            end
         ++ [ERecognize w image;
             EConsoleLog "Processing image...";
             ECreateWorker (default "eng" lang) (Some w);
             EConsoleLog "Initializing Tesseract worker..."])
    | Some v' =>
        (Throw v',
         ETerminate w false
         :: match recognize_answer env w image with
            | Resolved _ => [EConsoleLog "OCR completed successfully"]
            | Rejected v => [EConsoleError "OCR Error:" v]
            end
         ++ [ERecognize w image;
             EConsoleLog "Processing image...";
             ECreateWorker (default "eng" lang) (Some w);
             EConsoleLog "Initializing Tesseract worker..."])
    end.
Proof.
  intros Hstart; unfold performOCR.
  erewrite bind_return by reflexivity.
  erewrite bind_return
    by (apply createWorker_started; simpl; exact Hstart).
  change (count is_create_worker
            [EConsoleLog "Initializing Tesseract worker..."]) with 0%nat.
  fold w.
  unfold try_finally, try_catch, recognize, terminate, terminate_call,
    bind, emit, ret, throw.
  rewrite await_run.
  destruct (recognize_answer env w image) as [t|v];
    destruct (terminate_answer env w) as [v'|]; reflexivity.
Qed.

Lemma extractTextFromImage_run :
  createWorker_answer env 0 (default "eng" lang) = None ->
  extractTextFromImage env image lang []
  = ((match terminate_answer env w with
      | None => outcome_of (recognize_answer env w image)
      | Some v' => Throw v'
      end),
     [terminate_event env w;
      ERecognize w image;
      ECreateWorker (default "eng" lang) (Some w)]).
Proof.
  intros Hstart; unfold extractTextFromImage.
  erewrite bind_return
    by (apply createWorker_started; simpl; exact Hstart).
  change (count is_create_worker []) with 0%nat.
  fold w.
  unfold try_finally, recognize, terminate, terminate_call, terminate_event,
    bind, emit, ret, throw.
  rewrite await_run.
  destruct (recognize_answer env w image) as [t|v];
    destruct (terminate_answer env w) as [v'|]; reflexivity.
Qed.

End SingleWorker.



(** ** The node functions *)

Section Finishes.

Variable P : value -> Prop.








End Finishes.



Section NodeReports.

Variable env : Env.
Hypothesis Henv : answers_within is_error_object env.



















End NodeReports.




(** In that environment the advanced node reports the text "HELLO" and
    the code-block node reports the failure "timeout". *)
Example scenario_success_and_failure :
  (exists out tr',
      advanced_node Rejections.blind_worker 2 [] = (Return out, tr')
      /\ Json.success (json out) = true
      /\ Json.text (json out) = Some Samples.hello
      /\ Json.error (json out) = None)
  /\ (exists out tr',
         code_block_node Rejections.blind_worker [] = (Return out, tr')
         /\ Json.success (json out) = false
         /\ Json.text (json out) = None
         /\ Json.error (json out) = Some (VStr "timeout")).
Proof.
  split; eexists; eexists; (split; [vm_compute; reflexivity|]);
    repeat split; reflexivity.
Qed.


(** ** Text statistics *)

Lemma split_unit_length (sep : N) (s : text) :
  forall cur,
    List.length (split_unit sep cur s) = S (count_occ N.eq_dec s sep).
Proof.
  induction s as [|c s IH]; intros cur; simpl; [reflexivity|].
  destruct (N.eqb_spec c sep) as [->|Hne].
  - destruct (N.eq_dec sep sep); [|congruence].
    simpl; rewrite IH; reflexivity.
  - destruct (N.eq_dec c sep); [congruence|].
    apply IH.
Qed.

Lemma nonempty_rev (cur : text) :
  (0 <? List.length (rev cur))%nat = negb (is_nil cur).
Proof. rewrite length_rev; destruct cur; reflexivity. Qed.

(** While a separator is being read the piece in progress is empty. *)
Lemma split_spaces_tokens (s : text) :
  forall (in_sep : bool) (cur : text),
    (in_sep = true -> cur = []) ->
    List.length
      (List.filter (fun w => (0 <? List.length w)%nat)
         (split_spaces in_sep cur s))
    = (token_count_from (is_nil cur) s + (if is_nil cur then 0 else 1))%nat.
Proof.
  induction s as [|c s IH]; intros in_sep cur Hinv; simpl.
  - rewrite nonempty_rev; destruct cur; reflexivity.
  - destruct (is_space c).
    + destruct in_sep.
      * rewrite (Hinv eq_refl), IH by reflexivity; reflexivity.
      * cbn [List.filter]; rewrite nonempty_rev.
        destruct cur; simpl; rewrite IH by reflexivity; simpl; lia.
    + rewrite IH by discriminate; simpl; destruct cur; simpl; lia.
Qed.

Lemma lineCount_of_spec (t : text) : lineCount_of t = S (newline_count t).
Proof. apply split_unit_length. Qed.

Lemma wordCount_of_spec (t : text) : wordCount_of t = token_count t.
Proof.
  unfold wordCount_of, token_count;
    rewrite split_spaces_tokens by discriminate; simpl; lia.
Qed.

(** ** What a computation may return *)

Lemma returns_ret {A} (R : A -> Prop) (a : A) : R a -> returns R (ret a).
Proof. intros H tr a' tr' E; inversion E; subst; exact H. Qed.

Lemma returns_bind {A B} (R : B -> Prop) (m : M A) (k : A -> M B) :
  (forall a, returns R (k a)) -> returns R (bind m k).
Proof.
  intros Hk tr b tr' E; unfold bind in E.
  destruct (m tr) as [[a|v|] tr1]; try discriminate.
  exact (Hk a tr1 b tr' E).
Qed.

Lemma returns_try_catch {A} (R : A -> Prop) (body : M A) (h : value -> M A) :
  returns R body -> (forall v, returns R (h v)) ->
  returns R (try_catch body h).
Proof.
  intros Hb Hh tr a tr' E; unfold try_catch in E.
  destruct (body tr) as [[a0|v|] tr1] eqn:Eb; try discriminate.
  - inversion E; subst; exact (Hb tr a tr' Eb).
  - exact (Hh v tr1 a tr' E).
Qed.

Lemma advanced_node_returns (env : Env) (fuel : nat) :
  returns (fun out => Json.success (json out) = true
                      -> exact_statistics (json out))
    (advanced_node env fuel).
Proof.
  unfold advanced_node.
  apply returns_try_catch.
  - do 5 (apply returns_bind; intros ?).
    apply returns_bind; intros stamp.
    apply returns_ret; intros _; simpl.
    eexists; eexists; repeat split; simpl.
    + apply lineCount_of_spec.
    + apply wordCount_of_spec.
  - intros v.
    do 5 (apply returns_bind; intros ?).
    apply returns_ret; simpl; discriminate.
Qed.

(** C10.  On every success result of the advanced node, [textLength] is
    the number of code units of the text, [lineCount] is one more than the
    number of its newlines, and [wordCount] is the number of its maximal
    runs of non-white-space units. *)
Theorem statistics_are_exact (env : Env) (fuel : nat) (tr tr' : trace)
    (out : node_output) :
  advanced_node env fuel tr = (Return out, tr') ->
  Json.success (json out) = true ->
  exists t s,
    Json.text (json out) = Some t
    /\ Json.statistics (json out) = Some s
    /\ Stats.textLength s = List.length t
    /\ Stats.lineCount s = S (newline_count t)
    /\ Stats.wordCount s = token_count t.
Proof.
  intros Hrun Hsuccess.
  exact (advanced_node_returns env fuel tr out tr' Hrun Hsuccess).
Qed.

Lemma statistics_are_exact_witness :
  exists t s,
    Json.text (json Samples.two_lines_output) = Some t
    /\ Json.statistics (json Samples.two_lines_output) = Some s
    /\ Stats.textLength s = List.length t
    /\ Stats.lineCount s = S (newline_count t)
    /\ Stats.wordCount s = token_count t.
Proof.
  apply (statistics_are_exact Samples.reads_two_lines 2 []
           (snd (advanced_node Samples.reads_two_lines 2 []))
           Samples.two_lines_output).
  - vm_compute; reflexivity.
  - reflexivity.
Defined.

(** ** The scenarios of the specification *)

(** The job fails once, then reads "HELLO": two submissions, one delay,
    one worker created and terminated, and the text is returned. *)
Example scenario_fail_then_succeed :
  exists tr',
    performAdvancedOCR Samples.fails_once 2 [] (Samples.options ["eng"] 2) []
    = (Return Samples.hello, tr')
    /\ count is_add_job tr' = 2%nat
    /\ count is_delay tr' = 1%nat
    /\ created_workers tr' = [{| wid := 0; wlang := "eng" |}]
    /\ live_workers tr' = [].
Proof.
  eexists; split; [vm_compute; reflexivity|].
  repeat split; vm_compute; reflexivity.
Qed.

(** Two languages, one attempt, the job fails with "timeout": the node
    reports the failure, both workers are created and terminated, one job
    is submitted. *)
Example scenario_two_workers_timeout :
  exists tr',
    performAdvancedOCR Samples.always_timeout 1 []
      (Samples.options ["eng"; "fra"] 1) []
    = (Throw (VError "timeout" ""), tr')
    /\ count is_add_job tr' = 1%nat
    /\ created_workers tr'
       = [{| wid := 1; wlang := "fra" |}; {| wid := 0; wlang := "eng" |}]
    /\ live_workers tr' = [].
Proof.
  eexists; split; [vm_compute; reflexivity|].
  repeat split; vm_compute; reflexivity.
Qed.

(** The advanced node turns the exhausted retries into a failure record
    that carries the message of the last error. *)
Example scenario_node_reports_timeout :
  exists out tr',
    advanced_node Samples.always_timeout 2 [] = (Return out, tr')
    /\ Json.success (json out) = false
    /\ Json.error (json out) = Some (VStr "timeout")
    /\ Json.text (json out) = None.
Proof.
  eexists; eexists; split; [vm_compute; reflexivity|].
  repeat split; reflexivity.
Qed.

(** [split] as JavaScript has it: the empty text is one empty line and no
    word; white space at either end leaves empty pieces that the filter
    drops. *)
Example statistics_of_empty_text :
  lineCount_of [] = 1%nat /\ wordCount_of [] = 0%nat /\ textLength_of [] = 0%nat.
Proof. repeat split; reflexivity. Qed.

Example split_spaces_keeps_empty_ends :
  split_spaces false [] [32; 72; 73; 9; 10; 79; 75; 32]%N
  = [[]; [72; 73]; [79; 75]; []]%N.
Proof. reflexivity. Qed.

(** * Further properties *)

(** ** Splitting a text *)

Lemma split_unit_cons (sep : N) (s : text) :
  forall cur, exists p rest, split_unit sep cur s = p :: rest.
Proof.
  induction s as [|c s IH]; intros cur; simpl; [eauto|].
  destruct (c =? sep)%N; eauto.
Qed.

Lemma join_split_unit (sep : N) (s : text) :
  forall cur, join_unit sep (split_unit sep cur s) = rev cur ++ s.
Proof.
  induction s as [|c s IH]; intros cur; simpl.
  - rewrite app_nil_r; reflexivity.
  - destruct (N.eqb_spec c sep) as [->|Hne].
    + destruct (split_unit_cons sep s []) as (p & rest & E).
      specialize (IH []); simpl in IH.
      cbn [join_unit]; rewrite E, <- E, IH; reflexivity.
    + rewrite IH; simpl; rewrite <- app_assoc; reflexivity.
Qed.

Lemma split_unit_pieces (sep : N) (s : text) :
  forall cur,
    ~ In sep cur ->
    Forall (fun p => ~ In sep p) (split_unit sep cur s).
Proof.
  induction s as [|c s IH]; intros cur Hcur; simpl.
  - constructor; [rewrite <- in_rev; exact Hcur | constructor].
  - destruct (N.eqb_spec c sep) as [->|Hne].
    + constructor; [rewrite <- in_rev; exact Hcur|].
      apply IH; intros [].
    + apply IH; intros [H|H]; [congruence | contradiction].
Qed.

(** X1.  [text.split('\n')] and [join('\n')] are a round trip: the lines
    hold no newline, and joining them with newlines gives the text back. *)
Theorem split_lines_round_trip (extractedText : text) :
  join_unit newline (split_unit newline [] extractedText) = extractedText
  /\ Forall (fun line => ~ In newline line)
       (split_unit newline [] extractedText)
  /\ List.length (split_unit newline [] extractedText)
     = lineCount_of extractedText.
Proof.
  split; [apply (join_split_unit newline extractedText [])|].
  split; [apply split_unit_pieces; intros [] | reflexivity].
Qed.

Lemma spaceless_rev (cur : text) : spaceless (rev cur) = spaceless cur.
Proof.
  unfold spaceless; induction cur as [|c cur IH]; simpl; [reflexivity|].
  rewrite forallb_app, IH; simpl; rewrite andb_true_r; apply andb_comm.
Qed.

Lemma split_spaces_pieces (s : text) :
  forall (in_sep : bool) (cur : text),
    (in_sep = true -> cur = []) ->
    spaceless cur = true ->
    forallb spaceless (split_spaces in_sep cur s) = true
    /\ List.concat (split_spaces in_sep cur s)
       = rev cur ++ List.filter (fun c => negb (is_space c)) s.
Proof.
  induction s as [|c s IH]; intros in_sep cur Hinv Hcur; simpl.
  - rewrite spaceless_rev, Hcur, !app_nil_r; split; reflexivity.
  - destruct (is_space c) eqn:Hc; simpl.
    + destruct (IH true [] (fun _ => eq_refl) eq_refl) as [Hp Hcat].
      simpl in Hcat.
      destruct in_sep.
      * rewrite (Hinv eq_refl); split; [exact Hp | exact Hcat].
      * simpl; rewrite spaceless_rev, Hcur, Hp, Hcat; split; reflexivity.
    + destruct (IH false (c :: cur)) as [Hp Hcat]; [discriminate | |].
      { unfold spaceless in *; simpl; rewrite Hc, Hcur; reflexivity. }
      split; [exact Hp|].
      rewrite Hcat; simpl; rewrite <- app_assoc; reflexivity.
Qed.

Lemma concat_filter_nonempty (pieces : list text) :
  List.concat (List.filter (fun w => (0 <? List.length w)%nat) pieces)
  = List.concat pieces.
Proof.
  induction pieces as [|p pieces IH]; simpl; [reflexivity|].
  destruct p as [|c p]; simpl; [exact IH | rewrite IH; reflexivity].
Qed.

(** X2.  The words the advanced node counts are non-empty, hold no white
    space, and put end to end they are the text with its white space
    removed: [split(/\s+/)] loses nothing but white space. *)
Theorem words_partition_text (extractedText : text) :
  Forall (fun w => w <> [] /\ spaceless w = true) (words_of extractedText)
  /\ List.concat (words_of extractedText)
     = List.filter (fun c => negb (is_space c)) extractedText
  /\ List.length (words_of extractedText) = wordCount_of extractedText.
Proof.
  destruct (split_spaces_pieces extractedText false []
              ltac:(discriminate) eq_refl) as [Hp Hcat].
  unfold words_of; repeat split.
  - apply Forall_forall; intros w Hw.
    apply filter_In in Hw as [Hin Hlen].
    rewrite forallb_forall in Hp; split; [|apply Hp; exact Hin].
    intros ->; discriminate.
  - rewrite concat_filter_nonempty; exact Hcat.
Qed.

Lemma token_count_from_bound (t : text) :
  (2 * token_count_from false t <= List.length t
   /\ 2 * token_count_from true t <= List.length t + 1)%nat.
Proof.
  induction t as [|c t [IHf IHt]]; simpl; [lia|].
  destruct (is_space c); lia.
Qed.

(** X3.  The statistics of the advanced node are bounded by the length of
    the text: words are separated by white space, so there are at most
    (length + 1) / 2 of them; there is at least one line and at most
    length + 1. *)
Theorem statistics_bounds (extractedText : text) :
  (2 * wordCount_of extractedText <= textLength_of extractedText + 1
   /\ 1 <= lineCount_of extractedText
   /\ lineCount_of extractedText <= textLength_of extractedText + 1)%nat.
Proof.
  rewrite wordCount_of_spec, lineCount_of_spec; unfold textLength_of.
  split; [apply token_count_from_bound|].
  split; [lia|].
  unfold newline_count.
  pose proof (count_occ_bound N.eq_dec newline extractedText); lia.
Qed.

(** X4.  The advanced node counts no word exactly when the text is empty
    or all white space. *)
Theorem no_word_iff_blank (extractedText : text) :
  wordCount_of extractedText = 0%nat <-> blank extractedText = true.
Proof.
  rewrite wordCount_of_spec; unfold token_count, blank.
  induction extractedText as [|c t IH]; simpl; [tauto|].
  destruct (is_space c); simpl; [exact IH|].
  split; [lia | discriminate].
Qed.

Lemma token_count_from_app (a : text) :
  forall (b : bool) (c : N) (rest : text),
    is_space c = true ->
    token_count_from b (a ++ c :: rest)
    = (token_count_from b a + token_count_from true rest)%nat.
Proof.
  induction a as [|x a IH]; intros b c rest Hc; simpl.
  - rewrite Hc; reflexivity.
  - destruct (is_space x); rewrite IH by exact Hc; lia.
Qed.

(** X5.  The counts compose: over two texts put together with a white
    space unit between them the word counts add up, and over two texts
    put together with a newline the line counts add up. *)
Theorem statistics_compose (a b : text) (c : N) :
  (is_space c = true ->
   wordCount_of (a ++ c :: b) = (wordCount_of a + wordCount_of b)%nat)
  /\ lineCount_of (a ++ newline :: b) = (lineCount_of a + lineCount_of b)%nat.
Proof.
  split.
  - intros Hc; rewrite !wordCount_of_spec; unfold token_count.
    apply token_count_from_app; exact Hc.
  - rewrite !lineCount_of_spec; unfold newline_count.
    rewrite count_occ_app; simpl.
    destruct (N.eq_dec newline newline); [lia | congruence].
Qed.

(** ** Substrings *)

Lemma prefix_spec (needle s : string) :
  prefix needle s = true <-> exists post, s = (needle ++ post)%string.
Proof.
  revert s; induction needle as [|a needle IH]; intros s.
  - split; [intros _; exists s; reflexivity | intros _; destruct s; reflexivity].
  - destruct s as [|b s]; simpl.
    + split; [discriminate | intros [post H]; discriminate].
    + destruct (Ascii.ascii_dec a b) as [->|Hne].
      * rewrite IH; split; intros [post H]; exists post; congruence.
      * split; [discriminate | intros [post H]; congruence].
Qed.

(** [includes], with which the advanced node tells the MIME types
    apart, holds exactly of the strings that contain the needle. *)
Theorem includes_spec (needle s : string) :
  includes needle s = true
  <-> exists pre post, s = (pre ++ needle ++ post)%string.
Proof.
  induction s as [|c s IH]; cbn [includes].
  - rewrite orb_false_r, prefix_spec; split.
    + intros [post H]; exists "", post; exact H.
    + intros (pre & post & H).
      destruct pre; simpl in H; [exists post; exact H | discriminate].
  - rewrite orb_true_iff, prefix_spec, IH; split.
    + intros [[post H]|(pre & post & H)].
      * exists "", post; exact H.
      * exists (String c pre), post; simpl; rewrite H; reflexivity.
    + intros (pre & post & H); destruct pre as [|c' pre]; simpl in H.
      * left; exists post; exact H.
      * right; exists pre, post; congruence.
Qed.

(** ** The pipeline of [preprocessImage] *)

(** X6.  Whatever the options, [preprocessImage] builds its pipeline in
    one fixed order (grayscale, normalize, threshold, resize, sharpen,
    modulate, median) and uses each operation at most once. *)
Theorem preprocess_ops_ordered (options : PreprocessOptions.t) :
  StronglySorted lt (map stage (preprocess_ops options))
  /\ (List.length (preprocess_ops options) <= 7)%nat.
Proof.
  unfold preprocess_ops.
  destruct (default true (PreprocessOptions.grayscale options));
    destruct (default true (PreprocessOptions.normalize options));
    destruct (default false (PreprocessOptions.threshold options));
    destruct (default false (PreprocessOptions.resize options));
    destruct (default true (PreprocessOptions.sharpen options));
    destruct (default true (PreprocessOptions.removeNoise options));
    destruct (negb (Qeq_bool (default 1%Q (PreprocessOptions.contrast options)) 1)
              || negb (Qeq_bool
                         (default 1%Q (PreprocessOptions.brightness options)) 1));
    simpl; (split; [repeat constructor; lia | lia]).
Qed.

(** X7.  The pipeline modulates exactly when the contrast or the
    brightness differs from 1 (their defaults), and then with the two
    values of the options; it resizes only without enlargement, and its
    median filter is always of size 3. *)
Theorem preprocess_ops_parameters (options : PreprocessOptions.t) :
  (forall b c,
      In (Modulate b c) (preprocess_ops options)
      <-> b = default 1%Q (PreprocessOptions.brightness options)
          /\ c = default 1%Q (PreprocessOptions.contrast options)
          /\ (Qeq_bool c 1 = false \/ Qeq_bool b 1 = false))
  /\ (forall w e, In (Resize w e) (preprocess_ops options) ->
                  e = true
                  /\ w = default 1800 (PreprocessOptions.width options)
                  /\ PreprocessOptions.resize options = Some true)
  /\ (forall n, In (Median n) (preprocess_ops options) -> n = 3).
Proof.
  unfold preprocess_ops.
  set (c0 := default 1%Q (PreprocessOptions.contrast options)).
  set (b0 := default 1%Q (PreprocessOptions.brightness options)).
  assert (Hin : forall (x : sharp_op) (flag : bool) (op : sharp_op),
             In x (when_ flag op) <-> flag = true /\ x = op).
  { intros x [] op; simpl; intuition congruence. }
  split; [|split].
  - intros b c; split.
    + intros H; repeat (apply in_app_or in H as [H|H]);
        apply Hin in H as [Hf H]; try discriminate H.
      inversion H; subst; repeat split.
      apply orb_true_iff in Hf as [Hf|Hf]; apply negb_true_iff in Hf; auto.
    + intros (-> & -> & Hne).
      do 5 (apply in_or_app; right); apply in_or_app; left.
      apply Hin; split; [|reflexivity].
      apply orb_true_iff; fold c0 b0; destruct Hne as [H|H]; rewrite H; auto.
  - intros w e H; repeat (apply in_app_or in H as [H|H]);
      apply Hin in H as [Hf H]; try discriminate H.
    inversion H; subst; repeat split.
    destruct (PreprocessOptions.resize options) as [[]|]; simpl in Hf;
      congruence.
  - intros n H; repeat (apply in_app_or in H as [H|H]);
      apply Hin in H as [Hf H]; try discriminate H.
    inversion H; reflexivity.
Qed.

(** ** Events a computation leaves *)

Section Leaves.

Variable Q : event -> Prop.

Lemma leaves_ret {A} (a : A) : leaves Q (ret a).
Proof. intros tr; exists []; split; [reflexivity | constructor]. Qed.

Lemma leaves_throw {A} (v : value) : leaves Q (@throw A v).
Proof. intros tr; exists []; split; [reflexivity | constructor]. Qed.

Lemma leaves_out_of_fuel {A} : leaves Q (@out_of_fuel A).
Proof. intros tr; exists []; split; [reflexivity | constructor]. Qed.

Lemma leaves_emit (e : event) : Q e -> leaves Q (emit e).
Proof.
  intros He tr; exists [e]; split; [reflexivity | repeat constructor; exact He].
Qed.

Lemma leaves_bind {A B} (m : M A) (k : A -> M B) :
  leaves Q m -> (forall a, leaves Q (k a)) -> leaves Q (bind m k).
Proof.
  intros Hm Hk tr; unfold bind.
  destruct (Hm tr) as (evs & E & Hq).
  destruct (m tr) as [[a|v|] tr1]; simpl in E; subst tr1;
    try (exists evs; split; [reflexivity | exact Hq]).
  destruct (Hk a (evs ++ tr)) as (evs' & E' & Hq').
  exists (evs' ++ evs); rewrite E', app_assoc; split; [reflexivity|].
  apply Forall_app; split; assumption.
Qed.

Lemma leaves_try_catch {A} (body : M A) (h : value -> M A) :
  leaves Q body -> (forall v, leaves Q (h v)) -> leaves Q (try_catch body h).
Proof.
  intros Hm Hk tr; unfold try_catch.
  destruct (Hm tr) as (evs & E & Hq).
  destruct (body tr) as [[a|v|] tr1]; simpl in E; subst tr1;
    try (exists evs; split; [reflexivity | exact Hq]).
  destruct (Hk v (evs ++ tr)) as (evs' & E' & Hq').
  exists (evs' ++ evs); rewrite E', app_assoc; split; [reflexivity|].
  apply Forall_app; split; assumption.
Qed.

Lemma leaves_log (env : Env) (lg : logger_t) (line : string) :
  (forall e, silent e = true -> Q e) -> leaves Q (log env lg line).
Proof.
  intros HQ tr; destruct (log_run env lg line tr) as (evs & E & Hs).
  exists evs; rewrite E; split; [reflexivity|].
  apply Forall_forall; intros e He; apply HQ.
  rewrite forallb_forall in Hs; auto.
Qed.

End Leaves.

Lemma job_of_silent (p : buffer) (e : event) : silent e = true -> job_of p e.
Proof. destruct e; simpl; intros H; try discriminate; exact I. Qed.

Lemma leaves_attempt (env : Env) (lg : logger_t) (retries : Z) (p : buffer)
    (vars : loop_vars) :
  leaves (job_of p) (attempt env lg retries p vars).
Proof.
  unfold attempt; apply leaves_try_catch.
  - apply leaves_bind; [|intros t; apply leaves_ret].
    intros tr; exists [EAddJob p]; rewrite addJob_run.
    split; [reflexivity | repeat constructor].
  - intros err.
    apply leaves_bind;
      [destruct err; first [apply leaves_throw | apply leaves_ret]|].
    intros message.
    apply leaves_bind; [apply leaves_log; apply job_of_silent|]; intros _.
    apply leaves_bind; [|intros _; apply leaves_ret].
    destruct (attempts vars + 1 <? retries); [|apply leaves_ret].
    apply leaves_emit; reflexivity.
Qed.

Lemma leaves_retry_loop (env : Env) (lg : logger_t) (retries : Z) (p : buffer)
    (fuel : nat) :
  forall vars, leaves (job_of p) (retry_loop env fuel lg retries p vars).
Proof.
  induction fuel as [|fuel IH]; intros vars; simpl.
  - destruct (attempts vars <? retries);
      [apply leaves_out_of_fuel | apply leaves_ret].
  - destruct (attempts vars <? retries); [|apply leaves_ret].
    apply leaves_bind; [apply leaves_attempt|].
    intros [[] vars']; [apply leaves_ret | apply IH].
Qed.

Lemma leaves_recognize_with_retries (env : Env) (fuel : nat) (lg : logger_t)
    (retries : Z) (p : buffer) :
  leaves (job_of p) (recognize_with_retries env fuel lg retries p).
Proof.
  unfold recognize_with_retries.
  apply leaves_bind; [apply leaves_log; apply job_of_silent|]; intros _.
  apply leaves_bind; [apply leaves_retry_loop|]; intros vars.
  apply leaves_bind;
    [destruct (truthy (error vars)); [apply leaves_throw | apply leaves_ret]|].
  intros _.
  apply leaves_bind; [apply leaves_log; apply job_of_silent|]; intros _.
  apply leaves_ret.
Qed.

(** ** Bounds on the retry loop *)

Lemma retry_loop_bounds (env : Env) (lg : logger_t) (retries : Z) (p : buffer)
    (fuel : nat) :
  forall (vars : loop_vars) (tr : trace),
  exists evs,
    snd (retry_loop env fuel lg retries p vars tr) = evs ++ tr
    /\ (count is_add_job evs <= Z.to_nat (retries - attempts vars))%nat
    /\ (count is_delay evs <= Z.to_nat (retries - attempts vars) - 1)%nat
    /\ (count is_delay evs <= count is_add_job evs)%nat.
Proof.
  induction fuel as [|fuel IH]; intros vars tr; simpl.
  - destruct (attempts vars <? retries); exists []; simpl;
      repeat split; unfold count; simpl; lia.
  - destruct (Z.ltb_spec (attempts vars) retries) as [Hlt|Hge].
    2:{ exists []; repeat split; unfold count; simpl; lia. }
    unfold bind at 1.
    destruct (addJob_answer env (count is_add_job tr) p) as [t|v] eqn:Ea.
    + rewrite (attempt_resolved env lg retries p vars tr t Ea).
      exists [EAddJob p]; simpl; repeat split; unfold count; simpl; lia.
    + destruct (not_nullish v) eqn:Hv.
      * destruct (attempt_rejected env lg retries p vars tr v Ea Hv)
          as (evs & E & Hs).
        rewrite E.
        set (vars' := {| attempts := attempts vars + 1; error := v;
                         text_ := text_ vars |}).
        destruct (IH vars'
                    ((if attempts vars + 1 <? retries then [EDelay 1000] else [])
                     ++ evs ++ EAddJob p :: tr))
          as (evs' & E' & Hj & Hd & Hdj).
        simpl attempts in Hj, Hd.
        exists (evs'
                ++ (if attempts vars + 1 <? retries then [EDelay 1000] else [])
                ++ evs ++ [EAddJob p]).
        split.
        { rewrite E', <- !app_assoc; reflexivity. }
        rewrite !count_app.
        rewrite (count_silent is_add_job evs), (count_silent is_delay evs)
          by auto with traces.
        change (count is_add_job [EAddJob p]) with 1%nat.
        change (count is_delay [EAddJob p]) with 0%nat.
        destruct (Z.ltb_spec (attempts vars + 1) retries).
        -- change (count is_add_job [EDelay 1000]) with 0%nat.
           change (count is_delay [EDelay 1000]) with 1%nat.
           lia.
        -- change (count is_add_job []) with 0%nat.
           change (count is_delay []) with 0%nat.
           lia.
      * destruct (attempt_rejected_nullish env lg retries p vars tr v Ea Hv)
          as (e & E & _).
        rewrite E.
        exists [EAddJob p]; simpl; repeat split; unfold count; simpl; lia.
Qed.

(** ** The phases of a run of [performAdvancedOCR] *)

Lemma pool_admits_logging : admits_logging pool_event.
Proof. intros [] H; try discriminate H; reflexivity. Qed.

Lemma pre_admits_logging : admits_logging pre_event.
Proof. intros [] H; try discriminate H; reflexivity. Qed.

Lemma forallb_silent_in (Q : event -> bool) (evs : trace) :
  admits_logging Q -> forallb silent evs = true -> forallb Q evs = true.
Proof.
  intros HQ Hs; rewrite forallb_forall in *; auto.
Qed.

Lemma filter_silent (p : event -> bool) (evs : trace) :
  ignores_logging p -> forallb silent evs = true -> List.filter p evs = [].
Proof.
  intros Hp Hs; apply filter_none; intros e He.
  rewrite forallb_forall in Hs; auto.
Qed.

Lemma createWorker_run (env : Env) (lang : string) (tr : trace) :
  createWorker env lang tr
  = match createWorker_answer env (count is_create_worker tr) lang with
    | None =>
        (Return {| wid := count is_create_worker tr; wlang := lang |},
         ECreateWorker lang
           (Some {| wid := count is_create_worker tr; wlang := lang |}) :: tr)
    | Some v => (Throw v, ECreateWorker lang None :: tr)
    end.
Proof.
  unfold createWorker; erewrite bind_return by reflexivity.
  destruct (createWorker_answer env (count is_create_worker tr) lang);
    reflexivity.
Qed.

Lemma init_workers_pool (env : Env) (lg : logger_t) (languages : list string) :
  forall (workers : list worker) (tr : trace),
  exists evs,
    snd (init_workers env lg languages workers tr) = evs ++ tr
    /\ forallb pool_event evs = true
    /\ (count is_create_worker evs <= List.length languages)%nat.
Proof.
  induction languages as [|lang rest IH]; intros workers tr;
    cbn [init_workers].
  - exists []; repeat split; unfold count; simpl; lia.
  - destruct (bind_log env lg ("Initializing worker for language: " ++ lang)
                (fun _ => w <- createWorker env lang ;;
                          emit (EAddWorker w) ;;
                          init_workers env lg rest (workers ++ [w]))
                tr) as (evs1 & E1 & Hs1).
    rewrite E1; clear E1.
    unfold bind at 1; rewrite createWorker_run.
    destruct (createWorker_answer env (count is_create_worker (evs1 ++ tr)) lang)
      as [v|].
    + exists (ECreateWorker lang None :: evs1); simpl.
      rewrite (forallb_silent_in pool_event evs1 pool_admits_logging Hs1).
      rewrite count_cons, (count_silent is_create_worker evs1)
        by auto with traces.
      repeat split; simpl; lia.
    + set (w := {| wid := count is_create_worker (evs1 ++ tr); wlang := lang |}).
      erewrite bind_return by reflexivity.
      destruct (IH (workers ++ [w])
                  (EAddWorker w :: ECreateWorker lang (Some w) :: evs1 ++ tr))
        as (evs & E & Hq & Hc).
      exists (evs ++ EAddWorker w :: ECreateWorker lang (Some w) :: evs1).
      rewrite E, <- app_assoc; simpl.
      rewrite forallb_app, Hq; simpl.
      rewrite (forallb_silent_in pool_event evs1 pool_admits_logging Hs1).
      rewrite count_app, !count_cons, (count_silent is_create_worker evs1)
        by auto with traces.
      repeat split; simpl; lia.
Qed.

(** The preprocessing step of [performAdvancedOCR]. *)
Lemma preprocessing_step_run (env : Env) (lg : logger_t) (imageBuffer : buffer)
    (options : Options.t) (tr : trace) :
  let preprocessing := default true (Options.preprocessing options) in
  let ppo := default PreprocessOptions.empty
               (Options.preprocessingOptions options) in
  exists e0,
    (if preprocessing then
       log env lg "Preprocessing image for better OCR results..." ;;
       p <- preprocessImage env imageBuffer ppo ;;
       log env lg "Preprocessing complete." ;;
       ret p
     else ret imageBuffer) tr
    = (outcome_of (processedImage_of env imageBuffer options), e0 ++ tr)
    /\ forallb pre_event e0 = true
    /\ List.filter is_sharp e0
       = if preprocessing then [ESharp imageBuffer (preprocess_ops ppo)]
         else [].
Proof.
  intros preprocessing ppo; unfold processedImage_of.
  fold preprocessing ppo.
  destruct preprocessing.
  - destruct (bind_log env lg "Preprocessing image for better OCR results..."
                (fun _ => p <- preprocessImage env imageBuffer ppo ;;
                          log env lg "Preprocessing complete." ;;
                          ret p) tr) as (e1 & E1 & H1).
    rewrite E1; clear E1.
    unfold bind at 1, preprocessImage.
    erewrite bind_return by reflexivity.
    rewrite await_run.
    destruct (sharp_toBuffer env imageBuffer (preprocess_ops ppo)) as [p|v];
      simpl outcome_of.
    + destruct (bind_log env lg "Preprocessing complete."
                  (fun _ => ret p)
                  (ESharp imageBuffer (preprocess_ops ppo) :: e1 ++ tr))
        as (e2 & E2 & H2).
      cbv beta iota; rewrite E2; clear E2.
      exists (e2 ++ ESharp imageBuffer (preprocess_ops ppo) :: e1).
      rewrite <- app_assoc; simpl.
      rewrite forallb_app; simpl.
      rewrite (forallb_silent_in pre_event e1 pre_admits_logging H1).
      rewrite (forallb_silent_in pre_event e2 pre_admits_logging H2).
      rewrite filter_app; simpl.
      rewrite !filter_silent by auto with traces.
      repeat split; reflexivity.
    + exists (ESharp imageBuffer (preprocess_ops ppo) :: e1); simpl.
      rewrite (forallb_silent_in pre_event e1 pre_admits_logging H1).
      rewrite filter_silent by auto with traces.
      repeat split; reflexivity.
  - exists []; repeat split; reflexivity.
Qed.

Lemma try_finally_trace {A} (body : M A) (cleanup : M unit) (tr : trace) :
  snd (try_finally body cleanup tr)
  = match fst (body tr) with
    | OutOfFuel => snd (body tr)
    | _ => snd (cleanup (snd (body tr)))
    end.
Proof.
  unfold try_finally; destruct (body tr) as [[a|v|] tr1]; simpl;
    try reflexivity; destruct (cleanup tr1) as [[[]|w|] tr2]; reflexivity.
Qed.

(** A run in four segments, oldest last: preprocessing, the start of the
    pool, the [try] block, the [finally] block. *)
Lemma performAdvancedOCR_phases (env : Env) (fuel : nat)
    (imageBuffer : buffer) (options : Options.t) (tr : trace) :
  let languages := default ["eng"] (Options.languages options) in
  let preprocessing := default true (Options.preprocessing options) in
  let ppo := default PreprocessOptions.empty
               (Options.preprocessingOptions options) in
  let lg := default console_log (Options.logger options) in
  let retries := default 1 (Options.retries options) in
  exists e0 e1 e2 e3,
    snd (performAdvancedOCR env fuel imageBuffer options tr)
    = e3 ++ e2 ++ e1 ++ e0 ++ tr
    /\ forallb pre_event e0 = true
    /\ List.filter is_sharp e0
       = (if preprocessing then [ESharp imageBuffer (preprocess_ops ppo)]
          else [])
    /\ forallb pool_event e1 = true
    /\ (count is_create_worker e1 <= List.length languages)%nat
    /\ (e2 = []
        \/ exists p,
             processedImage_of env imageBuffer options = Resolved p
             /\ snd (recognize_with_retries env fuel lg retries p
                       (e1 ++ e0 ++ tr))
                = e2 ++ e1 ++ e0 ++ tr)
    /\ forallb cleanup_event e3 = true.
Proof.
  intros languages preprocessing ppo lg retries.
  unfold performAdvancedOCR.
  fold languages preprocessing ppo lg retries.
  destruct (preprocessing_step_run env lg imageBuffer options tr)
    as (e0 & E0 & Hq0 & Hsharp).
  fold preprocessing ppo in E0, Hsharp.
  unfold bind at 1; rewrite E0.
  destruct (processedImage_of env imageBuffer options) as [p|v] eqn:Hpre;
    simpl outcome_of; cbv beta iota.
  2:{ exists e0, [], [], []; simpl.
      repeat split; auto; unfold count; simpl; lia. }
  erewrite bind_return by reflexivity.
  destruct (init_workers_pool env lg languages []
              (ECreateScheduler :: e0 ++ tr)) as (ei & Ei & Hqi & Hci).
  unfold bind at 1.
  destruct (init_workers env lg languages [] (ECreateScheduler :: e0 ++ tr))
    as [[ws|v|] tr1] eqn:Einit; simpl in Ei; subst tr1.
  - (* the pool has started *)
    set (e1 := ei ++ [ECreateScheduler]).
    assert (Htr : ei ++ ECreateScheduler :: e0 ++ tr = e1 ++ e0 ++ tr)
      by (unfold e1; rewrite <- app_assoc; reflexivity).
    rewrite Htr, try_finally_trace.
    destruct (emits_recognize_with_retries env fuel lg retries p
                (e1 ++ e0 ++ tr)) as (e2 & E2 & Hq2).
    assert (Hq1 : forallb pool_event e1 = true)
      by (unfold e1; rewrite forallb_app, Hqi; reflexivity).
    assert (Hc1 : (count is_create_worker e1 <= List.length languages)%nat)
      by (unfold e1; rewrite count_app;
          change (count is_create_worker [ECreateScheduler]) with 0%nat; lia).
    destruct (fst (recognize_with_retries env fuel lg retries p
                     (e1 ++ e0 ++ tr))) eqn:Eout.
    1,2: destruct (emits_terminate_workers env lg ws
                     (snd (recognize_with_retries env fuel lg retries p
                             (e1 ++ e0 ++ tr)))) as (e3 & E3 & Hq3);
         exists e0, e1, e2, e3; rewrite E3, E2;
         repeat split; auto; right; exists p; auto.
    exists e0, e1, e2, []; rewrite E2.
    repeat split; auto; right; exists p; auto.
  - exists e0, (ei ++ [ECreateScheduler]), [], []; simpl.
    rewrite <- app_assoc; simpl.
    rewrite forallb_app, Hqi, count_app.
    change (count is_create_worker [ECreateScheduler]) with 0%nat.
    repeat split; auto; lia.
  - exists e0, (ei ++ [ECreateScheduler]), [], []; simpl.
    rewrite <- app_assoc; simpl.
    rewrite forallb_app, Hqi, count_app.
    change (count is_create_worker [ECreateScheduler]) with 0%nat.
    repeat split; auto; lia.
Qed.

Lemma filter_outside (p Q : event -> bool) (evs : trace) :
  (forall e, Q e = true -> p e = false) ->
  forallb Q evs = true ->
  List.filter p evs = [].
Proof.
  intros Hpq Hq; apply filter_none; intros e He.
  rewrite forallb_forall in Hq; auto.
Qed.

Lemma count_zero_outside (p Q : event -> bool) (evs : trace) :
  (forall e, Q e = true -> p e = false) ->
  forallb Q evs = true ->
  count p evs = 0%nat.
Proof.
  intros Hpq Hq; unfold count; rewrite (filter_outside p Q); auto.
Qed.

Lemma phase_segment (Q : event -> bool) {A} (m : M A) (tr evs : trace) :
  emits Q m -> snd (m tr) = evs ++ tr -> forallb Q evs = true.
Proof.
  intros Hm E; destruct (Hm tr) as (evs' & E' & Hq).
  rewrite E in E'; apply app_inv_tail in E'; subst; exact Hq.
Qed.


(** X9.  [performAdvancedOCR] calls sharp exactly once, on the buffer it
    was given and with the pipeline of its preprocessing options, when
    preprocessing is enabled (the default), and never when it is
    disabled. *)
Theorem sharp_called_once_iff_preprocessing (env : Env) (fuel : nat)
    (imageBuffer : buffer) (options : Options.t) :
  List.filter is_sharp
    (snd (performAdvancedOCR env fuel imageBuffer options []))
  = if default true (Options.preprocessing options)
    then [ESharp imageBuffer
            (preprocess_ops
               (default PreprocessOptions.empty
                  (Options.preprocessingOptions options)))]
    else [].
Proof.
  destruct (performAdvancedOCR_phases env fuel imageBuffer options [])
    as (e0 & e1 & e2' & e3 & E & H0 & Hsharp & H1 & _ & H2 & H3).
  rewrite E, !filter_app, app_nil_r, Hsharp.
  assert (Hq2' : forallb job_event e2' = true).
  { destruct H2 as [->|(p & _ & E2)]; [reflexivity|].
    eapply phase_segment; [apply emits_recognize_with_retries | exact E2]. }
  rewrite (filter_outside is_sharp cleanup_event e3),
    (filter_outside is_sharp job_event e2'),
    (filter_outside is_sharp pool_event e1); auto;
    intros [] H; try discriminate H; reflexivity.
Qed.

Lemma recognize_with_retries_bounds (env : Env) (fuel : nat) (lg : logger_t)
    (retries : Z) (p : buffer) (tr : trace) :
  exists evs,
    snd (recognize_with_retries env fuel lg retries p tr) = evs ++ tr
    /\ (count is_add_job evs <= Z.to_nat retries)%nat
    /\ (count is_delay evs <= Z.to_nat retries - 1)%nat
    /\ (count is_delay evs <= count is_add_job evs)%nat
    /\ Forall (job_of p) evs.
Proof.
  destruct (leaves_recognize_with_retries env fuel lg retries p tr)
    as (evs & E & Hjob).
  exists evs; split; [exact E|].
  revert E; unfold recognize_with_retries.
  destruct (bind_log env lg "Starting OCR process..."
              (fun _ =>
                 vars <- retry_loop env fuel lg retries p
                           {| attempts := 0; error := VNull; text_ := [] |} ;;
                 (if truthy (error vars) then throw (error vars) else ret tt) ;;
                 log env lg "OCR process completed successfully" ;;
                 ret (text_ vars)) tr) as (evs1 & E1 & Hs1).
  rewrite E1; clear E1.
  destruct (retry_loop_bounds env lg retries p fuel
              {| attempts := 0; error := VNull; text_ := [] |} (evs1 ++ tr))
    as (evl & El & Hj & Hd & Hdj).
  simpl attempts in Hj, Hd; rewrite Z.sub_0_r in Hj, Hd.
  assert (Hrest : exists evs2,
             snd ((vars <- retry_loop env fuel lg retries p
                             {| attempts := 0; error := VNull; text_ := [] |} ;;
                   (if truthy (error vars) then throw (error vars)
                    else ret tt) ;;
                   log env lg "OCR process completed successfully" ;;
                   ret (text_ vars)) (evs1 ++ tr))
             = evs2 ++ evl ++ evs1 ++ tr
             /\ forallb silent evs2 = true).
  { unfold bind at 1.
    destruct (retry_loop env fuel lg retries p
                {| attempts := 0; error := VNull; text_ := [] |} (evs1 ++ tr))
      as [[vars|v|] trl]; simpl in El; subst trl;
      try (exists []; split; reflexivity).
    destruct (truthy (error vars)).
    - exists []; split; reflexivity.
    - erewrite bind_return by reflexivity.
      destruct (bind_log env lg "OCR process completed successfully"
                  (fun _ => ret (text_ vars)) (evl ++ evs1 ++ tr))
        as (evs2 & E2 & Hs2).
      rewrite E2; exists evs2; split; [reflexivity | exact Hs2]. }
  destruct Hrest as (evs2 & E2 & Hs2).
  rewrite E2; intros E.
  assert (Hevs : evs = evs2 ++ evl ++ evs1).
  { apply (app_inv_tail tr); rewrite <- E, <- !app_assoc; reflexivity. }
  subst evs.
  rewrite !count_app.
  rewrite (count_silent is_add_job evs2), (count_silent is_delay evs2),
    (count_silent is_add_job evs1), (count_silent is_delay evs1)
    by auto with traces.
  repeat split; try lia; exact Hjob.
Qed.

(** X10.  Whatever the libraries answer, [performAdvancedOCR] submits at
    most [retries] jobs and takes at most [retries - 1] delays, never more
    delays than jobs; it calls [createWorker] at most once per language,
    and every delay is of one second. *)
Theorem effort_is_bounded (env : Env) (fuel : nat) (imageBuffer : buffer)
    (options : Options.t) :
  let tr' := snd (performAdvancedOCR env fuel imageBuffer options []) in
  (count is_add_job tr'
   <= Z.to_nat (default 1%Z (Options.retries options)))%nat
  /\ (count is_delay tr'
      <= Z.to_nat (default 1%Z (Options.retries options)) - 1)%nat
  /\ (count is_delay tr' <= count is_add_job tr')%nat
  /\ (count is_create_worker tr'
      <= List.length (default ["eng"] (Options.languages options)))%nat
  /\ (forall ms, In (EDelay ms) tr' -> ms = 1000).
Proof.
  intros tr'; subst tr'.
  destruct (performAdvancedOCR_phases env fuel imageBuffer options [])
    as (e0 & e1 & e2 & e3 & E & H0 & _ & H1 & Hc1 & H2 & H3).
  rewrite E, app_nil_r.
  assert (Hb : (count is_add_job e2
                <= Z.to_nat (default 1%Z (Options.retries options)))%nat
               /\ (count is_delay e2
                   <= Z.to_nat (default 1%Z (Options.retries options)) - 1)%nat
               /\ (count is_delay e2 <= count is_add_job e2)%nat
               /\ (forallb job_event e2 = true)
               /\ (forall ms, In (EDelay ms) e2 -> ms = 1000)).
  { destruct H2 as [->|(p & _ & E2)].
    - repeat split; unfold count; simpl; try lia; intros ms [].
    - destruct (recognize_with_retries_bounds env fuel
                  (default console_log (Options.logger options))
                  (default 1 (Options.retries options)) p (e1 ++ e0 ++ []))
        as (evs & Ee & Hj & Hd & Hdj & Hjob).
      rewrite E2 in Ee; apply app_inv_tail in Ee; subst evs.
      repeat split; auto.
      + eapply phase_segment; [apply emits_recognize_with_retries | exact E2].
      + intros ms Hin; rewrite Forall_forall in Hjob.
        exact (Hjob _ Hin). }
  destruct Hb as (Hj & Hd & Hdj & Hq2 & Hms).
  rewrite !count_app.
  rewrite (count_zero_outside is_add_job cleanup_event e3),
    (count_zero_outside is_add_job pool_event e1),
    (count_zero_outside is_add_job pre_event e0),
    (count_zero_outside is_delay cleanup_event e3),
    (count_zero_outside is_delay pool_event e1),
    (count_zero_outside is_delay pre_event e0),
    (count_zero_outside is_create_worker cleanup_event e3),
    (count_zero_outside is_create_worker job_event e2),
    (count_zero_outside is_create_worker pre_event e0);
    auto; try (intros [] H; try discriminate H; reflexivity).
  repeat split; try lia.
  intros ms Hin.
  assert (Hcls : forall (Q : event -> bool) evs,
             Q (EDelay ms) = false -> forallb Q evs = true ->
             ~ In (EDelay ms) evs).
  { intros Q evs HQ Hq Hin'; rewrite forallb_forall in Hq.
    rewrite (Hq _ Hin') in HQ; discriminate. }
  apply in_app_or in Hin as [Hin|Hin];
    [exfalso; exact (Hcls cleanup_event e3 eq_refl H3 Hin)|].
  apply in_app_or in Hin as [Hin|Hin]; [exact (Hms ms Hin)|].
  apply in_app_or in Hin as [Hin|Hin];
    [exfalso; exact (Hcls pool_event e1 eq_refl H1 Hin)
    |exfalso; exact (Hcls pre_event e0 eq_refl H0 Hin)].
Qed.

(** X11.  Every job [performAdvancedOCR] submits carries the image that
    preprocessing handed on: the output of sharp when preprocessing is
    enabled, the buffer itself when it is disabled. *)
Theorem jobs_carry_processed_image (env : Env) (fuel : nat)
    (imageBuffer : buffer) (options : Options.t) (img : buffer) :
  In (EAddJob img)
     (snd (performAdvancedOCR env fuel imageBuffer options [])) ->
  processedImage_of env imageBuffer options = Resolved img
  /\ (default true (Options.preprocessing options) = false
      -> img = imageBuffer).
Proof.
  intros Hin.
  destruct (performAdvancedOCR_phases env fuel imageBuffer options [])
    as (e0 & e1 & e2 & e3 & E & H0 & _ & H1 & _ & H2 & H3).
  rewrite E, app_nil_r in Hin.
  assert (Hcls : forall (Q : event -> bool) evs,
             Q (EAddJob img) = false -> forallb Q evs = true ->
             ~ In (EAddJob img) evs).
  { intros Q evs HQ Hq Hin'; rewrite forallb_forall in Hq.
    rewrite (Hq _ Hin') in HQ; discriminate. }
  apply in_app_or in Hin as [Hin|Hin];
    [exfalso; exact (Hcls cleanup_event e3 eq_refl H3 Hin)|].
  apply in_app_or in Hin as [Hin|Hin].
  2:{ apply in_app_or in Hin as [Hin|Hin];
        [exfalso; exact (Hcls pool_event e1 eq_refl H1 Hin)
        |exfalso; exact (Hcls pre_event e0 eq_refl H0 Hin)]. }
  destruct H2 as [->|(p & Hpre & E2)]; [destruct Hin|].
  destruct (recognize_with_retries_bounds env fuel
              (default console_log (Options.logger options))
              (default 1 (Options.retries options)) p (e1 ++ e0 ++ []))
    as (evs & Ee & _ & _ & _ & Hjob).
  rewrite E2 in Ee; apply app_inv_tail in Ee; subst evs.
  rewrite Forall_forall in Hjob.
  pose proof (Hjob _ Hin) as Himg; simpl in Himg; subst img.
  split; [exact Hpre|].
  intros Hoff; unfold processedImage_of in Hpre; rewrite Hoff in Hpre.
  congruence.
Qed.

(** X12.  The retry loop ends: with fuel for [retries] iterations (none
    when [retries] is zero or less) a run of [performAdvancedOCR]
    completes, whatever the libraries answer. *)
Theorem run_completes (env : Env) (fuel : nat) (imageBuffer : buffer)
    (options : Options.t) (tr : trace) :
  (Z.to_nat (default 1%Z (Options.retries options)) <= fuel)%nat ->
  fst (performAdvancedOCR env fuel imageBuffer options tr) <> OutOfFuel.
Proof.
  intros Hfuel E.
  pose proof (completes_performAdvancedOCR env any_value
                (fun _ _ => eq_refl) (answers_within_any env)
                fuel imageBuffer options Hfuel tr) as H.
  rewrite E in H; exact H.
Qed.

(** ** Success after failures *)

Lemma retry_loop_succeeds_after (env : Env) (lg : logger_t) (retries : Z)
    (p : buffer) (k : nat) :
  forall (fuel : nat) (vars : loop_vars) (tr : trace) (t : text),
    attempts vars + Z.of_nat k < retries ->
    (S k <= fuel)%nat ->
    (forall i, (i < k)%nat ->
               rejects_with not_nullish
                 (addJob_answer env (count is_add_job tr + i) p) = true) ->
    addJob_answer env (count is_add_job tr + k) p = Resolved t ->
    exists tr',
      retry_loop env fuel lg retries p vars tr
      = (Return {| attempts := attempts vars + Z.of_nat k; error := VNull;
                   text_ := t |}, tr')
      /\ count is_add_job tr' = (count is_add_job tr + S k)%nat
      /\ count is_delay tr' = (count is_delay tr + k)%nat.
Proof.
  induction k as [|k IH]; intros fuel vars tr t Hlt Hfuel Hrej Hok;
    (destruct fuel as [|fuel]; [lia|]); cbn [retry_loop];
    (destruct (Z.ltb_spec (attempts vars) retries); [|lia]).
  - rewrite Nat.add_0_r in Hok.
    erewrite bind_return by (apply attempt_resolved; exact Hok).
    exists (EAddJob p :: tr); rewrite Z.add_0_r, !count_cons; simpl.
    repeat split; lia.
  - assert (H0 : rejects_with not_nullish
                   (addJob_answer env (count is_add_job tr) p) = true)
      by (rewrite <- (Nat.add_0_r (count is_add_job tr)); apply Hrej; lia).
    destruct (addJob_answer env (count is_add_job tr) p) as [t0|v] eqn:Ea;
      simpl in H0; [discriminate|].
    destruct (attempt_rejected env lg retries p vars tr v Ea H0)
      as (evs & E & Hs).
    erewrite bind_return by exact E.
    destruct (Z.ltb_spec (attempts vars + 1) retries); [|lia].
    cbv beta iota.
    set (tr1 := [EDelay 1000] ++ evs ++ EAddJob p :: tr).
    assert (Hc : count is_add_job tr1 = S (count is_add_job tr)).
    { unfold tr1; simpl; rewrite count_cons, count_silent_app, count_cons
        by auto with traces; reflexivity. }
    assert (Hd : count is_delay tr1 = S (count is_delay tr)).
    { unfold tr1; simpl; rewrite count_cons, count_silent_app, count_cons
        by auto with traces; reflexivity. }
    destruct (IH fuel {| attempts := attempts vars + 1; error := v;
                         text_ := text_ vars |} tr1 t)
      as (tr' & E' & Hj' & Hd').
    + simpl; lia.
    + lia.
    + intros i Hi; rewrite Hc.
      replace (S (count is_add_job tr) + i)%nat
        with (count is_add_job tr + S i)%nat by lia.
      apply Hrej; lia.
    + rewrite Hc.
      replace (S (count is_add_job tr) + k)%nat
        with (count is_add_job tr + S k)%nat by lia.
      exact Hok.
    + exists tr'; rewrite E'; simpl attempts.
      replace (attempts vars + Z.of_nat (S k))
        with (attempts vars + 1 + Z.of_nat k) by lia.
      repeat split; lia.
Qed.

(** X13.  When the first [k] submissions fail with error values
    (rejections that are neither [undefined] nor [null]) and the next one
    succeeds, within the bound, [performAdvancedOCR] submits [k + 1] jobs,
    takes [k] delays and, the workers terminating, returns the text of the
    successful attempt: the errors of the earlier attempts are dropped. *)
Theorem first_success_after_failures (env : Env) (fuel : nat)
    (imageBuffer : buffer) (options : Options.t) (p : buffer)
    (k : nat) (t : text) :
  Z.of_nat k < default 1 (Options.retries options) ->
  (S k <= fuel)%nat ->
  starts_every_worker env ->
  processedImage_of env imageBuffer options = Resolved p ->
  (forall i, (i < k)%nat ->
             rejects_with not_nullish (addJob_answer env i p) = true) ->
  addJob_answer env k p = Resolved t ->
  exists out tr',
    performAdvancedOCR env fuel imageBuffer options [] = (out, tr')
    /\ count is_add_job tr' = S k
    /\ count is_delay tr' = k
    /\ (terminates_every_worker env -> out = Return t).
Proof.
  intros Hk Hfuel Hstart Hpre Hrej Hok.
  destruct (performAdvancedOCR_started env fuel imageBuffer options []
              p Hstart Hpre) as (evs & E & Hs & _).
  rewrite E; clear E.
  set (lg := default console_log (Options.logger options)).
  set (retries := default 1 (Options.retries options)) in *.
  set (ws := workers_from (count is_create_worker [])
               (default ["eng"] (Options.languages options))).
  assert (Hj0 : count is_add_job (evs ++ []) = 0%nat)
    by (rewrite (count_outside _ setup_event); [reflexivity | | exact Hs];
        intros e He; apply setup_not_job; exact He).
  assert (Hd0 : count is_delay (evs ++ []) = 0%nat)
    by (rewrite (count_outside _ setup_event); [reflexivity | | exact Hs];
        intros e He; apply setup_not_job; exact He).
  assert (Ebody : exists e2 tr1,
             recognize_with_retries env fuel lg retries p (evs ++ [])
             = (Return t, e2 ++ tr1)
             /\ forallb silent e2 = true
             /\ count is_add_job tr1 = S k
             /\ count is_delay tr1 = k).
  { unfold recognize_with_retries.
    destruct (bind_log env lg "Starting OCR process..."
                (fun _ =>
                   vars <- retry_loop env fuel lg retries p
                             {| attempts := 0; error := VNull; text_ := [] |} ;;
                   (if truthy (error vars) then throw (error vars) else ret tt) ;;
                   log env lg "OCR process completed successfully" ;;
                   ret (text_ vars)) (evs ++ [])) as (e1 & E1 & Hs1).
    rewrite E1; clear E1.
    assert (Hc : count is_add_job (e1 ++ evs ++ []) = 0%nat)
      by (rewrite count_silent_app by auto with traces; exact Hj0).
    assert (Hd : count is_delay (e1 ++ evs ++ []) = 0%nat)
      by (rewrite count_silent_app by auto with traces; exact Hd0).
    destruct (retry_loop_succeeds_after env lg retries p k fuel
                {| attempts := 0; error := VNull; text_ := [] |}
                (e1 ++ evs ++ []) t) as (tr1 & El & Hj1 & Hd1).
    - simpl; lia.
    - exact Hfuel.
    - intros i Hi; rewrite Hc; apply Hrej; exact Hi.
    - rewrite Hc; exact Hok.
    - erewrite bind_return by exact El.
      cbn [error truthy text_].
      erewrite bind_return by reflexivity.
      destruct (bind_log env lg "OCR process completed successfully"
                  (fun _ => ret t) tr1) as (e2 & E2 & Hs2).
      rewrite E2; exists e2, tr1.
      repeat split; [exact Hs2 | lia | lia]. }
  destruct Ebody as (e2 & tr1 & Ebody & Hs2 & Hj1 & Hd1).
  destruct (try_statement_run env lg ws _ _ _ _ Ebody)
    as (out & e3 & Etry & Hq & _ & Hout); [discriminate|].
  exists out, (e3 ++ e2 ++ tr1).
  split; [exact Etry|].
  rewrite (count_outside is_add_job cleanup_event e3),
    (count_outside is_delay cleanup_event e3) by
    (try exact Hq; intros e He; apply cleanup_not_job; exact He).
  rewrite (count_silent_app is_add_job e2), (count_silent_app is_delay e2)
    by auto with traces.
  repeat split; auto.
  intros Hterm; apply Hout, first_rejection_none; exact Hterm.
Qed.

(** ** A worker that does not start *)

Lemma init_workers_fails_at (env : Env) (lg : logger_t) (v : value)
    (lang : string) (after : list string) (before : list string) :
  forall (workers : list worker) (tr : trace),
    (forall i l, (i < List.length before)%nat ->
                 createWorker_answer env (count is_create_worker tr + i) l
                 = None) ->
    createWorker_answer env
      (count is_create_worker tr + List.length before) lang = Some v ->
    exists evs,
      init_workers env lg (before ++ lang :: after) workers tr
      = (Throw v, evs ++ tr)
      /\ forallb pool_event evs = true
      /\ created_workers (evs ++ tr)
         = rev (workers_from (count is_create_worker tr) before)
           ++ created_workers tr.
Proof.
  induction before as [|l0 before IH]; intros workers tr Hok Hfail;
    cbn [app init_workers workers_from].
  - destruct (bind_log env lg ("Initializing worker for language: " ++ lang)
                (fun _ => w <- createWorker env lang ;;
                          emit (EAddWorker w) ;;
                          init_workers env lg after (workers ++ [w]))
                tr) as (evs1 & E1 & Hs1).
    rewrite E1; clear E1.
    simpl in Hfail; rewrite Nat.add_0_r in Hfail.
    exists (ECreateWorker lang None :: evs1); split.
    + apply bind_throw; rewrite createWorker_run.
      rewrite count_silent_app by auto with traces.
      rewrite Hfail; reflexivity.
    + simpl.
      rewrite (forallb_silent_in pool_event evs1 pool_admits_logging Hs1).
      rewrite created_workers_silent_app by assumption.
      split; reflexivity.
  - destruct (bind_log env lg ("Initializing worker for language: " ++ l0)
                (fun _ => w <- createWorker env l0 ;;
                          emit (EAddWorker w) ;;
                          init_workers env lg (before ++ lang :: after)
                            (workers ++ [w]))
                tr) as (evs1 & E1 & Hs1).
    rewrite E1; clear E1.
    assert (Hk : count is_create_worker (evs1 ++ tr)
                 = count is_create_worker tr)
      by (apply count_silent_app; auto with traces).
    assert (H0 : createWorker_answer env (count is_create_worker tr) l0 = None)
      by (rewrite <- (Nat.add_0_r (count is_create_worker tr));
          apply Hok; simpl; lia).
    erewrite bind_return
      by (apply createWorker_started; rewrite Hk; exact H0).
    rewrite Hk.
    set (w := {| wid := count is_create_worker tr; wlang := l0 |}).
    erewrite bind_return by reflexivity.
    set (tr1 := EAddWorker w :: ECreateWorker l0 (Some w) :: evs1 ++ tr).
    assert (Hk' : count is_create_worker tr1
                  = S (count is_create_worker tr))
      by (unfold tr1; rewrite !count_cons, Hk; reflexivity).
    destruct (IH (workers ++ [w]) tr1) as (evs & E & Hq & Hc).
    + intros i l Hi; rewrite Hk'.
      replace (S (count is_create_worker tr) + i)%nat
        with (count is_create_worker tr + S i)%nat by lia.
      apply Hok; simpl; lia.
    + rewrite Hk'.
      replace (S (count is_create_worker tr) + List.length before)%nat
        with (count is_create_worker tr + List.length (l0 :: before))%nat
        by (simpl; lia).
      exact Hfail.
    + rewrite Hk' in Hc.
      exists (evs ++ EAddWorker w :: ECreateWorker l0 (Some w) :: evs1).
      rewrite <- !app_assoc; simpl; fold tr1.
      repeat split.
      * exact E.
      * rewrite forallb_app, Hq; simpl.
        apply (forallb_silent_in pool_event evs1 pool_admits_logging Hs1).
      * rewrite Hc; unfold tr1; simpl.
        rewrite created_workers_silent_app by assumption.
        rewrite <- app_assoc; reflexivity.
Qed.

(** X14.  When the worker of some language does not start,
    [performAdvancedOCR] throws the rejection of that [createWorker] call
    at once: no job is submitted, no [terminate] call is made, and the
    workers started for the languages before it all stay live. *)
Theorem failed_start_skips_cleanup (env : Env) (fuel : nat)
    (imageBuffer : buffer) (options : Options.t) (p : buffer)
    (before after : list string) (lang : string) (v : value) :
  default ["eng"] (Options.languages options) = before ++ lang :: after ->
  processedImage_of env imageBuffer options = Resolved p ->
  (forall i l, (i < List.length before)%nat ->
               createWorker_answer env i l = None) ->
  createWorker_answer env (List.length before) lang = Some v ->
  exists tr',
    performAdvancedOCR env fuel imageBuffer options [] = (Throw v, tr')
    /\ count is_add_job tr' = 0%nat
    /\ (forall w ok, ~ In (ETerminate w ok) tr')
    /\ created_workers tr' = rev (workers_from 0 before)
    /\ live_workers tr' = rev (workers_from 0 before).
Proof.
  intros Hlangs Hpre Hok Hfail.
  unfold performAdvancedOCR; rewrite Hlangs.
  set (lg := default console_log (Options.logger options)).
  destruct (preprocessing_step_run env lg imageBuffer options [])
    as (e0 & E0 & Hq0 & _).
  rewrite Hpre in E0; simpl outcome_of in E0.
  erewrite bind_return by exact E0.
  erewrite bind_return by reflexivity.
  assert (Hc0 : count is_create_worker (ECreateScheduler :: e0 ++ []) = 0%nat).
  { rewrite count_cons, (count_outside is_create_worker pre_event);
      [reflexivity | | exact Hq0].
    intros [] H; try discriminate H; reflexivity. }
  destruct (init_workers_fails_at env lg v lang after before []
              (ECreateScheduler :: e0 ++ [])) as (e1 & E1 & Hq1 & Hcw).
  { intros i l Hi; rewrite Hc0; apply Hok; exact Hi. }
  { rewrite Hc0; exact Hfail. }
  rewrite Hc0 in Hcw.
  exists (e1 ++ ECreateScheduler :: e0 ++ []).
  split; [apply bind_throw; exact E1|].
  assert (Hall : forall e, In e (e1 ++ ECreateScheduler :: e0 ++ []) ->
                           pool_event e = true \/ pre_event e = true).
  { intros e He; rewrite forallb_forall in Hq0, Hq1.
    apply in_app_or in He as [He|[<-|He]]; auto.
    rewrite app_nil_r in He; auto. }
  assert (Hnoterm : forall w ok,
             ~ In (ETerminate w ok) (e1 ++ ECreateScheduler :: e0 ++ [])).
  { intros w ok Hin; destruct (Hall _ Hin) as [H|H]; discriminate H. }
  assert (Hcreated : created_workers (e1 ++ ECreateScheduler :: e0 ++ [])
                     = rev (workers_from 0 before)).
  { rewrite Hcw; simpl.
    rewrite (created_workers_outside pre_event), app_nil_r;
      [reflexivity | | exact Hq0].
    intros [] H; try discriminate H; reflexivity. }
  repeat split.
  - unfold count; rewrite filter_none; [reflexivity|].
    intros e He; destruct (Hall _ He) as [H|H];
      destruct e; try discriminate H; reflexivity.
  - exact Hnoterm.
  - exact Hcreated.
  - unfold live_workers; rewrite Hcreated.
    apply forallb_filter_id.
    apply forallb_forall; intros w _.
    apply negb_true_iff.
    destruct (existsb (is_terminated w) (e1 ++ ECreateScheduler :: e0 ++ []))
      eqn:Ex; [|reflexivity].
    apply existsb_exists in Ex as (e & He & Hw).
    destruct (Hall _ He) as [H|H];
      destruct e; try discriminate H; discriminate Hw.
Qed.

(** ** The single-worker scripts, when a call fails *)

(** X16.  When the worker does not start, [performOCR] and
    [extractTextFromImage] throw the rejection of [createWorker] and do
    nothing else: no [recognize] call, no [terminate] call. *)
Theorem single_worker_failed_start (env : Env) (image : buffer)
    (lang : option string) (v : value) :
  createWorker_answer env 0 (default "eng" lang) = Some v ->
  performOCR env image lang []
  = (Throw v,
     [ECreateWorker (default "eng" lang) None;
      EConsoleLog "Initializing Tesseract worker..."])
  /\ extractTextFromImage env image lang []
     = (Throw v, [ECreateWorker (default "eng" lang) None]).
Proof.
  intros Hfail; split.
  - unfold performOCR.
    erewrite bind_return by reflexivity.
    apply bind_throw; rewrite createWorker_run.
    change (count is_create_worker
              [EConsoleLog "Initializing Tesseract worker..."]) with 0%nat.
    rewrite Hfail; reflexivity.
  - unfold extractTextFromImage.
    apply bind_throw; rewrite createWorker_run.
    change (count is_create_worker []) with 0%nat.
    rewrite Hfail; reflexivity.
Qed.

(** X17.  In the single-worker scripts a [terminate] call that fails
    replaces the outcome: the text that [recognize] produced, or the error
    it threw, is lost and the rejection of [terminate] is thrown instead.
    [performOCR] has by then reported the error of [recognize] on the
    console, and does not log that the worker terminated. *)
Theorem single_worker_failed_termination (env : Env) (image : buffer)
    (lang : option string) (v' : value) :
  createWorker_answer env 0 (default "eng" lang) = None ->
  terminate_answer env {| wid := 0; wlang := default "eng" lang |} = Some v' ->
  (exists tr',
      performOCR env image lang []
      = (Throw v', ETerminate {| wid := 0; wlang := default "eng" lang |} false
                   :: tr')
      /\ (forall v,
            recognize_answer env
              {| wid := 0; wlang := default "eng" lang |} image = Rejected v ->
            In (EConsoleError "OCR Error:" v) tr')
      /\ ~ In (EConsoleLog "Tesseract worker terminated") tr')
  /\ extractTextFromImage env image lang []
     = (Throw v',
        [ETerminate {| wid := 0; wlang := default "eng" lang |} false;
         ERecognize {| wid := 0; wlang := default "eng" lang |} image;
         ECreateWorker (default "eng" lang)
           (Some {| wid := 0; wlang := default "eng" lang |})]).
Proof.
  intros Hstart Hterm; split.
  - rewrite (performOCR_run env image lang Hstart), Hterm.
    eexists; split; [reflexivity|].
    destruct (recognize_answer env
                {| wid := 0; wlang := default "eng" lang |} image) as [t|v0];
      split.
    + intros v H; discriminate H.
    + simpl; intros H; repeat destruct H as [H|H]; try discriminate H; exact H.
    + intros v H; inversion H; subst; left; reflexivity.
    + simpl; intros H; repeat destruct H as [H|H]; try discriminate H; exact H.
  - rewrite (extractTextFromImage_run env image lang Hstart).
    unfold terminate_event; rewrite Hterm; reflexivity.
Qed.

(** ** The nodes, on an input without data *)

(** X18.  When the input item has no binary data (no [binary], no [data],
    or an empty [data]), each node returns a failure record with its own
    fixed message, and has called nothing but [$input.first()], the clock
    and the console: no sharp call, no worker, no job. *)
Theorem nodes_reject_missing_data (env : Env) (fuel : nat) (item : Item.t) :
  input_first env = Resolved (Some item) ->
  no_data (opt_data (Item.binary item)) = true ->
  (exists out tr',
      advanced_node env fuel [] = (Return out, tr')
      /\ Json.success (json out) = false
      /\ Json.error (json out)
         = Some (VStr "No binary data found in input. Connect a node that provides image data.")
      /\ Json.text (json out) = None
      /\ forallb (fun e => silent e || match e with
                                       | EInputFirst => true
                                       | _ => false
                                       end) tr' = true)
  /\ code_block_node env []
     = (Return
          {| json :=
               {| Json.success := false;
                  Json.text := None;
                  Json.statistics := None;
                  Json.languages := None;
                  Json.mimeType := None;
                  Json.error :=
                    Some (VStr "No binary data found in input. Please connect a node that provides image data.");
                  Json.stack := None;
                  Json.timestamp := None |} |},
        [EInputFirst]).
Proof.
  intros Hfirst Hnone; split.
  - unfold advanced_node, try_catch, input_first_call.
    unfold bind at 1 2 3 4 5 6.
    unfold emit at 1; rewrite Hfirst; cbn [await ret get_binary].
    rewrite Hnone; cbn [throw].
    eexists; eexists; split; [reflexivity|].
    repeat split; reflexivity.
  - unfold code_block_node, try_catch, input_first_call.
    unfold bind at 1 2 3 4 5.
    unfold emit at 1; rewrite Hfirst; cbn [await ret get_binary].
    rewrite Hnone; reflexivity.
Qed.

(** ** The effort of a run, from any trace *)

Lemma run_effort (env : Env) (fuel : nat) (imageBuffer : buffer)
    (options : Options.t) (tr : trace) :
  exists evs,
    snd (performAdvancedOCR env fuel imageBuffer options tr) = evs ++ tr
    /\ (count is_add_job evs
        <= Z.to_nat (default 1%Z (Options.retries options)))%nat
    /\ (count is_delay evs
        <= Z.to_nat (default 1%Z (Options.retries options)) - 1)%nat
    /\ (count is_create_worker evs
        <= List.length (default ["eng"] (Options.languages options)))%nat
    /\ List.filter is_sharp evs
       = (if default true (Options.preprocessing options)
          then [ESharp imageBuffer
                  (preprocess_ops
                     (default PreprocessOptions.empty
                        (Options.preprocessingOptions options)))]
          else [])
    /\ forallb (fun e => negb (node_event e) || silent e) evs = true.
Proof.
  destruct (performAdvancedOCR_phases env fuel imageBuffer options tr)
    as (e0 & e1 & e2 & e3 & E & H0 & Hsharp & H1 & Hc1 & H2 & H3).
  exists (e3 ++ e2 ++ e1 ++ e0).
  split; [rewrite E, <- !app_assoc; reflexivity|].
  assert (Hb : (count is_add_job e2
                <= Z.to_nat (default 1%Z (Options.retries options)))%nat
               /\ (count is_delay e2
                   <= Z.to_nat (default 1%Z (Options.retries options)) - 1)%nat
               /\ forallb job_event e2 = true).
  { destruct H2 as [->|(p & _ & E2)].
    - repeat split; unfold count; simpl; lia.
    - destruct (recognize_with_retries_bounds env fuel
                  (default console_log (Options.logger options))
                  (default 1 (Options.retries options)) p (e1 ++ e0 ++ tr))
        as (evs & Ee & Hj & Hd & _ & _).
      rewrite E2 in Ee; apply app_inv_tail in Ee; subst evs.
      repeat split; auto.
      eapply phase_segment; [apply emits_recognize_with_retries | exact E2]. }
  destruct Hb as (Hj & Hd & Hq2).
  rewrite !count_app, !filter_app, !forallb_app.
  rewrite (count_zero_outside is_add_job cleanup_event e3),
    (count_zero_outside is_add_job pool_event e1),
    (count_zero_outside is_add_job pre_event e0),
    (count_zero_outside is_delay cleanup_event e3),
    (count_zero_outside is_delay pool_event e1),
    (count_zero_outside is_delay pre_event e0),
    (count_zero_outside is_create_worker cleanup_event e3),
    (count_zero_outside is_create_worker job_event e2),
    (count_zero_outside is_create_worker pre_event e0),
    (filter_outside is_sharp cleanup_event e3),
    (filter_outside is_sharp job_event e2),
    (filter_outside is_sharp pool_event e1);
    auto; try (intros [] H; try discriminate H; reflexivity).
  assert (Hcls : forall (Q : event -> bool) evs,
             (forall e, Q e = true -> negb (node_event e) || silent e = true) ->
             forallb Q evs = true ->
             forallb (fun e => negb (node_event e) || silent e) evs = true).
  { intros Q evs HQ Hq; rewrite forallb_forall in *; auto. }
  rewrite (Hcls cleanup_event e3), (Hcls job_event e2), (Hcls pool_event e1),
    (Hcls pre_event e0); auto;
    try (intros [] H; try discriminate H; reflexivity).
  repeat split; try lia; exact Hsharp.
Qed.

(** ** The advanced node around its OCR call *)

Lemma silent_handler (env : Env) (error : value) (tr : trace) :
  exists evs,
    snd ((message <- get_message env error ;;
          log env timestamp_logger
            ("Error in OCR node: " ++ to_string message) ;;
          message <- get_message env error ;;
          stack <- get_stack env error ;;
          stamp <- now env ;;
          ret {| json :=
                   {| Json.success := false;
                      Json.text := None;
                      Json.statistics := None;
                      Json.languages := None;
                      Json.mimeType := None;
                      Json.error := Some message;
                      Json.stack := Some stack;
                      Json.timestamp := Some stamp |} |}) tr)
    = evs ++ tr
    /\ forallb silent evs = true.
Proof.
  assert (H : emits silent
                (message <- get_message env error ;;
                 log env timestamp_logger
                   ("Error in OCR node: " ++ to_string message) ;;
                 message <- get_message env error ;;
                 stack <- get_stack env error ;;
                 stamp <- now env ;;
                 ret {| json :=
                          {| Json.success := false;
                             Json.text := None;
                             Json.statistics := None;
                             Json.languages := None;
                             Json.mimeType := None;
                             Json.error := Some message;
                             Json.stack := Some stack;
                             Json.timestamp := Some stamp |} |})).
  { apply emits_bind; [apply emits_get_message | intros m].
    apply emits_bind; [apply emits_log; intros e He; exact He | intros _].
    apply emits_bind; [apply emits_get_message | intros m'].
    apply emits_bind; [apply emits_get_stack | intros st].
    apply emits_bind; [|intros stamp; apply emits_ret].
    unfold now.
    apply emits_bind; [apply emits_get_trace | intros tr0].
    apply emits_bind; [apply emits_emit; reflexivity | intros _].
    apply emits_ret. }
  exact (H tr).
Qed.

(** What the advanced node does on an input with data: it runs
    [performAdvancedOCR] on the decoded buffer, for English, with
    preprocessing, two attempts and the pipeline of the MIME type; around
    that it only reads the input, the clock and the console. *)
Lemma advanced_node_shape (env : Env) (fuel : nat) (item : Item.t) :
  input_first env = Resolved (Some item) ->
  no_data (opt_data (Item.binary item)) = false ->
  exists options before after,
    snd (advanced_node env fuel [])
    = after
      ++ snd (performAdvancedOCR env fuel
                (buffer_from_base64 env
                   (default "" (opt_data (Item.binary item))))
                options before)
    /\ forallb node_event before = true
    /\ forallb silent after = true
    /\ Options.languages options = Some ["eng"]
    /\ Options.preprocessing options = Some true
    /\ Options.retries options = Some 2
    /\ Options.logger options = Some timestamp_logger
    /\ preprocess_ops
         (default PreprocessOptions.empty
            (Options.preprocessingOptions options))
       = node_pipeline (opt_mimeType (Item.binary item)).
Proof.
  intros Hfirst Hdata.
  unfold advanced_node, try_catch, input_first_call.
  unfold bind at 1 2 3 4 5.
  unfold emit at 1; rewrite Hfirst; cbn [await ret get_binary].
  rewrite Hdata; cbn [ret].
  match goal with
  | |- context [performAdvancedOCR env fuel ?b ?o] =>
      set (buf := b); set (opts := o)
  end.
  destruct (log_run env timestamp_logger "Starting advanced OCR process..."
              [EInputFirst]) as (e1 & E1 & Hs1).
  rewrite E1; cbv beta iota.
  exists opts, (e1 ++ [EInputFirst]).
  unfold bind at 1.
  destruct (performAdvancedOCR env fuel buf opts (e1 ++ [EInputFirst]))
    as [[extractedText|v|] tr1] eqn:Erun.
  - exists [ENow]; repeat split; try reflexivity.
    + rewrite forallb_app; simpl; rewrite andb_true_r.
      rewrite forallb_forall in *; intros e He.
      specialize (Hs1 e He); destruct e; try discriminate Hs1; reflexivity.
    + unfold opts, node_pipeline; cbn [Options.preprocessingOptions default].
      destruct (opt_includes (opt_mimeType (Item.binary item)) "image/jpeg"
                || opt_includes (opt_mimeType (Item.binary item)) "image/jpg");
        [reflexivity|].
      destruct (opt_includes (opt_mimeType (Item.binary item)) "image/png");
        reflexivity.
  - destruct (silent_handler env v tr1) as (evs & E & Hs).
    exists evs; simpl snd; repeat split; try reflexivity; try exact Hs.
    + exact E.
    + rewrite forallb_app; simpl; rewrite andb_true_r.
      rewrite forallb_forall in *; intros e He.
      specialize (Hs1 e He); destruct e; try discriminate Hs1; reflexivity.
    + unfold opts, node_pipeline; cbn [Options.preprocessingOptions default].
      destruct (opt_includes (opt_mimeType (Item.binary item)) "image/jpeg"
                || opt_includes (opt_mimeType (Item.binary item)) "image/jpg");
        [reflexivity|].
      destruct (opt_includes (opt_mimeType (Item.binary item)) "image/png");
        reflexivity.
  - exists []; repeat split; try reflexivity.
    + rewrite forallb_app; simpl; rewrite andb_true_r.
      rewrite forallb_forall in *; intros e He.
      specialize (Hs1 e He); destruct e; try discriminate Hs1; reflexivity.
    + unfold opts, node_pipeline; cbn [Options.preprocessingOptions default].
      destruct (opt_includes (opt_mimeType (Item.binary item)) "image/jpeg"
                || opt_includes (opt_mimeType (Item.binary item)) "image/jpg");
        [reflexivity|].
      destruct (opt_includes (opt_mimeType (Item.binary item)) "image/png");
        reflexivity.
Qed.

(** X19.  On an input with data the advanced node calls sharp exactly
    once, on the decoded buffer, with the pipeline of the MIME type: JPEG
    images are sharpened and modulated to contrast 1.2, PNG images are
    neither, other images are sharpened; every image is made gray,
    normalized and median filtered, and none is thresholded or resized. *)
Theorem node_pipeline_by_mime (env : Env) (fuel : nat) (item : Item.t) :
  input_first env = Resolved (Some item) ->
  no_data (opt_data (Item.binary item)) = false ->
  List.filter is_sharp (snd (advanced_node env fuel []))
  = [ESharp
       (buffer_from_base64 env (default "" (opt_data (Item.binary item))))
       (node_pipeline (opt_mimeType (Item.binary item)))]
  /\ incl [Grayscale; Normalize; Median 3]
       (node_pipeline (opt_mimeType (Item.binary item)))
  /\ (forall op, In op (node_pipeline (opt_mimeType (Item.binary item))) ->
                 stage op <> 2%nat /\ stage op <> 3%nat).
Proof.
  intros Hfirst Hdata.
  destruct (advanced_node_shape env fuel item Hfirst Hdata)
    as (options & before & after & E & Hb & Ha & _ & Hpre & _ & _ & Hops).
  destruct (run_effort env fuel
              (buffer_from_base64 env
                 (default "" (opt_data (Item.binary item))))
              options before) as (evs & Ee & _ & _ & _ & Hsharp & _).
  rewrite Hpre, Hops in Hsharp; simpl default in Hsharp.
  split; [|split].
  - rewrite E, Ee, !filter_app, Hsharp.
    rewrite (filter_outside is_sharp silent after),
      (filter_outside is_sharp node_event before); auto;
      intros [] H; try discriminate H; reflexivity.
  - unfold node_pipeline.
    destruct (opt_includes (opt_mimeType (Item.binary item)) "image/jpeg"
              || opt_includes (opt_mimeType (Item.binary item)) "image/jpg");
      [|destruct (opt_includes (opt_mimeType (Item.binary item)) "image/png")];
      intros op Hop; simpl in *; intuition.
  - unfold node_pipeline.
    destruct (opt_includes (opt_mimeType (Item.binary item)) "image/jpeg"
              || opt_includes (opt_mimeType (Item.binary item)) "image/jpg");
      [|destruct (opt_includes (opt_mimeType (Item.binary item)) "image/png")];
      intros op Hop; simpl in Hop;
      repeat destruct Hop as [<-|Hop]; try contradiction;
      simpl; split; discriminate.
Qed.

Lemma advanced_node_no_input (env : Env) (fuel : nat) :
  (forall item, input_first env = Resolved (Some item) ->
                no_data (opt_data (Item.binary item)) = true) ->
  forallb node_event (snd (advanced_node env fuel [])) = true.
Proof.
  intros Hnone.
  assert (Hh : forall v, forallb node_event
                           (snd ((fun error : value =>
                                    (message <- get_message env error ;;
          log env timestamp_logger
            ("Error in OCR node: " ++ to_string message) ;;
          message <- get_message env error ;;
          stack <- get_stack env error ;;
          stamp <- now env ;;
          ret {| json :=
                   {| Json.success := false;
                      Json.text := None;
                      Json.statistics := None;
                      Json.languages := None;
                      Json.mimeType := None;
                      Json.error := Some message;
                      Json.stack := Some stack;
                      Json.timestamp := Some stamp |} |})) v [EInputFirst]))
                      = true).
  { intros v; destruct (silent_handler env v [EInputFirst]) as (evs & E & Hs).
    cbv beta; rewrite E, forallb_app; simpl; rewrite andb_true_r.
    rewrite forallb_forall in *; intros e He.
    specialize (Hs e He); destruct e; try discriminate Hs; reflexivity. }
  unfold advanced_node, try_catch, input_first_call.
  unfold bind at 1 2 3 4 5.
  unfold emit at 1.
  destruct (input_first env) as [[item|]|v] eqn:Hfirst; cbn [await ret throw].
  - cbn [get_binary ret]; rewrite (Hnone item eq_refl); cbn [throw].
    apply Hh.
  - cbn [get_binary throw]; apply Hh.
  - apply Hh.
Qed.

(** X20.  Whatever the input and whatever the libraries answer, one run
    of the advanced node calls sharp at most once, creates at most one
    worker, submits at most two jobs and waits at most once. *)
Theorem node_effort_bounded (env : Env) (fuel : nat) :
  let tr' := snd (advanced_node env fuel []) in
  (count is_sharp tr' <= 1)%nat
  /\ (count is_create_worker tr' <= 1)%nat
  /\ (count is_add_job tr' <= 2)%nat
  /\ (count is_delay tr' <= 1)%nat.
Proof.
  intros tr'; subst tr'.
  assert (Hcase : (forall item, input_first env = Resolved (Some item) ->
                                no_data (opt_data (Item.binary item)) = true)
                  \/ exists item, input_first env = Resolved (Some item)
                                  /\ no_data (opt_data (Item.binary item))
                                     = false).
  { destruct (input_first env) as [[item|]|v].
    - destruct (no_data (opt_data (Item.binary item))) eqn:Hd.
      + left; intros item' H; inversion H; subst; exact Hd.
      + right; exists item; auto.
    - left; intros item H; discriminate H.
    - left; intros item H; discriminate H. }
  destruct Hcase as [Hnone|(item & Hfirst & Hdata)].
  - pose proof (advanced_node_no_input env fuel Hnone) as Hq.
    rewrite !(count_zero_outside _ node_event _) ; auto;
      try (intros [] H; try discriminate H; reflexivity).
    repeat split; lia.
  - destruct (advanced_node_shape env fuel item Hfirst Hdata)
      as (options & before & after & E & Hb & Ha & Hl & Hpre & Hr & _ & _).
    destruct (run_effort env fuel
                (buffer_from_base64 env
                   (default "" (opt_data (Item.binary item))))
                options before) as (evs & Ee & Hj & Hd & Hc & Hsharp & _).
    rewrite Hr in Hj, Hd; rewrite Hl in Hc; rewrite Hpre in Hsharp.
    simpl in Hj, Hd, Hc, Hsharp.
    assert (Hs : count is_sharp evs = 1%nat)
      by (unfold count; rewrite Hsharp; reflexivity).
    rewrite E, Ee, !count_app.
    rewrite (count_zero_outside is_sharp silent after),
      (count_zero_outside is_sharp node_event before),
      (count_zero_outside is_create_worker silent after),
      (count_zero_outside is_create_worker node_event before),
      (count_zero_outside is_add_job silent after),
      (count_zero_outside is_add_job node_event before),
      (count_zero_outside is_delay silent after),
      (count_zero_outside is_delay node_event before); auto;
      try (intros [] H; try discriminate H; reflexivity).
    change (Pos.to_nat 2) with 2%nat in *.
    repeat split; lia.
Qed.

(** ** When the code-block node succeeds *)

Lemma extractTextFromImage_returns (env : Env) (img : buffer)
    (lang : option string) (t : text) (tr' : trace) :
  extractTextFromImage env img lang [] = (Return t, tr') ->
  createWorker_answer env 0 (default "eng" lang) = None
  /\ recognize_answer env {| wid := 0; wlang := default "eng" lang |} img
     = Resolved t
  /\ terminate_answer env {| wid := 0; wlang := default "eng" lang |} = None.
Proof.
  intros H.
  destruct (createWorker_answer env 0 (default "eng" lang)) as [v|] eqn:Ec.
  - unfold extractTextFromImage in H.
    erewrite bind_throw in H; [discriminate H|].
    rewrite createWorker_run.
    change (count is_create_worker []) with 0%nat.
    rewrite Ec; reflexivity.
  - rewrite (extractTextFromImage_run env img lang Ec) in H.
    destruct (terminate_answer env {| wid := 0; wlang := default "eng" lang |});
      [inversion H|].
    destruct (recognize_answer env
                {| wid := 0; wlang := default "eng" lang |} img);
      inversion H; subst; auto.
Qed.

(** X21.  The code-block node reports success with a text exactly when
    the input item carries non-empty data, the English worker starts,
    [recognize] yields that text on the decoded buffer, and the worker
    terminates; in every other case it does not report success. *)
Theorem code_block_node_succeeds_iff (env : Env) (t : text) :
  (exists out tr',
      code_block_node env [] = (Return out, tr')
      /\ Json.success (json out) = true
      /\ Json.text (json out) = Some t)
  <-> exists item d,
        input_first env = Resolved (Some item)
        /\ opt_data (Item.binary item) = Some d
        /\ d <> ""
        /\ createWorker_answer env 0 "eng" = None
        /\ recognize_answer env {| wid := 0; wlang := "eng" |}
             (buffer_from_base64 env d) = Resolved t
        /\ terminate_answer env {| wid := 0; wlang := "eng" |} = None.
Proof.
  assert (Hh : forall v tr out tr',
             (message <- get_message env v ;;
              ret {| json :=
                       {| Json.success := false;
                          Json.text := None;
                          Json.statistics := None;
                          Json.languages := None;
                          Json.mimeType := None;
                          Json.error := Some message;
                          Json.stack := None;
                          Json.timestamp := None |} |}) tr
             = (Return out, tr') ->
             Json.success (json out) = false).
  { intros v tr out tr' H; unfold bind in H.
    destruct (get_message env v tr) as [[m|w|] tr1]; try discriminate H.
    inversion H; reflexivity. }
  split.
  - intros (out & tr' & Hrun & Hsucc & Htext).
    unfold code_block_node, try_catch, input_first_call in Hrun.
    unfold bind at 1 2 3 4 5 in Hrun.
    unfold emit at 1 in Hrun.
    destruct (input_first env) as [[item|]|v] eqn:Hfirst;
      cbn [await ret throw get_binary] in Hrun;
      try (apply Hh in Hrun; congruence).
    destruct (no_data (opt_data (Item.binary item))) eqn:Hdata;
      cbn [throw ret] in Hrun;
      try (apply Hh in Hrun; congruence).
    destruct (extractTextFromImage env
                (buffer_from_base64 env
                   (default "" (opt_data (Item.binary item))))
                (Some "eng") [EInputFirst]) as [[t0|v|] tr1] eqn:Ex;
      try (apply Hh in Hrun; congruence); try discriminate Hrun.
    inversion Hrun; subst; simpl in Htext; inversion Htext; subst.
    assert (Ex0 : exists tr0,
               extractTextFromImage env
                 (buffer_from_base64 env
                    (default "" (opt_data (Item.binary item))))
                 (Some "eng") [] = (Return t, tr0)).
    { revert Ex; unfold extractTextFromImage.
      unfold bind at 1; rewrite createWorker_run.
      unfold bind at 1; rewrite createWorker_run.
      change (count is_create_worker [EInputFirst]) with 0%nat.
      change (count is_create_worker []) with 0%nat.
      destruct (createWorker_answer env 0 (default "eng" (Some "eng")));
        [discriminate|].
      unfold try_finally, recognize, terminate, terminate_call, bind, emit,
        ret, throw; rewrite !await_run.
      destruct (recognize_answer env _ _); simpl;
        destruct (terminate_answer env _); intros H; inversion H; eauto. }
    destruct Ex0 as (tr0 & Ex0).
    apply extractTextFromImage_returns in Ex0 as (Hc & Hr & Ht).
    destruct (opt_data (Item.binary item)) as [d|] eqn:Hd;
      [|discriminate Hdata].
    exists item, d; simpl in *.
    repeat split; auto.
    intros ->; discriminate Hdata.
  - intros (item & d & Hfirst & Hd & Hne & Hc & Hr & Ht).
    unfold code_block_node, try_catch, input_first_call.
    unfold bind at 1 2 3 4 5.
    unfold emit at 1; rewrite Hfirst; cbn [await ret get_binary].
    rewrite Hd.
    assert (Hdata : no_data (Some d) = false).
    { simpl; destruct (String.eqb_spec d ""); [contradiction | reflexivity]. }
    rewrite Hdata; cbn [ret default].
    unfold extractTextFromImage.
    unfold bind at 1; rewrite createWorker_run.
    change (count is_create_worker [EInputFirst]) with 0%nat.
    cbn [default]; rewrite Hc.
    unfold try_finally, recognize, terminate, terminate_call, bind, emit,
      ret, throw; rewrite !await_run, Hr, Ht; simpl.
    eexists; eexists; repeat split.
Qed.

(** ** Instances *)

Lemma started_pool_is_released_witness :
  exists out tr',
    performAdvancedOCR Samples.always_timeout 2 []
      (Samples.options ["eng"; "fra"] 2) [] = (out, tr')
    /\ out <> OutOfFuel
    /\ created_workers tr'
       = rev (workers_from 0
                (default ["eng"]
                   (Options.languages (Samples.options ["eng"; "fra"] 2))))
    /\ live_workers tr' = [].
Proof.
  apply (started_pool_is_released Samples.always_timeout 2 []
           (Samples.options ["eng"; "fra"] 2) []).
  - simpl; lia.
  - intros k lang; reflexivity.
  - intros w; reflexivity.
  - reflexivity.
Defined.

Lemma jobs_carry_processed_image_witness :
  processedImage_of Samples.calm [] (Samples.options ["eng"] 1) = Resolved []
  /\ (default true (Options.preprocessing (Samples.options ["eng"] 1)) = false
      -> @nil Byte.byte = []).
Proof.
  apply (jobs_carry_processed_image Samples.calm 1 []
           (Samples.options ["eng"] 1) []).
  vm_compute; repeat (first [left; reflexivity | right]).
Defined.

Lemma run_completes_witness :
  fst (performAdvancedOCR Samples.always_timeout 3 []
         (Samples.options ["eng"] 3) []) <> OutOfFuel.
Proof.
  apply (run_completes Samples.always_timeout 3 []
           (Samples.options ["eng"] 3) []).
  simpl; lia.
Defined.

Lemma first_success_after_failures_witness :
  exists out tr',
    performAdvancedOCR Samples.fails_once 2 [] (Samples.options ["eng"] 2) []
    = (out, tr')
    /\ count is_add_job tr' = 2%nat
    /\ count is_delay tr' = 1%nat
    /\ (terminates_every_worker Samples.fails_once
        -> out = Return Samples.hello).
Proof.
  apply (first_success_after_failures Samples.fails_once 2 []
           (Samples.options ["eng"] 2) [] 1 Samples.hello).
  - simpl; lia.
  - lia.
  - intros k lang; reflexivity.
  - reflexivity.
  - intros i Hi; assert (i = 0%nat) as -> by lia; reflexivity.
  - reflexivity.
Defined.

Lemma failed_start_skips_cleanup_witness :
  exists tr',
    performAdvancedOCR Samples.second_worker_fails 1 []
      (Samples.options ["eng"; "fra"] 1) []
    = (Throw (VError "no language data" ""), tr')
    /\ count is_add_job tr' = 0%nat
    /\ (forall w ok, ~ In (ETerminate w ok) tr')
    /\ created_workers tr' = rev (workers_from 0 ["eng"])
    /\ live_workers tr' = rev (workers_from 0 ["eng"]).
Proof.
  apply (failed_start_skips_cleanup Samples.second_worker_fails 1 []
           (Samples.options ["eng"; "fra"] 1) [] ["eng"] [] "fra"
           (VError "no language data" "")).
  - reflexivity.
  - reflexivity.
  - intros i l Hi; assert (i = 0%nat) as -> by (simpl in Hi; lia); reflexivity.
  - reflexivity.
Defined.

Lemma single_worker_failed_start_witness :
  performOCR MoreSamples.no_worker [] None []
  = (Throw (VError "no language data" ""),
     [ECreateWorker (default "eng" None) None;
      EConsoleLog "Initializing Tesseract worker..."])
  /\ extractTextFromImage MoreSamples.no_worker [] None []
     = (Throw (VError "no language data" ""),
        [ECreateWorker (default "eng" None) None]).
Proof.
  apply (single_worker_failed_start MoreSamples.no_worker [] None
           (VError "no language data" "")).
  reflexivity.
Defined.

Lemma single_worker_failed_termination_witness :
  (exists tr',
      performOCR Samples.stuck_workers [] None []
      = (Throw (VError "worker is busy" ""),
         ETerminate {| wid := 0; wlang := default "eng" None |} false :: tr')
      /\ (forall v,
            recognize_answer Samples.stuck_workers
              {| wid := 0; wlang := default "eng" None |} [] = Rejected v ->
            In (EConsoleError "OCR Error:" v) tr')
      /\ ~ In (EConsoleLog "Tesseract worker terminated") tr')
  /\ extractTextFromImage Samples.stuck_workers [] None []
     = (Throw (VError "worker is busy" ""),
        [ETerminate {| wid := 0; wlang := default "eng" None |} false;
         ERecognize {| wid := 0; wlang := default "eng" None |} [];
         ECreateWorker (default "eng" None)
           (Some {| wid := 0; wlang := default "eng" None |})]).
Proof.
  apply (single_worker_failed_termination Samples.stuck_workers [] None
           (VError "worker is busy" "")); reflexivity.
Defined.

Lemma nodes_reject_missing_data_witness :
  (exists out tr',
      advanced_node MoreSamples.no_input 2 [] = (Return out, tr')
      /\ Json.success (json out) = false
      /\ Json.error (json out)
         = Some (VStr "No binary data found in input. Connect a node that provides image data.")
      /\ Json.text (json out) = None
      /\ forallb (fun e => silent e || match e with
                                       | EInputFirst => true
                                       | _ => false
                                       end) tr' = true)
  /\ code_block_node MoreSamples.no_input []
     = (Return
          {| json :=
               {| Json.success := false;
                  Json.text := None;
                  Json.statistics := None;
                  Json.languages := None;
                  Json.mimeType := None;
                  Json.error :=
                    Some (VStr "No binary data found in input. Please connect a node that provides image data.");
                  Json.stack := None;
                  Json.timestamp := None |} |},
        [EInputFirst]).
Proof.
  apply (nodes_reject_missing_data MoreSamples.no_input 2
           MoreSamples.empty_item); reflexivity.
Defined.

Lemma node_pipeline_by_mime_witness :
  List.filter is_sharp (snd (advanced_node Samples.calm 2 []))
  = [ESharp
       (buffer_from_base64 Samples.calm
          (default "" (opt_data (Item.binary Samples.png_item))))
       (node_pipeline (opt_mimeType (Item.binary Samples.png_item)))]
  /\ incl [Grayscale; Normalize; Median 3]
       (node_pipeline (opt_mimeType (Item.binary Samples.png_item)))
  /\ (forall op,
         In op (node_pipeline (opt_mimeType (Item.binary Samples.png_item))) ->
         stage op <> 2%nat /\ stage op <> 3%nat).
Proof.
  apply (node_pipeline_by_mime Samples.calm 2 Samples.png_item); reflexivity.
Defined.

(** ** The log of the failed attempts *)

Lemma string_app_assoc (a b c : string) :
  ((a ++ b) ++ c = a ++ (b ++ c))%string.
Proof. induction a as [|x a IH]; simpl; [reflexivity | rewrite IH; reflexivity]. Qed.

Lemma log_shows (env : Env) (lg : logger_t) (line : string) (tr : trace) :
  exists evs e,
    log env lg line tr = (Return tt, evs ++ tr)
    /\ forallb silent evs = true
    /\ In e evs /\ shows line e.
Proof.
  destruct lg.
  - exists [EConsoleLog line], (EConsoleLog line).
    repeat split; [left; reflexivity | exists ""; reflexivity].
  - eexists [EConsoleLog _; ENow], (EConsoleLog _).
    repeat split; [left; reflexivity|].
    exists ("[" ++ clock env (count is_now tr) ++ "] ")%string.
    simpl; rewrite string_app_assoc; reflexivity.
Qed.

Lemma attempt_rejected_error (env : Env) (lg : logger_t) (retries : Z)
    (p : buffer) (vars : loop_vars) (tr : trace) (m s : string) :
  addJob_answer env (count is_add_job tr) p = Rejected (VError m s) ->
  exists evs e,
    attempt env lg retries p vars tr
    = (Return (false, {| attempts := attempts vars + 1; error := VError m s;
                         text_ := text_ vars |}),
       (if attempts vars + 1 <? retries then [EDelay 1000] else [])
       ++ evs ++ EAddJob p :: tr)
    /\ forallb silent evs = true
    /\ In e evs /\ shows (failure_line (attempts vars + 1) m) e.
Proof.
  intros H.
  destruct (log_shows env lg (failure_line (attempts vars + 1) m)
              (EAddJob p :: tr)) as (evs & e & E & Hs & Hin & Hshow).
  exists evs, e; repeat split; auto.
  unfold attempt.
  erewrite try_catch_throw
    by (apply bind_throw; rewrite addJob_run, H; reflexivity).
  cbn [get_message].
  erewrite bind_return by reflexivity.
  erewrite bind_return by exact E.
  destruct (attempts vars + 1 <? retries); reflexivity.
Qed.

Lemma retry_loop_logs_failures (env : Env) (lg : logger_t) (retries : Z)
    (p : buffer) (msg stk : nat -> string) (n : nat) :
  forall (fuel : nat) (vars : loop_vars) (tr : trace),
    (forall i, (i < n)%nat ->
               addJob_answer env (count is_add_job tr + i) p
               = Rejected (VError (msg (count is_add_job tr + i)%nat)
                             (stk (count is_add_job tr + i)%nat))) ->
    n = Z.to_nat (retries - attempts vars) ->
    (n <= fuel)%nat ->
    exists evs,
      snd (retry_loop env fuel lg retries p vars tr) = evs ++ tr
      /\ forall i, (i < n)%nat ->
           exists e,
             In e evs
             /\ shows (failure_line (attempts vars + Z.of_nat i + 1)
                         (msg (count is_add_job tr + i)%nat)) e.
Proof.
  induction n as [|n IH]; intros fuel vars tr Hrej Hn Hfuel.
  - destruct (emits_retry_loop env fuel lg retries p vars tr)
      as (evs & E & _).
    exists evs; split; [exact E | intros i Hi; lia].
  - destruct fuel as [|fuel]; [lia|]; cbn [retry_loop].
    destruct (Z.ltb_spec (attempts vars) retries); [|lia].
    pose proof (Hrej 0%nat ltac:(lia)) as H0; rewrite Nat.add_0_r in H0.
    destruct (attempt_rejected_error env lg retries p vars tr _ _ H0)
      as (evs & e & E & Hs & Hin & Hshow).
    erewrite bind_return by exact E.
    cbv beta iota.
    set (tr1 := (if attempts vars + 1 <? retries then [EDelay 1000] else [])
                ++ evs ++ EAddJob p :: tr).
    assert (Hc : count is_add_job tr1 = S (count is_add_job tr)).
    { unfold tr1; rewrite count_app, count_silent_app, count_cons
        by auto with traces.
      destruct (attempts vars + 1 <? retries); reflexivity. }
    destruct (IH fuel {| attempts := attempts vars + 1;
                         error := VError (msg (count is_add_job tr))
                                    (stk (count is_add_job tr));
                         text_ := text_ vars |} tr1)
      as (evs' & E' & Hlines).
    + intros i Hi; rewrite Hc.
      replace (S (count is_add_job tr) + i)%nat
        with (count is_add_job tr + S i)%nat by lia.
      apply Hrej; lia.
    + simpl; lia.
    + lia.
    + exists (evs'
              ++ (if attempts vars + 1 <? retries then [EDelay 1000] else [])
              ++ evs ++ [EAddJob p]).
      split.
      { rewrite E'; unfold tr1; rewrite <- !app_assoc; reflexivity. }
      intros [|i] Hi.
      * exists e; split.
        -- apply in_or_app; right; apply in_or_app; right.
           apply in_or_app; left; exact Hin.
        -- rewrite Nat.add_0_r, Z.add_0_r; exact Hshow.
      * destruct (Hlines i ltac:(lia)) as (e' & Hin' & Hshow').
        exists e'; split; [apply in_or_app; left; exact Hin'|].
        simpl attempts in Hshow'; rewrite Hc in Hshow'.
        replace (attempts vars + Z.of_nat (S i) + 1)
          with (attempts vars + 1 + Z.of_nat i + 1) by lia.
        replace (count is_add_job tr + S i)%nat
          with (S (count is_add_job tr) + i)%nat by lia.
        exact Hshow'.
Qed.

Lemma bind_keeps {A B} (Q : event -> bool) (m : M A) (k : A -> M B)
    (tr : trace) :
  (forall a, emits Q (k a)) ->
  exists evs, snd (bind m k tr) = evs ++ snd (m tr).
Proof.
  intros Hk; unfold bind.
  destruct (m tr) as [[a|v|] tr1]; simpl; try (exists []; reflexivity).
  destruct (Hk a tr1) as (evs & E & _); exists evs; exact E.
Qed.

Lemma try_finally_keeps {A} (Q : event -> bool) (body : M A)
    (cleanup : M unit) (tr : trace) :
  emits Q cleanup ->
  exists evs, snd (try_finally body cleanup tr) = evs ++ snd (body tr).
Proof.
  intros Hc; rewrite try_finally_trace.
  destruct (fst (body tr)); try (exists []; reflexivity);
    destruct (Hc (snd (body tr))) as (evs & E & _); exists evs; exact E.
Qed.

(** X22.  When the N allowed attempts all fail with Error objects, the
    log of [performAdvancedOCR] holds, for each of them, the line
    "OCR attempt i failed: message" with its own message, the attempts
    being numbered from 1 to N. *)
Theorem failed_attempts_are_logged (env : Env) (fuel : nat)
    (imageBuffer : buffer) (options : Options.t) (p : buffer)
    (retries : Z) (msg stk : nat -> string) :
  default 1 (Options.retries options) = retries ->
  (Z.to_nat retries <= fuel)%nat ->
  starts_every_worker env ->
  processedImage_of env imageBuffer options = Resolved p ->
  (forall k, (k < Z.to_nat retries)%nat ->
             addJob_answer env k p = Rejected (VError (msg k) (stk k))) ->
  forall i, (i < Z.to_nat retries)%nat ->
    exists e,
      In e (snd (performAdvancedOCR env fuel imageBuffer options []))
      /\ shows (failure_line (Z.of_nat i + 1) (msg i)) e.
Proof.
  intros Hdef Hfuel Hstart Hpre Hrej i Hi.
  destruct (performAdvancedOCR_started env fuel imageBuffer options []
              p Hstart Hpre) as (evs & E & Hs & _).
  rewrite E, Hdef; clear E.
  set (lg := default console_log (Options.logger options)).
  set (ws := workers_from (count is_create_worker [])
               (default ["eng"] (Options.languages options))).
  destruct (try_finally_keeps cleanup_event
              (recognize_with_retries env fuel lg retries p)
              (terminate_workers env lg ws) (evs ++ [])
              (emits_terminate_workers env lg ws)) as (e3 & E3).
  rewrite E3; clear E3.
  unfold recognize_with_retries.
  destruct (bind_log env lg "Starting OCR process..."
              (fun _ =>
                 vars <- retry_loop env fuel lg retries p
                           {| attempts := 0; error := VNull; text_ := [] |} ;;
                 (if truthy (error vars) then throw (error vars) else ret tt) ;;
                 log env lg "OCR process completed successfully" ;;
                 ret (text_ vars)) (evs ++ [])) as (e1 & E1 & Hs1).
  rewrite E1; clear E1.
  assert (Hc : count is_add_job (e1 ++ evs ++ []) = 0%nat).
  { rewrite count_silent_app by auto with traces.
    rewrite (count_outside _ setup_event); [reflexivity | | exact Hs].
    intros e He; apply setup_not_job; exact He. }
  destruct (bind_keeps job_event
              (retry_loop env fuel lg retries p
                 {| attempts := 0; error := VNull; text_ := [] |})
              (fun vars =>
                 (if truthy (error vars) then throw (error vars) else ret tt) ;;
                 log env lg "OCR process completed successfully" ;;
                 ret (text_ vars)) (e1 ++ evs ++ [])) as (e2 & E2).
  { intros vars.
    apply emits_bind;
      [destruct (truthy (error vars)); [apply emits_throw | apply emits_ret]|].
    intros _; apply emits_bind;
      [apply emits_log; auto with traces | intros _; apply emits_ret]. }
  rewrite E2; clear E2.
  destruct (retry_loop_logs_failures env lg retries p msg stk
              (Z.to_nat retries) fuel
              {| attempts := 0; error := VNull; text_ := [] |}
              (e1 ++ evs ++ [])) as (el & El & Hlines).
  - intros k Hk; rewrite Hc; apply Hrej; exact Hk.
  - simpl; f_equal; lia.
  - exact Hfuel.
  - destruct (Hlines i Hi) as (e & Hin & Hshow).
    rewrite Hc in Hshow; simpl in Hshow.
    exists e; split; [|exact Hshow].
    rewrite El.
    apply in_or_app; right; apply in_or_app; right.
    apply in_or_app; left; exact Hin.
Qed.

Lemma failed_attempts_are_logged_witness :
  exists e,
    In e (snd (performAdvancedOCR Samples.always_timeout 2 []
                 (Samples.options ["eng"] 2) []))
    /\ shows (failure_line (Z.of_nat 1 + 1) "timeout") e.
Proof.
  apply (failed_attempts_are_logged Samples.always_timeout 2 []
           (Samples.options ["eng"] 2) [] 2
           (fun _ => "timeout") (fun _ => "")).
  - reflexivity.
  - simpl; lia.
  - intros k lang; reflexivity.
  - reflexivity.
  - intros k _; reflexivity.
  - simpl; lia.
Defined.
